(** * LinDB memdb write path and replication channel manager

    A shallow embedding of the in-memory metric store of one shard
    ([tsdb/memdb]: field store, metric store, memory database) and of the
    broker's channel manager, with the properties its specification states.

    Go values are modelled as follows: machine integers are [Z] with the
    wrap-around of each conversion written out; [float64] is Rocq's binary64
    [float]; Go maps are [gmap], Go sets (maps to [struct{}]) are [gset];
    slices are lists; a method that mutates its receiver returns the new
    receiver next to its results; [error] is [option error] ([None] is
    [nil]), and a [(value, error)] pair is a [result]. *)

From Stdlib Require Import ZArith Lia PrimFloat.
From stdpp Require Import gmap strings list sorting pretty.

Open Scope Z_scope.

(** ** Machine integers *)

Module Int.

(** [uint32(x)], [uint16(x)]: truncation to the low bits. *)
Definition uint32 (z : Z) : Z := z mod 2 ^ 32.
Definition uint16 (z : Z) : Z := z mod 2 ^ 16.

(** [int32(x)], [int(x)] on a 64-bit platform: two's complement. *)
Definition int32 (z : Z) : Z := (z + 2 ^ 31) mod 2 ^ 32 - 2 ^ 31.
Definition int64 (z : Z) : Z := (z + 2 ^ 63) mod 2 ^ 64 - 2 ^ 63.

(** [atomic.Int32]: [Add], [Sub] and [Store] keep the cell in 32 bits. *)
Definition add32 (cell delta : Z) : Z := int32 (cell + delta).
Definition sub32 (cell delta : Z) : Z := int32 (cell - delta).

End Int.

(** ** Errors *)

(** The sentinel errors of package [series] and of the replication package;
    [ErrOther] stands for an error value built elsewhere ([fmt.Errorf], the
    id generator, a flusher). *)
Inductive error : Type :=
  | ErrTooManyTags
  | ErrTooManyFields
  | ErrWrongFieldType
  | ErrNotFound
  | ErrResetVersionUnavailable
  | ErrShardConfigConflict
  | ErrOther (msg : string).

#[global] Instance error_eq_dec : EqDecision error.
Proof. solve_decision. Defined.

(** A Go [(value, error)] result. *)
Inductive result (A : Type) : Type :=
  | Ok (a : A)
  | Err (e : error).
Arguments Ok {A} a.
Arguments Err {A} e.

Definition is_err {A} (r : result A) : bool :=
  match r with Ok _ => false | Err _ => true end.

(** ** Constants ([constants/tsdb.go]) *)

Module constants.
Definition DefaultMStoreMaxTagsCount : Z := 10000000.
Definition MStoreMaxTagKeysCount : Z := 512.
Definition TStoreMaxFieldsCount : Z := 1024.
Definition MaxSuggestions : Z := 10000.
End constants.

(** ** Field metadata and the id generator *)

(** Modelled from the spec: package [series/field] is not among the
    sources.  The field kinds are the closed list the specification
    gives, with [UnknownField] for an undecodable one. *)
Inductive fieldType : Type :=
  | UnknownField | SumField | MinField | MaxField
  | FirstField | LastField | HistogramField.

#[global] Instance fieldType_eq_dec : EqDecision fieldType.
Proof. solve_decision. Defined.

(** The aggregation functions of a segment. *)
Inductive aggFunc : Type := AggSum | AggMin | AggMax | AggFirst | AggLast.

Record Meta : Type := mkMeta {
  Meta_Name : string;
  Meta_ID : Z;            (* uint16 *)
  Meta_Type : fieldType
}.

(** Modelled from the spec: [field.Metas], the field-meta list of a metric
    store, "append-only with monotonic fieldID".  [GetFromName] returns
    the entry of that name, [Insert] adds one, [Clone] copies the slice
    (a no-op on values). *)
Module Metas.
Definition t : Type := list Meta.

Definition GetFromName (fms : t) (fieldName : string) : option Meta :=
  List.find (λ m, bool_decide (Meta_Name m = fieldName)) fms.

Definition Len (fms : t) : Z := Z.of_nat (length fms).

Definition Clone (fms : t) : t := fms.

Definition Insert (fms : t) (m : Meta) : t := fms ++ [m].
End Metas.

(** [metadb.IDGenerator], an external collaborator: the ids it hands out.
    [GenFieldID] can refuse (its error is passed on by the caller). *)
Record IDGenerator : Type := mkIDGenerator {
  GenMetricID : string → Z;                             (* uint32 *)
  GenFieldID : Z → string → fieldType → result Z;       (* uint16 *)
  GenTagKeyID : Z → string → Z                          (* uint32 *)
}.

(** ** Metric points ([rpc/proto/field]) *)

(** The [oneof] of a [pb.Field]; the write path tells [Field_Sum] apart
    from everything else. *)
Inductive isField_Field : Type :=
  | Field_Sum (Value : float)
  | Field_Other.

Record Field : Type := mkField {
  Field_Name : string;
  Field_Field : isField_Field
}.

Record Metric : Type := mkMetric {
  Metric_Name : string;
  Metric_Timestamp : Z;                  (* int64, epoch ms *)
  Metric_Tags : gmap string string;
  Metric_Fields : list Field
}.

(** ** Write and flush contexts ([database.go]) *)

(** [mStoreFieldIDGetter]: the metric store seen through its
    [GetFieldIDOrGenerate] method.  The method may publish a new field-meta
    list, so the getter maps the list before the call to the list after it
    and the call's result. *)
Definition mStoreFieldIDGetter : Type :=
  Metas.t → string → fieldType → IDGenerator → Metas.t * result Z.

Record writeContext : Type := mkWriteContext {
  wc_generator : IDGenerator;
  wc_metricID : Z;
  wc_familyTime : Z;
  wc_slotIndex : Z;
  wc_timeInterval : Z;
  wc_getter : mStoreFieldIDGetter
}.

(** [writeCtx.PointTime()] *)
Definition PointTime (writeCtx : writeContext) : Z :=
  Int.int64 (wc_familyTime writeCtx
             + Int.int64 (wc_timeInterval writeCtx * Int.int64 (wc_slotIndex writeCtx))).

Record flushContext : Type := mkFlushContext {
  fc_metricID : Z;
  fc_familyTime : Z;
  fc_timeInterval : Z
}.

(** ** The metrics-data flusher *)

(** [metricsdata.Flusher], consumed through its interface: the calls made
    on it are recorded in order; [FlushMetric] is the one call that can
    fail, as the flusher decides. *)
Inductive flushEvent : Type :=
  | EvFieldMetas (metas : Metas.t)
  | EvField (fieldID : Z) (data : list (Z * float))
  | EvSeries (seriesID : Z)
  | EvMetric (metricID : Z).

Record Flusher : Type := mkFlusher {
  flushed : list flushEvent;
  flushMetricFails : Z → option error
}.

Definition emit (fl : Flusher) (ev : flushEvent) : Flusher :=
  {| flushed := flushed fl ++ [ev]; flushMetricFails := flushMetricFails fl |}.

Definition FlushMetric (fl : Flusher) (metricID : Z) : Flusher * option error :=
  (emit fl (EvMetric metricID), flushMetricFails fl metricID).

(** ** Time ranges and the index flushers *)

(** [timeutil.TimeRange] *)
Record TimeRange : Type := mkTimeRange {
  TimeRange_Start : Z;
  TimeRange_End : Z
}.

(** [forwardindex.Flusher], consumed through its interface: the calls
    made on it in order; [FlushMetricID] is the one that can fail. *)
Inductive forwardEvent : Type :=
  | FwdTagValue (tagValue : string) (bitmap : gset Z)
  | FwdTagKey (tagKey : string)
  | FwdVersion (version : Z) (timeRange : TimeRange)
  | FwdMetricID (metricID : Z).

Record ForwardFlusher : Type := mkForwardFlusher {
  forwardFlushed : list forwardEvent;
  flushMetricIDFails : Z → option error
}.

Definition forwardEmit (fl : ForwardFlusher) (ev : forwardEvent) : ForwardFlusher :=
  {| forwardFlushed := forwardFlushed fl ++ [ev];
     flushMetricIDFails := flushMetricIDFails fl |}.

Definition FlushMetricID (fl : ForwardFlusher) (metricID : Z)
  : ForwardFlusher * option error :=
  (forwardEmit fl (FwdMetricID metricID), flushMetricIDFails fl metricID).

(** [invertedindex.Flusher]: the calls made on it in order;
    [FlushTagKeyID] is the one that can fail. *)
Inductive invertedEvent : Type :=
  | InvVersion (version : Z) (timeRange : TimeRange) (bitmap : gset Z)
  | InvTagValue (tagValue : string)
  | InvTagKeyID (tagKeyID : Z).

Record InvertedFlusher : Type := mkInvertedFlusher {
  invertedFlushed : list invertedEvent;
  flushTagKeyIDFails : Z → option error
}.

Definition invertedEmit (fl : InvertedFlusher) (ev : invertedEvent) : InvertedFlusher :=
  {| invertedFlushed := invertedFlushed fl ++ [ev];
     flushTagKeyIDFails := flushTagKeyIDFails fl |}.

Definition FlushTagKeyID (fl : InvertedFlusher) (tagKeyID : Z)
  : InvertedFlusher * option error :=
  (invertedEmit fl (InvTagKeyID tagKeyID), flushTagKeyIDFails fl tagKeyID).

(** ** Segment store *)

(** Modelled from the spec: the segment store ([sStoreINTF], its simple
    implementation) is not among the sources.  It holds the values of one
    field for one family: a slot buffer merged with the segment's
    aggregation function.  Sizes are counted as eight bytes per occupied
    slot over a fixed header. *)
Module SStore.

Record t : Type := mk {
  familyTime : Z;
  agg : aggFunc;
  slots : gmap Z float
}.

Definition emptySimpleFieldStoreSize : Z := 24.

Definition newSimpleFieldStore (familyTime : Z) (f : aggFunc) : t :=
  {| familyTime := familyTime; agg := f; slots := ∅ |}.

Definition GetFamilyTime (s : t) : Z := familyTime s.

Definition MemSize (s : t) : Z :=
  emptySimpleFieldStoreSize + 8 * Z.of_nat (size (slots s)).

Definition aggregate (f : aggFunc) (old new : float) : float :=
  match f with
  | AggSum => PrimFloat.add old new
  | AggMin => if PrimFloat.ltb new old then new else old
  | AggMax => if PrimFloat.ltb old new then new else old
  | AggFirst => old
  | AggLast => new
  end.

(** [WriteFloat(value, writeCtx)]: merge into the slot of the context;
    returns the bytes grown. *)
Definition WriteFloat (s : t) (value : float) (writeCtx : writeContext) : t * Z :=
  let slot := wc_slotIndex writeCtx in
  match slots s !! slot with
  | Some old =>
      ({| familyTime := familyTime s; agg := agg s;
          slots := <[slot := aggregate (agg s) old value]> (slots s) |}, 0)
  | None =>
      ({| familyTime := familyTime s; agg := agg s;
          slots := <[slot := value]> (slots s) |}, 8)
  end.

(** [Bytes(reset)]: the block of the occupied slots; an error when there
    is none.  With [reset] the buffer goes back to the pool. *)
Definition Bytes (s : t) (reset : bool) : t * result (list (Z * float)) :=
  let data := map_to_list (slots s) in
  let s' := if reset
            then {| familyTime := familyTime s; agg := agg s; slots := ∅ |}
            else s in
  match data with
  | [] => (s', Err (ErrOther "no data"))
  | _ => (s', Ok data)
  end.

(** [SlotRange()]: the earliest and the latest occupied slot; an error
    when no slot is occupied. *)
Definition SlotRange (s : t) : result (Z * Z) :=
  match (map_to_list (slots s)).*1 with
  | [] => Err (ErrOther "no data")
  | slot :: rest => Ok (foldr Z.min slot rest, foldr Z.max slot rest)
  end.

End SStore.

(** ** Field store ([tsdb/memdb/field_store.go]) *)

Module FieldStore.

Definition emptyFieldStoreSize : Z := 2 + 24.

(** [sStoreNodes] is the slice of segments, [capacity] its [cap]. *)
Record t : Type := mk {
  fieldID : Z;                      (* uint16 *)
  sStoreNodes : list SStore.t;
  capacity : Z
}.

Definition newFieldStore (fieldID : Z) : t :=
  {| fieldID := fieldID; sStoreNodes := []; capacity := 0 |}.

Definition GetFieldID (fs : t) : Z := fieldID fs.

Definition SegmentsCount (fs : t) : Z := Z.of_nat (length (sStoreNodes fs)).

(** [sort.Search(n, f)]: the loop of the Go library, which halves
    [j - i] each round; [fuel] bounds the rounds. *)
Fixpoint search_loop (fuel : nat) (f : nat → bool) (i j : nat) : nat :=
  match fuel with
  | O => i
  | S fuel' =>
      if (i <? j)%nat then
        let h := ((i + j) / 2)%nat in
        if negb (f h) then search_loop fuel' f (h + 1)%nat j
        else search_loop fuel' f i h
      else i
  end.

Definition Search (n : nat) (f : nat → bool) : nat := search_loop n f 0%nat n.

(** The closure given to [sort.Search]:
    [fs.sStoreNodes[i].GetFamilyTime() >= familyTime]. *)
Definition notBefore (nodes : list SStore.t) (familyTime : Z) (i : nat) : bool :=
  match nodes !! i with
  | Some s => familyTime <=? SStore.GetFamilyTime s
  | None => true
  end.

Definition searchIndex (fs : t) (familyTime : Z) : nat :=
  Search (length (sStoreNodes fs)) (notBefore (sStoreNodes fs) familyTime).

(** [GetSStore]: the segment of a family, found by binary search.  The
    index is returned with it, for the callers that write through the
    pointer. *)
Definition locate (fs : t) (familyTime : Z) : option (nat * SStore.t) :=
  let idx := searchIndex fs familyTime in
  match sStoreNodes fs !! idx with
  | Some s =>
      if bool_decide (SStore.GetFamilyTime s ≠ familyTime) then None
      else Some (idx, s)
  | None => None                      (* idx >= len(fs.sStoreNodes) *)
  end.

Definition GetSStore (fs : t) (familyTime : Z) : option SStore.t :=
  snd <$> locate fs familyTime.

(** [removeSStore]: shift the tail down over the found segment and drop
    the last cell. *)
Definition removeSStore (fs : t) (familyTime : Z) : t :=
  let idx := searchIndex fs familyTime in
  match sStoreNodes fs !! idx with
  | None => fs                        (* familyTime greater than existed *)
  | Some s =>
      if bool_decide (SStore.GetFamilyTime s ≠ familyTime) then fs
      else {| fieldID := fieldID fs;
              sStoreNodes := take idx (sStoreNodes fs) ++ drop (S idx) (sStoreNodes fs);
              capacity := capacity fs |}
  end.

(** [sStoreNodes.Less] *)
Definition Less (a b : SStore.t) : bool :=
  SStore.GetFamilyTime a <? SStore.GetFamilyTime b.

(** [sort.Sort]: the insertion pass Go runs on a short slice.  Each
    element is swapped towards the front while it is [Less] than its
    left neighbour; [sinkInto x pre] does so for [x] over the reversed
    prefix [pre].  (On longer slices the library switches algorithm; the
    result differs at most in the order of equal keys.) *)
Fixpoint sinkInto (x : SStore.t) (pre : list SStore.t) : list SStore.t :=
  match pre with
  | [] => [x]
  | y :: pre' => if Less x y then y :: sinkInto x pre' else x :: pre
  end.

Definition Sort (nodes : list SStore.t) : list SStore.t :=
  rev (fold_left (λ pre x, sinkInto x pre) nodes []).

(** [append] of one element: the capacity doubles when the slice is full. *)
Definition appendCap (cap : Z) (len : nat) : Z :=
  if Z.of_nat len <? cap then cap
  else if cap =? 0 then 1 else 2 * cap.

(** [insertSStore]: append, then sort. *)
Definition insertSStore (fs : t) (sStore : SStore.t) : t :=
  {| fieldID := fieldID fs;
     sStoreNodes := Sort (sStoreNodes fs ++ [sStore]);
     capacity := appendCap (capacity fs) (length (sStoreNodes fs)) |}.

(** [Write]: a sum field is written into the segment of the context's
    family, which is created and inserted first when it is missing; any
    other kind is logged and dropped.  The new segment is written through
    the pointer that was inserted, and the sort looks at the family time
    only: inserting the written segment gives the same slice. *)
Definition Write (fs : t) (f : Field) (writeCtx : writeContext) : t * Z :=
  let found := locate fs (wc_familyTime writeCtx) in
  match Field_Field f with
  | Field_Sum value =>
      match found with
      | None =>
          let oldCap := capacity fs in
          let sStore := SStore.newSimpleFieldStore (wc_familyTime writeCtx) AggSum in
          let '(written, grown) := SStore.WriteFloat sStore value writeCtx in
          let fs' := insertSStore fs written in
          (fs', (capacity fs' - oldCap) * 8 + SStore.MemSize sStore + grown)
      | Some (idx, sStore) =>
          let '(written, grown) := SStore.WriteFloat sStore value writeCtx in
          ({| fieldID := fieldID fs;
              sStoreNodes := <[idx := written]> (sStoreNodes fs);
              capacity := capacity fs |}, grown)
      end
  | Field_Other => (fs, 0)
  end.

(** [FlushFieldTo]: pop the segment of the family and hand its block to
    the flusher; returns the memory reclaimed. *)
Definition FlushFieldTo (fs : t) (tableFlusher : Flusher) (familyTime : Z)
  : t * Flusher * Z :=
  match GetSStore fs familyTime with
  | None => (fs, tableFlusher, 0)
  | Some sStore =>
      let fs' := removeSStore fs familyTime in
      let '(sStore', data) := SStore.Bytes sStore true in
      match data with
      | Err _ => (fs', tableFlusher, 0)
      | Ok block =>
          (fs', emit tableFlusher (EvField (fieldID fs) block), SStore.MemSize sStore')
      end
  end.

Definition MemSize (fs : t) : Z :=
  emptyFieldStoreSize + 8 * capacity fs
  + foldr (λ s acc, SStore.MemSize s + acc) 0 (sStoreNodes fs).

(** One round of the loop of [TimeRange]: a segment without data is
    skipped; the start and the end of the others widen the range, a
    bound that is zero counting as not set. *)
Definition widenTimeRange (interval : Z) (acc : TimeRange * bool) (sStore : SStore.t)
  : TimeRange * bool :=
  match SStore.SlotRange sStore with
  | Err _ => acc
  | Ok (startSlot, endSlot) =>
      let timeRange := fst acc in
      let startTime :=
        Int.int64 (SStore.GetFamilyTime sStore
                   + Int.int64 (Int.int64 startSlot * interval)) in
      let endTime :=
        Int.int64 (SStore.GetFamilyTime sStore
                   + Int.int64 (Int.int64 endSlot * interval)) in
      let timeRange :=
        if (TimeRange_Start timeRange =? 0) || (startTime <? TimeRange_Start timeRange)
        then {| TimeRange_Start := startTime; TimeRange_End := TimeRange_End timeRange |}
        else timeRange in
      let timeRange :=
        if (TimeRange_End timeRange =? 0) || (TimeRange_End timeRange <? endTime)
        then {| TimeRange_Start := TimeRange_Start timeRange; TimeRange_End := endTime |}
        else timeRange in
      (timeRange, true)
  end.

(** [TimeRange(interval)]: the start and end time of the data of the
    field store; [ok] tells whether there is any. *)
Definition TimeRange (fs : t) (interval : Z) : TimeRange * bool :=
  foldl (widenTimeRange interval)
    ({| TimeRange_Start := 0; TimeRange_End := 0 |}, false) (sStoreNodes fs).

End FieldStore.

(** ** Tag index, as the metric store uses it *)

(** One tag key of a tag index with its values; each value carries the
    bitmap of the series that have it. *)
Record tagKVEntrySet : Type := mkEntrySet {
  key : string;
  values : gmap string (gset Z)
}.

(** [tagIndexINTF]: the metric store reaches its tag indexes through this
    interface only; the implementation is in another file.  A time series
    store handed out by the index stays owned by it, so it is named by its
    series id and written through the index ([WriteTStore] is
    [tStore.Write] on the store of that id; it runs the field-id getter of
    the write context on the field-meta list it is given).  [newTagIndex]
    takes the clock reading its version comes from. *)
Class tagIndexINTF (TI : Type) : Type := {
  newTagIndex : Z → TI;
  Version : TI → Z;
  TagsUsed : TI → Z;
  TagsInUse : TI → Z;
  GetTagKVEntrySets : TI → list tagKVEntrySet;
  IndexMemSize : TI → Z;
  GetTStore : TI → gmap string string → option Z;
  GetOrCreateTStore :
    TI → gmap string string → writeContext → TI * result (Z * Z);
  WriteTStore :
    TI → Z → Metric → writeContext → Metas.t → TI * Metas.t * Z * option error;
  UpdateIndexTimeRange : TI → Z → TI;
  FlushVersionDataTo : TI → Flusher → flushContext → TI * Flusher * Z
}.

(** The read side of [tagIndexINTF], used by the index flushes and the
    queries of the metric store: the entry set of one tag key, the time
    range of the index, and the series that carry a tag key ([None] is
    the nil bitmap). *)
Class tagIndexReaderINTF (TI : Type) : Type := {
  GetTagKVEntrySet : TI → string → option tagKVEntrySet;
  IndexTimeRange : TI → TimeRange;
  IndexGetSeriesIDsForTag : TI → string → option (gset Z)
}.

(** The part of [tagIndexINTF] the eviction goes through, with the time
    series stores ([tStoreINTF]) as far as the eviction looks at them:
    the stores of the index with their series ids, the store of one
    series id, the removal of the stores of a list of series ids, which
    returns the stores removed, and of a store whether it has expired,
    whether it has no data, and its size. *)
Class tagIndexEvictINTF (TI : Type) : Type := {
  tStoreINTF : Type;
  AllTStores : TI → list (Z * tStoreINTF);
  GetTStoreBySeriesID : TI → Z → option tStoreINTF;
  RemoveTStores : TI → list Z → TI * list tStoreINTF;
  IsExpired : tStoreINTF → bool;
  IsNoData : tStoreINTF → bool;
  TStoreMemSize : tStoreINTF → Z
}.

(** [series.MultiVerSeriesIDSet], of package [series]: the calls of
    [Add] made on it, in order, each a version with its bitmap. *)
Definition MultiVerSeriesIDSet : Type := list (Z * gset Z).

Definition NewMultiVerSeriesIDSet : MultiVerSeriesIDSet := [].

Definition MultiVerSeriesIDSet_Add (set : MultiVerSeriesIDSet) (version : Z)
    (seriesIDs : gset Z) : MultiVerSeriesIDSet :=
  set ++ [(version, seriesIDs)].

(** ** Metric store ([metric_store.go]) *)

Module MetricStore.

Definition emptyMStoreSize : Z := 8 + 8 + 24 + 8 + 4 + 4 + 4.

(** The [atomic.Value] of the immutable index: never stored to, holding
    the placeholder [staticNopTagIndex] (whose version is zero), or
    holding a tag index. *)
Inductive immutableCell (TI : Type) : Type :=
  | NoValue
  | NopTagIndex
  | Stored (index : TI).
Arguments NoValue {TI}.
Arguments NopTagIndex {TI}.
Arguments Stored {TI} index.

Record t (TI : Type) : Type := mk {
  immutable : immutableCell TI;
  mutable : TI;
  fieldsMetas : Metas.t;
  maxTagsLimit : Z;               (* atomic.Uint32 *)
  metricID : Z;                   (* uint32 *)
  size : Z                        (* atomic.Int32 *)
}.
Arguments mk {TI}.
Arguments immutable {TI}.
Arguments mutable {TI}.
Arguments fieldsMetas {TI}.
Arguments maxTagsLimit {TI}.
Arguments metricID {TI}.
Arguments size {TI}.

(** The part of [GetFieldIDOrGenerate] that works on the field-meta
    list: the list it publishes and its result. *)
Definition getFieldIDOrGenerate (metricID : Z) : mStoreFieldIDGetter :=
  λ fmList fieldName fieldType generator,
    match Metas.GetFromName fmList fieldName with
    | Some fm =>
        (* exist, check fieldType *)
        if bool_decide (Meta_Type fm = fieldType) then (fmList, Ok (Meta_ID fm))
        else (fmList, Err ErrWrongFieldType)
    | None =>
        (* forbid creating new fStore when full *)
        if constants.TStoreMaxFieldsCount <=? Metas.Len fmList
        then (fmList, Err ErrTooManyFields)
        else
          (* not exist, create a new one; under the lock, double check *)
          match Metas.GetFromName fmList fieldName with
          | Some fm => (fmList, Ok (Meta_ID fm))
          | None =>
              match GenFieldID generator metricID fieldName fieldType with
              | Err e => (fmList, Err e)
              | Ok newFieldID =>
                  let x2 := Metas.Clone fmList in
                  let x2 := Metas.Insert x2
                              {| Meta_Name := fieldName;
                                 Meta_ID := newFieldID;
                                 Meta_Type := fieldType |} in
                  (x2, Ok newFieldID)
              end
          end
    end.

Section WithTagIndex.
Context {TI : Type} `{!tagIndexINTF TI}.

Definition newMetricStore (metricID : Z) (now : Z) : t TI :=
  let mutable := newTagIndex now in
  {| immutable := NoValue;
     mutable := mutable;
     fieldsMetas := [];
     maxTagsLimit := Int.uint32 constants.DefaultMStoreMaxTagsCount;
     metricID := metricID;
     size := Int.int32 (IndexMemSize mutable) |}.

Definition GetFieldIDOrGenerate (ms : t TI) (fieldName : string)
    (fieldType : fieldType) (generator : IDGenerator) : t TI * result Z :=
  let '(fmList, r) :=
    getFieldIDOrGenerate (metricID ms) (fieldsMetas ms) fieldName fieldType generator in
  ({| immutable := immutable ms; mutable := mutable ms;
      fieldsMetas := fmList; maxTagsLimit := maxTagsLimit ms;
      metricID := metricID ms; size := size ms |}, r).

Definition GetMetricID (ms : t TI) : Z := metricID ms.

(** [atomicGetImmutable]: version zero is the placeholder. *)
Definition atomicGetImmutable (ms : t TI) : option TI :=
  match immutable ms with
  | Stored index => if bool_decide (Version index ≠ 0) then Some index else None
  | NopTagIndex => None
  | NoValue => None
  end.

Definition SetMaxTagsLimit (ms : t TI) (limit : Z) : t TI :=
  {| immutable := immutable ms; mutable := mutable ms;
     fieldsMetas := fieldsMetas ms; maxTagsLimit := limit;
     metricID := metricID ms; size := size ms |}.

Definition getMaxTagsLimit (ms : t TI) : Z := maxTagsLimit ms.

Definition GetTagsInUse (ms : t TI) : Z := TagsInUse (mutable ms).

Definition GetTagsUsed (ms : t TI) : Z := TagsUsed (mutable ms).

(** [isFull]: [uint32(ms.GetTagsUsed()) >= ms.getMaxTagsLimit()] *)
Definition isFull (ms : t TI) : bool :=
  getMaxTagsLimit ms <=? Int.uint32 (GetTagsUsed ms).

Definition IsEmpty (ms : t TI) : bool :=
  (GetTagsInUse ms =? 0)
  && match atomicGetImmutable ms with None => true | Some _ => false end.

(** [Write]: refused when the store is full; otherwise the series of
    the metric's tags is looked up, created when missing, and written. *)
Definition Write (ms : t TI) (metric : Metric) (writeCtx : writeContext)
  : t TI * Z * option error :=
  if isFull ms then (ms, 0, Some ErrTooManyTags)
  else
    let found := GetTStore (mutable ms) (Metric_Tags metric) in
    let created : t TI * result (Z * Z) :=
      match found with
      | Some tStore => (ms, Ok (tStore, 0))
      | None =>
          let '(mutable', r) :=
            GetOrCreateTStore (mutable ms) (Metric_Tags metric) writeCtx in
          match r with
          | Err e =>
              ({| immutable := immutable ms; mutable := mutable';
                  fieldsMetas := fieldsMetas ms; maxTagsLimit := maxTagsLimit ms;
                  metricID := metricID ms; size := size ms |}, Err e)
          | Ok (tStore, createdSize) =>
              ({| immutable := immutable ms; mutable := mutable';
                  fieldsMetas := fieldsMetas ms; maxTagsLimit := maxTagsLimit ms;
                  metricID := metricID ms;
                  size := Int.add32 (size ms) (Int.int32 createdSize) |},
               Ok (tStore, createdSize))
          end
      end in
    match created with
    | (ms1, Err e) => (ms1, 0, Some e)
    | (ms1, Ok (tStore, createdSize)) =>
        let '(mutable', fmList, writtenSize, err) :=
          WriteTStore (mutable ms1) tStore metric writeCtx (fieldsMetas ms1) in
        let mutable'' :=
          match err with
          | None => UpdateIndexTimeRange mutable' (PointTime writeCtx)
          | Some _ => mutable'
          end in
        ({| immutable := immutable ms1; mutable := mutable'';
            fieldsMetas := fmList; maxTagsLimit := maxTagsLimit ms1;
            metricID := metricID ms1;
            size := Int.add32 (size ms1) (Int.int32 writtenSize) |},
         Int.int64 (writtenSize + createdSize), err)
    end.

(** [ResetVersion]: the mutable index becomes the immutable one and a
    new mutable index is created, unless an immutable index is still
    waiting for its flush. *)
Definition ResetVersion (ms : t TI) (now : Z) : t TI * Z * option error :=
  match atomicGetImmutable ms with
  | Some _ => (ms, 0, Some ErrResetVersionUnavailable)
  | None =>
      (* double check, under the lock *)
      match atomicGetImmutable ms with
      | Some _ => (ms, 0, Some ErrResetVersionUnavailable)
      | None =>
          let fresh := newTagIndex now in
          let createdSize := IndexMemSize fresh in
          ({| immutable := Stored (mutable ms); mutable := fresh;
              fieldsMetas := fieldsMetas ms; maxTagsLimit := maxTagsLimit ms;
              metricID := metricID ms;
              size := Int.int32 createdSize |}, createdSize, None)
      end
  end.

(** [FlushMetricsDataTo]: the mutable index is flushed first, the
    immutable cell is given the placeholder, then the index that was in
    it is flushed. *)
Definition FlushMetricsDataTo (ms : t TI) (flusher : Flusher)
    (flushCtx : flushContext) : t TI * Flusher * Z * option error :=
  let fl1 := emit flusher (EvFieldMetas (fieldsMetas ms)) in
  let '(mutable', fl2, flushedSize) :=
    FlushVersionDataTo (mutable ms) fl1 flushCtx in
  let immutable := atomicGetImmutable ms in
  let '(fl3, flushedSize) :=
    match immutable with
    | Some index =>
        let '(_, fl3, more) := FlushVersionDataTo index fl2 flushCtx in
        (fl3, Int.int64 (flushedSize + more))
    | None => (fl2, flushedSize)
    end in
  let '(fl4, err) := FlushMetric fl3 (fc_metricID flushCtx) in
  ({| immutable := NopTagIndex; mutable := mutable';
      fieldsMetas := fieldsMetas ms; maxTagsLimit := maxTagsLimit ms;
      metricID := metricID ms;
      size := Int.sub32 (size ms) (Int.int32 flushedSize) |},
   fl4, flushedSize, err).

Definition MemSize (ms : t TI) : Z :=
  let size := Int.int64 (emptyMStoreSize + size ms) in
  match atomicGetImmutable ms with
  | Some index => Int.int64 (size + IndexMemSize index)
  | None => size
  end.

(** [strings.HasPrefix(s, prefix)] *)
Definition HasPrefix (s prefix : string) : bool := String.prefix prefix s.

(** The closure [prefixSearchTagKey] of [SuggestTagKeys], run over the
    entry sets of one index; [found] is [tagKeysMap]. *)
Fixpoint prefixSearchTagKey (tagKeyPrefix : string) (limit : Z)
    (entrySets : list tagKVEntrySet) (found : gset string) : gset string :=
  match entrySets with
  | [] => found
  | entrySet :: rest =>
      if limit <=? Z.of_nat (base.size found) then found
      else
        prefixSearchTagKey tagKeyPrefix limit rest
          (if HasPrefix (key entrySet) tagKeyPrefix
           then {[ key entrySet ]} ∪ found else found)
  end.

Definition SuggestTagKeys (ms : t TI) (tagKeyPrefix : string) (limit : Z)
  : list string :=
  if limit <=? 0 then []
  else
    let immutable := atomicGetImmutable ms in
    let found :=
      prefixSearchTagKey tagKeyPrefix limit (GetTagKVEntrySets (mutable ms)) ∅ in
    let found :=
      match immutable with
      | Some index =>
          prefixSearchTagKey tagKeyPrefix limit (GetTagKVEntrySets index) found
      | None => found
      end in
    elements found.

(** The inner loop of [prefixSearchTagValue]: every value of one entry
    set that starts with the prefix is added. *)
Definition collectTagValues (tagValuePrefix : string) (entrySet : tagKVEntrySet)
    (found : gset string) : gset string :=
  foldr (λ (kv : string * gset Z) acc,
           if HasPrefix (fst kv) tagValuePrefix then {[ fst kv ]} ∪ acc else acc)
        found (map_to_list (values entrySet)).

(** The closure [prefixSearchTagValue] of [SuggestTagValues]; the limit
    is looked at between two entry sets. *)
Fixpoint prefixSearchTagValue (tagValuePrefix : string) (limit : Z)
    (entrySets : list tagKVEntrySet) (found : gset string) : gset string :=
  match entrySets with
  | [] => found
  | entrySet :: rest =>
      if limit <=? Z.of_nat (base.size found) then found
      else
        prefixSearchTagValue tagValuePrefix limit rest
          (collectTagValues tagValuePrefix entrySet found)
  end.

Definition SuggestTagValues (ms : t TI) (tagKey tagValuePrefix : string)
    (limit : Z) : list string :=
  if limit <=? 0 then []
  else
    let limit :=
      if constants.MaxSuggestions <? limit then constants.MaxSuggestions
      else limit in
    let immutable := atomicGetImmutable ms in
    let found :=
      prefixSearchTagValue tagValuePrefix limit
        (GetTagKVEntrySets (mutable ms)) ∅ in
    let found :=
      match immutable with
      | Some index =>
          prefixSearchTagValue tagValuePrefix limit (GetTagKVEntrySets index) found
      | None => found
      end in
    elements found.

End WithTagIndex.

Section WithTagIndexReader.
Context {TI : Type} `{!tagIndexINTF TI} `{!tagIndexReaderINTF TI}.

(** The loop over [entrySet.values] in [GetTagValues]: the first value
    whose bitmap contains the series (Go ranges over the map in no fixed
    order; the order of [map_to_list] stands for it). *)
Fixpoint firstValueOf (tagValues : list (string * gset Z)) (seriesID : Z)
  : option string :=
  match tagValues with
  | [] => None
  | (tagValue, bitmap) :: rest =>
      if bool_decide (seriesID ∈ bitmap) then Some tagValue
      else firstValueOf rest seriesID
  end.

(** The tag values of one series for the tag keys, in their order; the
    empty string where there is none. *)
Definition tagValuesOf (found : TI) (tagKeys : list string) (seriesID : Z)
  : list string :=
  foldl (λ tagValues tagKey,
           match GetTagKVEntrySet found tagKey with
           | None => tagValues ++ [""]
           | Some entrySet =>
               match firstValueOf (map_to_list (values entrySet)) seriesID with
               | Some tagValue => tagValues ++ [tagValue]
               | None => tagValues ++ [""]
               end
           end)
        [] tagKeys.

(** The second half of [GetTagValues], once the index of the version is
    found: every tag key must have an entry set in it; then the tag values
    of every series of the bitmap are collected. *)
Definition tagValuesFrom (found : TI) (tagKeys : list string) (seriesID : gset Z)
  : result (gmap Z (list string)) :=
  (* validate tagKeys *)
  match List.find (λ tagKey, match GetTagKVEntrySet found tagKey with
                             | None => true
                             | Some _ => false
                             end) tagKeys with
  | Some tagKey => Err (ErrOther ("tagKey: " +:+ tagKey +:+ " not exist"))
  | None =>
      Ok (foldl (λ (seriesID2TagValues : gmap Z (list string)) seriesID,
                   <[seriesID := tagValuesOf found tagKeys seriesID]>
                     seriesID2TagValues)
            ∅ (elements seriesID))
  end.

(** [GetTagValues]: the index of the version is the immutable one when
    its version matches, then the mutable one when its version matches. *)
Definition GetTagValues (ms : t TI) (tagKeys : list string) (version : Z)
    (seriesID : gset Z) : result (gmap Z (list string)) :=
  let immutable := atomicGetImmutable ms in
  let found :=
    match immutable with
    | Some index => if bool_decide (Version index = version) then Some index else None
    | None => None
    end in
  let found :=
    if bool_decide (Version (mutable ms) = version) then Some (mutable ms) else found in
  match found with
  | None => Err ErrNotFound
  | Some found => tagValuesFrom found tagKeys seriesID
  end.

(** The closure [flushForwardIndex] of [FlushForwardIndexTo]. *)
Definition flushForwardIndex (flusher : ForwardFlusher) (tagIndex : TI)
  : ForwardFlusher :=
  let flusher :=
    foldl (λ flusher entrySet,
             let flusher :=
               foldl (λ flusher (kv : string * gset Z),
                        forwardEmit flusher (FwdTagValue (fst kv) (snd kv)))
                     flusher (map_to_list (values entrySet)) in
             forwardEmit flusher (FwdTagKey (key entrySet)))
          flusher (GetTagKVEntrySets tagIndex) in
  forwardEmit flusher (FwdVersion (Version tagIndex) (IndexTimeRange tagIndex)).

(** [FlushForwardIndexTo]: the mutable index, then the immutable one
    when there is one, then the metric id. *)
Definition FlushForwardIndexTo (ms : t TI) (flusher : ForwardFlusher)
  : ForwardFlusher * option error :=
  let immutable := atomicGetImmutable ms in
  let flusher := flushForwardIndex flusher (mutable ms) in
  let flusher :=
    match immutable with
    | Some index => flushForwardIndex flusher index
    | None => flusher
    end in
  FlushMetricID flusher (metricID ms).

(** The relation [tagKeyValues] of [FlushInvertedIndexTo], tag key to
    tag values: the entry sets of the immutable index are stored first,
    the values of the mutable index join those of their key. *)
Definition tagKeyValuesOf (ms : t TI) : gmap string (gset string) :=
  let tagKeyValues : gmap string (gset string) :=
    match atomicGetImmutable ms with
    | Some immutable =>
        foldl (λ (tagKeyValues : gmap string (gset string)) entrySet,
                 <[key entrySet := dom (values entrySet)]> tagKeyValues)
              ∅ (GetTagKVEntrySets immutable)
    | None => ∅
    end in
  foldl (λ (tagKeyValues : gmap string (gset string)) entrySet,
           let tagValues := default ∅ (tagKeyValues !! key entrySet) in
           <[key entrySet := dom (values entrySet) ∪ tagValues]> tagKeyValues)
        tagKeyValues (GetTagKVEntrySets (mutable ms)).

(** The closure [flushInvertedIndex]. *)
Definition flushInvertedIndex (flusher : InvertedFlusher) (tagIndex : TI)
    (tagKey tagValue : string) : InvertedFlusher :=
  match GetTagKVEntrySet tagIndex tagKey with
  | None => flusher
  | Some entrySet =>
      match values entrySet !! tagValue with
      | Some bitmap =>
          invertedEmit flusher
            (InvVersion (Version tagIndex) (IndexTimeRange tagIndex) bitmap)
      | None => flusher
      end
  end.

(** The flush of the values of one tag key. *)
Definition flushTagValues (ms : t TI) (flusher : InvertedFlusher) (tagKey : string)
    (tagValues : list string) : InvertedFlusher :=
  foldl (λ flusher tagValue,
           let flusher :=
             match atomicGetImmutable ms with
             | Some immutable => flushInvertedIndex flusher immutable tagKey tagValue
             | None => flusher
             end in
           let flusher := flushInvertedIndex flusher (mutable ms) tagKey tagValue in
           invertedEmit flusher (InvTagValue tagValue))
        flusher tagValues.

(** The loop over [tagKeyValues]; the first error of [FlushTagKeyID]
    ends it. *)
Fixpoint flushTagKeys (ms : t TI) (flusher : InvertedFlusher)
    (idGenerator : IDGenerator) (tagKeys : list (string * gset string))
  : InvertedFlusher * option error :=
  match tagKeys with
  | [] => (flusher, None)
  | (tagKey, tagValues) :: rest =>
      let flusher := flushTagValues ms flusher tagKey (elements tagValues) in
      let '(flusher, err) :=
        FlushTagKeyID flusher (GenTagKeyID idGenerator (metricID ms) tagKey) in
      match err with
      | Some e => (flusher, Some e)
      | None => flushTagKeys ms flusher idGenerator rest
      end
  end.

Definition FlushInvertedIndexTo (ms : t TI) (flusher : InvertedFlusher)
    (idGenerator : IDGenerator) : InvertedFlusher * option error :=
  flushTagKeys ms flusher idGenerator (map_to_list (tagKeyValuesOf ms)).

(** [GetSeriesIDsForTag]: the bitmap of the mutable index, then that of
    the immutable one; both are added under [ms.mutable.Version()]. *)
Definition GetSeriesIDsForTag (ms : t TI) (tagKey : string)
  : MultiVerSeriesIDSet * option error :=
  let multiVerSeriesIDSet := NewMultiVerSeriesIDSet in
  let getSeriesIDsForTag (set : MultiVerSeriesIDSet) (tagIdx : TI) :=
    match IndexGetSeriesIDsForTag tagIdx tagKey with
    | Some bitMap => MultiVerSeriesIDSet_Add set (Version (mutable ms)) bitMap
    | None => set
    end in
  let multiVerSeriesIDSet := getSeriesIDsForTag multiVerSeriesIDSet (mutable ms) in
  let immutable := atomicGetImmutable ms in
  let multiVerSeriesIDSet :=
    match immutable with
    | Some index => getSeriesIDsForTag multiVerSeriesIDSet index
    | None => multiVerSeriesIDSet
    end in
  (multiVerSeriesIDSet, None).

End WithTagIndexReader.

Section WithTagIndexEvictor.
Context {TI : Type} `{!tagIndexINTF TI} `{!tagIndexEvictINTF TI}.

(** [Evict]: the series whose store has expired and has no data are
    listed, checked again, and removed from the mutable index; the sizes
    of the removed stores leave the size of the metric store. *)
Definition Evict (ms : t TI) : t TI * Z :=
  (* first check *)
  let evictList :=
    fst <$> List.filter (λ kv : Z * tStoreINTF,
                           IsExpired (snd kv) && IsNoData (snd kv))
                        (AllTStores (mutable ms)) in
  (* double check *)
  let doubleCheckEvictList :=
    List.filter (λ seriesID,
                   match GetTStoreBySeriesID (mutable ms) seriesID with
                   | None => false
                   | Some tStore => IsExpired tStore && IsNoData tStore
                   end)
                evictList in
  let '(mutable', removedTStores) :=
    RemoveTStores (mutable ms) doubleCheckEvictList in
  let evictedSize :=
    foldl (λ evictedSize tStore, Int.int64 (evictedSize + TStoreMemSize tStore))
          0 removedTStores in
  ({| immutable := immutable ms; mutable := mutable';
      fieldsMetas := fieldsMetas ms; maxTagsLimit := maxTagsLimit ms;
      metricID := metricID ms;
      size := Int.sub32 (size ms) (Int.int32 evictedSize) |}, evictedSize).

End WithTagIndexEvictor.

End MetricStore.

(** ** Memory database ([database.go]) *)

(** [timeutil.Interval] with its calculator, an external package: the
    interval in milliseconds and the four calculations [Write] asks for. *)
Record Interval : Type := mkInterval {
  Interval_Int64 : Z;
  CalcSegmentTime : Z → Z;
  CalcFamily : Z → Z → Z;
  CalcFamilyStartTime : Z → Z → Z;
  CalcSlot : Z → Z → Z → Z
}.

(** What the package takes from outside this file: the 64-bit hash
    [xxhash.Sum64String] and the number of buckets
    [shardingCountOfMStores], a power of two. *)
Class Platform : Type := {
  Sum64String : string → Z;
  shardingCountOfMStores : Z
}.

Module MemoryDatabase.

Record MemoryDatabaseCfg : Type := mkCfg {
  cfg_TimeWindow : Z;
  cfg_Interval : Interval;
  cfg_Generator : IDGenerator
}.

(** [mStoresList] is the array of buckets, each the map [hash2MStore] of
    its metric stores; [familyTimes] is the [sync.Map] used as a set.
    The block pool, the context and the notifier channel of the evictor
    carry no data of their own. *)
Record t (TI : Type) : Type := mk {
  timeWindow : Z;
  interval : Interval;
  generator : IDGenerator;
  mStoresList : list (gmap Z (MetricStore.t TI));
  metricID2Hash : gmap Z Z;
  size : Z;                         (* atomic.Int32 *)
  lastWroteFamilyTime : Z;          (* atomic.Int64 *)
  familyTimes : gset Z
}.
Arguments mk {TI}.
Arguments timeWindow {TI}.
Arguments interval {TI}.
Arguments generator {TI}.
Arguments mStoresList {TI}.
Arguments metricID2Hash {TI}.
Arguments size {TI}.
Arguments lastWroteFamilyTime {TI}.
Arguments familyTimes {TI}.

Section WithTagIndex.
Context {TI : Type} `{!tagIndexINTF TI} `{!Platform}.

Definition shardingCountMask : Z := shardingCountOfMStores - 1.

Definition set_stores (md : t TI) (l : list (gmap Z (MetricStore.t TI)))
    (ids : gmap Z Z) : t TI :=
  {| timeWindow := timeWindow md; interval := interval md;
     generator := generator md; mStoresList := l; metricID2Hash := ids;
     size := size md; lastWroteFamilyTime := lastWroteFamilyTime md;
     familyTimes := familyTimes md |}.

Definition set_size (md : t TI) (n : Z) : t TI :=
  {| timeWindow := timeWindow md; interval := interval md;
     generator := generator md; mStoresList := mStoresList md;
     metricID2Hash := metricID2Hash md;
     size := n; lastWroteFamilyTime := lastWroteFamilyTime md;
     familyTimes := familyTimes md |}.

Definition set_families (md : t TI) (last : Z) (fams : gset Z) : t TI :=
  {| timeWindow := timeWindow md; interval := interval md;
     generator := generator md; mStoresList := mStoresList md;
     metricID2Hash := metricID2Hash md;
     size := size md; lastWroteFamilyTime := last;
     familyTimes := fams |}.

Definition NewMemoryDatabase (cfg : MemoryDatabaseCfg) : t TI :=
  {| timeWindow := cfg_TimeWindow cfg;
     interval := cfg_Interval cfg;
     generator := cfg_Generator cfg;
     mStoresList := replicate (Z.to_nat shardingCountOfMStores) ∅;
     metricID2Hash := ∅;
     size := 0;
     lastWroteFamilyTime := 0;
     familyTimes := ∅ |}.

(** The index [shardingCountMask & metricHash] of the bucket of a hash. *)
Definition bucketIndex (metricHash : Z) : nat :=
  Z.to_nat (Z.land shardingCountMask metricHash).

Definition getBucket (md : t TI) (metricHash : Z) : gmap Z (MetricStore.t TI) :=
  default ∅ (mStoresList md !! bucketIndex metricHash).

Definition getMStoreByMetricHash (md : t TI) (hash : Z)
  : option (MetricStore.t TI) :=
  getBucket md hash !! hash.

Definition getMStore (md : t TI) (metricName : string)
  : option (MetricStore.t TI) :=
  getMStoreByMetricHash md (Sum64String metricName).

Definition getMStoreByMetricID (md : t TI) (metricID : Z)
  : option (MetricStore.t TI) :=
  match metricID2Hash md !! metricID with
  | None => None
  | Some hash => getMStoreByMetricHash md hash
  end.

(** A metric store is reached through a pointer kept in its bucket:
    what a method did to it is stored back under its hash. *)
Definition putMStore (md : t TI) (hash : Z) (mStore : MetricStore.t TI) : t TI :=
  set_stores md
    (<[bucketIndex hash := <[hash := mStore]> (getBucket md hash)]> (mStoresList md))
    (metricID2Hash md).

Definition getOrCreateMStore (md : t TI) (metricName : string) (hash : Z)
    (now : Z) : t TI * MetricStore.t TI :=
  match getMStoreByMetricHash md hash with
  | Some mStore => (md, mStore)
  | None =>
      let metricID := GenMetricID (generator md) metricName in
      let bucket := getBucket md hash in
      match bucket !! hash with
      | Some mStore => (md, mStore)
      | None =>
          let mStore := MetricStore.newMetricStore metricID now in
          let md := set_size md
                      (Int.add32 (size md) (Int.int32 (MetricStore.MemSize mStore))) in
          (set_stores md
             (<[bucketIndex hash := <[hash := mStore]> bucket]> (mStoresList md))
             (<[metricID := hash]> (metricID2Hash md)),
           mStore)
      end
  end.

Definition setLimitation (md : t TI) (metricName : string) (limit : Z) : t TI :=
  match getMStore md metricName with
  | None => md
  | Some mStore =>
      putMStore md (Sum64String metricName) (MetricStore.SetMaxTagsLimit mStore limit)
  end.

Definition addFamilyTime (md : t TI) (familyTime : Z) : t TI :=
  (* lastWroteFamilyTime.Swap(familyTime) == familyTime *)
  if bool_decide (lastWroteFamilyTime md = familyTime)
  then set_families md familyTime (familyTimes md)
  else set_families md familyTime ({[ familyTime ]} ∪ familyTimes md).

(** The family start time [Write] computes for a timestamp. *)
Definition familyTimeOf (md : t TI) (timestamp : Z) : Z :=
  let segmentTime := CalcSegmentTime (interval md) timestamp in
  let family := CalcFamily (interval md) timestamp segmentTime in
  CalcFamilyStartTime (interval md) segmentTime family.

Definition Write (md : t TI) (metric : Metric) (now : Z) : t TI * option error :=
  let timestamp := Metric_Timestamp metric in
  let segmentTime := CalcSegmentTime (interval md) timestamp in
  let family := CalcFamily (interval md) timestamp segmentTime in
  let familyTime := CalcFamilyStartTime (interval md) segmentTime family in
  let slotIndex :=
    CalcSlot (interval md) timestamp familyTime (Interval_Int64 (interval md)) in
  let hash := Sum64String (Metric_Name metric) in
  let '(md, mStore) := getOrCreateMStore md (Metric_Name metric) hash now in
  let '(mStore, writtenSize, err) :=
    MetricStore.Write mStore metric
      {| wc_metricID := MetricStore.GetMetricID mStore;
         wc_generator := generator md;
         wc_familyTime := familyTime;
         wc_slotIndex := slotIndex;
         wc_timeInterval := Interval_Int64 (interval md);
         wc_getter := MetricStore.getFieldIDOrGenerate (MetricStore.metricID mStore) |} in
  let md := putMStore md hash mStore in
  let md :=
    match err with
    | None => addFamilyTime md familyTime
    | Some _ => md
    end in
  (set_size md (Int.add32 (size md) (Int.int32 writtenSize)), err).

Definition ResetMetricStore (md : t TI) (metricName : string) (now : Z)
  : t TI * option error :=
  match getMStore md metricName with
  | None => (md, Some (ErrOther ("metric: " +:+ metricName +:+ " doesn't exist")))
  | Some mStore =>
      let '(mStore, createdSize, err) := MetricStore.ResetVersion mStore now in
      let md := putMStore md (Sum64String metricName) mStore in
      (set_size md (Int.add32 (size md) (Int.int32 createdSize)), err)
  end.

Definition CountMetrics (md : t TI) : Z :=
  foldr (λ bkt counter, Z.of_nat (base.size bkt) + counter) 0 (mStoresList md).

Definition CountTags (md : t TI) (metricName : string) : Z :=
  match getMStore md metricName with
  | None => -1
  | Some mStore => MetricStore.GetTagsUsed mStore
  end.

(** [Families]: the families written since their last flush, ascending. *)
Definition Families (md : t TI) : list Z :=
  merge_sort Z.le (elements (familyTimes md)).

(** [allMetricStores]: the hashes and stores of a bucket (Go ranges over
    the map in no fixed order; the order of [map_to_list] stands for it). *)
Definition allMetricStores (bkt : gmap Z (MetricStore.t TI))
  : list (Z * MetricStore.t TI) :=
  map_to_list bkt.

(** The inner loop of [FlushFamilyTo] over the stores of one bucket:
    each store is flushed and the flushed bytes leave the size; the
    first error ends the flush. *)
Fixpoint flushStores (stores : list (Z * MetricStore.t TI))
    (bkt : gmap Z (MetricStore.t TI)) (flusher : Flusher) (size : Z)
    (familyTime timeInterval : Z)
  : gmap Z (MetricStore.t TI) * Flusher * Z * option error :=
  match stores with
  | [] => (bkt, flusher, size, None)
  | (hash, mStore) :: rest =>
      let '(mStore', flusher, flushedSize, err) :=
        MetricStore.FlushMetricsDataTo mStore flusher
          {| fc_metricID := MetricStore.GetMetricID mStore;
             fc_familyTime := familyTime;
             fc_timeInterval := timeInterval |} in
      let bkt := <[hash := mStore']> bkt in
      let size := Int.sub32 size (Int.int32 flushedSize) in
      match err with
      | Some e => (bkt, flusher, size, Some e)
      | None => flushStores rest bkt flusher size familyTime timeInterval
      end
  end.

(** The outer loop over the bucket indexes. *)
Fixpoint flushBuckets (indexes : list nat)
    (buckets : list (gmap Z (MetricStore.t TI))) (flusher : Flusher) (size : Z)
    (familyTime timeInterval : Z)
  : list (gmap Z (MetricStore.t TI)) * Flusher * Z * option error :=
  match indexes with
  | [] => (buckets, flusher, size, None)
  | bucketIndex :: rest =>
      let bkt := default ∅ (buckets !! bucketIndex) in
      let '(bkt', flusher, size, err) :=
        flushStores (allMetricStores bkt) bkt flusher size familyTime timeInterval in
      let buckets := <[bucketIndex := bkt']> buckets in
      match err with
      | Some e => (buckets, flusher, size, Some e)
      | None => flushBuckets rest buckets flusher size familyTime timeInterval
      end
  end.

(** [FlushFamilyTo].  The deferred notification of the evictor is a
    non-blocking send to another goroutine and changes nothing here. *)
Definition FlushFamilyTo (md : t TI) (flusher : Flusher) (familyTime : Z)
  : t TI * Flusher * option error :=
  let md := set_families md 0 (familyTimes md ∖ {[ familyTime ]}) in
  let '(buckets, flusher, size, err) :=
    flushBuckets (seq 0 (Z.to_nat shardingCountOfMStores)) (mStoresList md)
      flusher (size md) familyTime (Interval_Int64 (interval md)) in
  (set_size (set_stores md buckets (metricID2Hash md)) size, flusher, err).

(** [SuggestMetrics] returns nil: the index database has the names. *)
Definition SuggestMetrics (md : t TI) (prefix : string) (limit : Z) : list string :=
  [].

Definition SuggestTagKeys (md : t TI) (metricName tagKeyPrefix : string)
    (limit : Z) : list string :=
  match getMStore md metricName with
  | None => []
  | Some mStore => MetricStore.SuggestTagKeys mStore tagKeyPrefix limit
  end.

Definition SuggestTagValues (md : t TI) (metricName tagKey tagValuePrefix : string)
    (limit : Z) : list string :=
  match getMStore md metricName with
  | None => []
  | Some mStore => MetricStore.SuggestTagValues mStore tagKey tagValuePrefix limit
  end.

Definition MemSize (md : t TI) : Z := Int.int64 (size md).

(** The metric stores the database holds, bucket by bucket. *)
Definition allStores (md : t TI) : list (MetricStore.t TI) :=
  mjoin ((λ bkt, snd <$> map_to_list bkt) <$> mStoresList md).

(** The sum of the [MemSize] of every metric store. *)
Definition storesMemSize (md : t TI) : Z :=
  foldr (λ mStore acc, MetricStore.MemSize mStore + acc) 0 (allStores md).

(** [setLimitations]: the limit of every metric of the map that has a
    metric store is set; the others are skipped. *)
Definition setLimitations (md : t TI) (limitations : gmap string Z) : t TI :=
  foldl (λ md (kv : string * Z), setLimitation md (fst kv) (snd kv))
        md (map_to_list limitations).

(** The metric stores in the order the flushes of the indexes visit
    them: bucket by bucket, each bucket through [allMetricStores]. *)
Definition storesInFlushOrder (md : t TI) : list (MetricStore.t TI) :=
  mjoin ((λ bucketIndex,
            snd <$> allMetricStores (default ∅ (mStoresList md !! bucketIndex)))
           <$> seq 0 (Z.to_nat shardingCountOfMStores)).

End WithTagIndex.

Section WithTagIndexReader.
Context {TI : Type} `{!tagIndexINTF TI} `{!tagIndexReaderINTF TI} `{!Platform}.

(** The loops of [FlushForwardIndexTo] and [FlushInvertedIndexTo] over
    the metric stores; the first error ends the flush. *)
Fixpoint flushForwardStores (stores : list (MetricStore.t TI))
    (flusher : ForwardFlusher) : ForwardFlusher * option error :=
  match stores with
  | [] => (flusher, None)
  | mStore :: rest =>
      let '(flusher, err) := MetricStore.FlushForwardIndexTo mStore flusher in
      match err with
      | Some e => (flusher, Some e)
      | None => flushForwardStores rest flusher
      end
  end.

Definition FlushForwardIndexTo (md : t TI) (flusher : ForwardFlusher)
  : ForwardFlusher * option error :=
  flushForwardStores (storesInFlushOrder md) flusher.

Fixpoint flushInvertedStores (stores : list (MetricStore.t TI))
    (flusher : InvertedFlusher) (idGenerator : IDGenerator)
  : InvertedFlusher * option error :=
  match stores with
  | [] => (flusher, None)
  | mStore :: rest =>
      let '(flusher, err) :=
        MetricStore.FlushInvertedIndexTo mStore flusher idGenerator in
      match err with
      | Some e => (flusher, Some e)
      | None => flushInvertedStores rest flusher idGenerator
      end
  end.

Definition FlushInvertedIndexTo (md : t TI) (flusher : InvertedFlusher)
  : InvertedFlusher * option error :=
  flushInvertedStores (storesInFlushOrder md) flusher (generator md).

(** [GetSeriesIDsForTag] and [GetTagValues]: the metric store is looked
    up by metric id; the time range is not looked at. *)
Definition GetSeriesIDsForTag (md : t TI) (metricID : Z) (tagKey : string)
    (timeRange : TimeRange) : result MultiVerSeriesIDSet :=
  match getMStoreByMetricID md metricID with
  | None => Err ErrNotFound
  | Some mStore =>
      match MetricStore.GetSeriesIDsForTag mStore tagKey with
      | (set, None) => Ok set
      | (_, Some e) => Err e
      end
  end.

Definition GetTagValues (md : t TI) (metricID : Z) (tagKeys : list string)
    (version : Z) (seriesIDs : gset Z) : result (gmap Z (list string)) :=
  match getMStoreByMetricID md metricID with
  | None => Err ErrNotFound
  | Some mStore => MetricStore.GetTagValues mStore tagKeys version seriesIDs
  end.

End WithTagIndexReader.

Section WithTagIndexEvictor.
Context {TI : Type} `{!tagIndexINTF TI} `{!tagIndexEvictINTF TI} `{!Platform}.

(** One round of the loop of [evict] over the stores of the bucket at
    [bucketIndex]: the store is evicted in place, the evicted bytes
    leave the size; a store that is empty now is deleted from the bucket
    with its metric id, and its size leaves the size too. *)
Definition evictStore (bucketIndex : nat) (md : t TI)
    (entry : Z * MetricStore.t TI) : t TI :=
  let metricHash := fst entry in
  let '(mStore, evictedSize) := MetricStore.Evict (snd entry) in
  let bucket := <[metricHash := mStore]> (default ∅ (mStoresList md !! bucketIndex)) in
  let size := Int.sub32 (size md) (Int.int32 evictedSize) in
  if MetricStore.IsEmpty mStore then
    (* under the lock of the bucket, the same check again *)
    let '(bucket, ids) :=
      if MetricStore.IsEmpty mStore
      then (delete metricHash bucket,
            delete (MetricStore.GetMetricID mStore) (metricID2Hash md))
      else (bucket, metricID2Hash md) in
    set_size (set_stores md (<[bucketIndex := bucket]> (mStoresList md)) ids)
      (Int.sub32 size (Int.int32 (MetricStore.MemSize mStore)))
  else
    set_size (set_stores md (<[bucketIndex := bucket]> (mStoresList md))
                (metricID2Hash md))
      size.

(** [evict] of the bucket at [bucketIndex]. *)
Definition evict (md : t TI) (bucketIndex : nat) : t TI :=
  foldl (evictStore bucketIndex) md
    (allMetricStores (default ∅ (mStoresList md !! bucketIndex))).

(** What the evictor does on one notification: every bucket is evicted,
    [md.mStoresList[i&shardingCountMask]] for [i] up to the number of
    buckets. *)
Definition evictAll (md : t TI) : t TI :=
  foldl (λ md (i : nat), evict md (Z.to_nat (Z.land (Z.of_nat i) shardingCountMask)))
    md (seq 0 (Z.to_nat shardingCountOfMStores)).

End WithTagIndexEvictor.

End MemoryDatabase.

(** ** Time series store and tag index *)

(** Modelled from the spec: the time series store ([tStoreINTF]) is not
    among the sources.  It holds the field stores of one series, sorted by
    field id; [Write] goes over the fields of the metric, resolves the
    field id through the getter of the write context and hands the field to
    its field store; an error of the getter ends the write and is
    returned. *)
Module TimeSeriesStore.

Record t : Type := mk { fStoreNodes : list FieldStore.t }.

Definition emptyTimeSeriesStoreSize : Z := 24 + 4.

Definition newTimeSeriesStore : t := {| fStoreNodes := [] |}.

Definition GetFStore (ts : t) (fieldID : Z) : option FieldStore.t :=
  List.find (λ fs, FieldStore.fieldID fs =? fieldID) (fStoreNodes ts).

(** Store a field store at the place of its field id: over the node of
    that id when there is one, else inserted in order. *)
Fixpoint putFStore (nodes : list FieldStore.t) (fs : FieldStore.t)
  : list FieldStore.t :=
  match nodes with
  | [] => [fs]
  | n :: rest =>
      if FieldStore.fieldID fs <? FieldStore.fieldID n then fs :: nodes
      else if FieldStore.fieldID fs =? FieldStore.fieldID n then fs :: rest
      else n :: putFStore rest fs
  end.

Definition getFieldType (f : Field) : fieldType :=
  match Field_Field f with
  | Field_Sum _ => SumField
  | Field_Other => UnknownField
  end.

Fixpoint writeFields (fields : list Field) (nodes : list FieldStore.t)
    (fmList : Metas.t) (writtenSize : Z) (writeCtx : writeContext)
  : list FieldStore.t * Metas.t * Z * option error :=
  match fields with
  | [] => (nodes, fmList, writtenSize, None)
  | f :: rest =>
      match getFieldType f with
      | UnknownField => writeFields rest nodes fmList writtenSize writeCtx
      | fieldType =>
          let '(fmList, r) :=
            wc_getter writeCtx fmList (Field_Name f) fieldType (wc_generator writeCtx) in
          match r with
          | Err e => (nodes, fmList, writtenSize, Some e)
          | Ok fieldID =>
              let '(fStore, created) :=
                match List.find (λ fs, FieldStore.fieldID fs =? fieldID) nodes with
                | Some fStore => (fStore, 0)
                | None =>
                    let fStore := FieldStore.newFieldStore fieldID in
                    (fStore, FieldStore.MemSize fStore)
                end in
              let '(fStore, written) := FieldStore.Write fStore f writeCtx in
              writeFields rest (putFStore nodes fStore) fmList
                (writtenSize + created + written) writeCtx
          end
      end
  end.

Definition Write (ts : t) (metric : Metric) (writeCtx : writeContext)
    (fmList : Metas.t) : t * Metas.t * Z * option error :=
  let '(nodes, fmList, writtenSize, err) :=
    writeFields (Metric_Fields metric) (fStoreNodes ts) fmList 0 writeCtx in
  ({| fStoreNodes := nodes |}, fmList, writtenSize, err).

Fixpoint flushFields (nodes : list FieldStore.t) (flusher : Flusher)
    (familyTime : Z) : list FieldStore.t * Flusher * Z :=
  match nodes with
  | [] => ([], flusher, 0)
  | fStore :: rest =>
      let '(fStore, flusher, flushedSize) :=
        FieldStore.FlushFieldTo fStore flusher familyTime in
      let '(rest, flusher, more) := flushFields rest flusher familyTime in
      (fStore :: rest, flusher, flushedSize + more)
  end.

(** Flush every field store of the series for the family, then name the
    series to the flusher. *)
Definition FlushSeriesTo (ts : t) (flusher : Flusher) (flushCtx : flushContext)
    (seriesID : Z) : t * Flusher * Z :=
  let '(nodes, flusher, flushedSize) :=
    flushFields (fStoreNodes ts) flusher (fc_familyTime flushCtx) in
  ({| fStoreNodes := nodes |}, emit flusher (EvSeries seriesID), flushedSize).

Definition MemSize (ts : t) : Z :=
  emptyTimeSeriesStoreSize
  + foldr (λ fs acc, FieldStore.MemSize fs + acc) 0 (fStoreNodes ts).

End TimeSeriesStore.

(** Modelled from the spec: the tag index ([tagIndex], behind
    [tagIndexINTF]) is not among the sources.  It has a version, the entry
    sets of its tag keys in insertion order, the map from series id to time
    series store, a series id counter that grows with every new tag
    combination, and the earliest and latest time deltas to its version. *)
Module TagIndex.

Record t : Type := mk {
  version : Z;
  idCounter : Z;                               (* uint32 *)
  hash2SeriesID : gmap (gmap string string) Z;
  tagKVEntrySets : list tagKVEntrySet;
  seriesID2TStore : gmap Z TimeSeriesStore.t;
  earliestTimeDelta : Z;
  latestTimeDelta : Z
}.

Definition emptyTagIndexSize : Z := 8 + 8 + 24 + 4 + 8 + 4 + 4.

Definition newTagIndex (now : Z) : t :=
  {| version := now; idCounter := 0; hash2SeriesID := ∅;
     tagKVEntrySets := []; seriesID2TStore := ∅;
     earliestTimeDelta := 0; latestTimeDelta := 0 |}.

Definition Version (index : t) : Z := version index.
Definition TagsUsed (index : t) : Z := idCounter index.
Definition TagsInUse (index : t) : Z := Z.of_nat (size (seriesID2TStore index)).
Definition GetTagKVEntrySets (index : t) : list tagKVEntrySet := tagKVEntrySets index.

Definition MemSize (index : t) : Z :=
  emptyTagIndexSize
  + foldr (λ (kv : Z * TimeSeriesStore.t) acc, TimeSeriesStore.MemSize (snd kv) + acc)
      0 (map_to_list (seriesID2TStore index)).

Definition GetTStore (index : t) (tags : gmap string string) : option Z :=
  match hash2SeriesID index !! tags with
  | Some seriesID =>
      match seriesID2TStore index !! seriesID with
      | Some _ => Some seriesID
      | None => None
      end
  | None => None
  end.

(** Add a series to the bitmap of one tag pair: in the entry set of the
    key when it exists, else in a new entry set at the end. *)
Fixpoint insertTag (sets : list tagKVEntrySet) (k v : string) (seriesID : Z)
  : list tagKVEntrySet :=
  match sets with
  | [] => [ {| key := k; values := {[ v := {[ seriesID ]} ]} |} ]
  | e :: rest =>
      if bool_decide (key e = k)
      then {| key := k;
              values := <[v := {[ seriesID ]} ∪ default ∅ (values e !! v)]> (values e) |}
           :: rest
      else e :: insertTag rest k v seriesID
  end.

Definition GetOrCreateTStore (index : t) (tags : gmap string string)
    (writeCtx : writeContext) : t * result (Z * Z) :=
  match GetTStore index tags with
  | Some seriesID => (index, Ok (seriesID, 0))
  | None =>
      let seriesID := Int.uint32 (idCounter index + 1) in
      let tStore := TimeSeriesStore.newTimeSeriesStore in
      ({| version := version index;
          idCounter := seriesID;
          hash2SeriesID := <[tags := seriesID]> (hash2SeriesID index);
          tagKVEntrySets :=
            foldl (λ sets (kv : string * string), insertTag sets (fst kv) (snd kv) seriesID)
              (tagKVEntrySets index) (map_to_list tags);
          seriesID2TStore := <[seriesID := tStore]> (seriesID2TStore index);
          earliestTimeDelta := earliestTimeDelta index;
          latestTimeDelta := latestTimeDelta index |},
       Ok (seriesID, TimeSeriesStore.MemSize tStore))
  end.

Definition set_stores (index : t) (stores : gmap Z TimeSeriesStore.t) : t :=
  {| version := version index; idCounter := idCounter index;
     hash2SeriesID := hash2SeriesID index;
     tagKVEntrySets := tagKVEntrySets index;
     seriesID2TStore := stores;
     earliestTimeDelta := earliestTimeDelta index;
     latestTimeDelta := latestTimeDelta index |}.

(** [tStore.Write] on the store of a series of this index. *)
Definition WriteTStore (index : t) (seriesID : Z) (metric : Metric)
    (writeCtx : writeContext) (fmList : Metas.t)
  : t * Metas.t * Z * option error :=
  match seriesID2TStore index !! seriesID with
  | None => (index, fmList, 0, None)
  | Some tStore =>
      let '(tStore, fmList, writtenSize, err) :=
        TimeSeriesStore.Write tStore metric writeCtx fmList in
      (set_stores index (<[seriesID := tStore]> (seriesID2TStore index)),
       fmList, writtenSize, err)
  end.

(** Widen the time range of the index to include the point time. *)
Definition UpdateIndexTimeRange (index : t) (pointTime : Z) : t :=
  let delta := Int.int32 (pointTime - version index) in
  {| version := version index; idCounter := idCounter index;
     hash2SeriesID := hash2SeriesID index;
     tagKVEntrySets := tagKVEntrySets index;
     seriesID2TStore := seriesID2TStore index;
     earliestTimeDelta := Z.min (earliestTimeDelta index) delta;
     latestTimeDelta := Z.max (latestTimeDelta index) delta |}.

Fixpoint flushSeries (series : list (Z * TimeSeriesStore.t))
    (stores : gmap Z TimeSeriesStore.t) (flusher : Flusher)
    (flushCtx : flushContext) : gmap Z TimeSeriesStore.t * Flusher * Z :=
  match series with
  | [] => (stores, flusher, 0)
  | (seriesID, tStore) :: rest =>
      let '(tStore, flusher, flushedSize) :=
        TimeSeriesStore.FlushSeriesTo tStore flusher flushCtx seriesID in
      let '(stores, flusher, more) :=
        flushSeries rest (<[seriesID := tStore]> stores) flusher flushCtx in
      (stores, flusher, flushedSize + more)
  end.

(** Flush the data of the family out of every series of this version. *)
Definition FlushVersionDataTo (index : t) (flusher : Flusher)
    (flushCtx : flushContext) : t * Flusher * Z :=
  let '(stores, flusher, flushedSize) :=
    flushSeries (map_to_list (seriesID2TStore index)) (seriesID2TStore index)
      flusher flushCtx in
  (set_stores index stores, flusher, flushedSize).

End TagIndex.

#[global] Instance tagIndex_INTF : tagIndexINTF TagIndex.t := {|
  newTagIndex := TagIndex.newTagIndex;
  Version := TagIndex.Version;
  TagsUsed := TagIndex.TagsUsed;
  TagsInUse := TagIndex.TagsInUse;
  GetTagKVEntrySets := TagIndex.GetTagKVEntrySets;
  IndexMemSize := TagIndex.MemSize;
  GetTStore := TagIndex.GetTStore;
  GetOrCreateTStore := TagIndex.GetOrCreateTStore;
  WriteTStore := TagIndex.WriteTStore;
  UpdateIndexTimeRange := TagIndex.UpdateIndexTimeRange;
  FlushVersionDataTo := TagIndex.FlushVersionDataTo
|}.

(** Modelled from the spec: the read side of the tag index.  The entry
    set of a key is the one of that key in the list; the time range runs
    from the earliest to the latest time delta, taken from the version;
    the series of a tag key are those of all its values. *)
#[global] Instance tagIndex_ReaderINTF : tagIndexReaderINTF TagIndex.t := {|
  GetTagKVEntrySet := λ index tagKey,
    List.find (λ entrySet, bool_decide (key entrySet = tagKey))
      (TagIndex.tagKVEntrySets index);
  IndexTimeRange := λ index,
    {| TimeRange_Start := TagIndex.version index + TagIndex.earliestTimeDelta index;
       TimeRange_End := TagIndex.version index + TagIndex.latestTimeDelta index |};
  IndexGetSeriesIDsForTag := λ index tagKey,
    match List.find (λ entrySet, bool_decide (key entrySet = tagKey))
            (TagIndex.tagKVEntrySets index) with
    | Some entrySet => Some (⋃ (snd <$> map_to_list (values entrySet)))
    | None => None
    end
|}.

(** ** Channel manager *)

(** Modelled from the spec: the channel manager of the replication package
    is not among the sources (its test is).  [CreateChannel(database,
    numShards, shard)] validates [0 <= shard < numShards]; [numShards] must
    match any prior call for the same database, otherwise
    [ErrShardConfigConflict]; a channel that exists is returned again.  In
    the scenario of the specification a shard out of range is answered
    with [ErrShardConfigConflict] too.  A channel instance is told from
    every other by the order of its creation. *)
Module ChannelManager.

Record Channel : Type := mkChannel {
  ch_database : string;
  ch_shardID : Z;                   (* int32 *)
  ch_instance : nat
}.

Record t : Type := mk {
  databaseShardsMap : gmap string Z;
  channelMap : gmap (string * Z) Channel;
  created : nat
}.

Definition NewChannelManager : t :=
  {| databaseShardsMap := ∅; channelMap := ∅; created := 0 |}.

Definition getOrCreateChannel (cm : t) (database : string)
    (numOfShard shardID : Z) : t * result Channel :=
  match channelMap cm !! (database, shardID) with
  | Some ch =>
      ({| databaseShardsMap := <[database := numOfShard]> (databaseShardsMap cm);
          channelMap := channelMap cm;
          created := created cm |}, Ok ch)
  | None =>
      let ch := {| ch_database := database; ch_shardID := shardID;
                   ch_instance := created cm |} in
      ({| databaseShardsMap := <[database := numOfShard]> (databaseShardsMap cm);
          channelMap := <[(database, shardID) := ch]> (channelMap cm);
          created := S (created cm) |}, Ok ch)
  end.

Definition CreateChannel (cm : t) (database : string) (numOfShard shardID : Z)
  : t * result Channel :=
  if (shardID <? 0) || (numOfShard <=? shardID)
  then (cm, Err ErrShardConfigConflict)
  else
    match databaseShardsMap cm !! database with
    | Some n =>
        if bool_decide (n = numOfShard)
        then getOrCreateChannel cm database numOfShard shardID
        else (cm, Err ErrShardConfigConflict)
    | None => getOrCreateChannel cm database numOfShard shardID
    end.

(** A call of [CreateChannel], and the manager after a list of calls. *)
Record call : Type := mkCall {
  call_database : string;
  call_numOfShard : Z;
  call_shardID : Z
}.

Definition apply (cm : t) (c : call) : t :=
  fst (CreateChannel cm (call_database c) (call_numOfShard c) (call_shardID c)).

Definition run (cm : t) (calls : list call) : t := foldl apply cm calls.

End ChannelManager.

(** ** Histories of a field store *)

Module FieldStoreOps.

(** The operations on the segment list of a field store. *)
Inductive op : Type :=
  | OpWrite (f : Field) (writeCtx : writeContext)
  | OpInsert (sStore : SStore.t)
  | OpRemove (familyTime : Z).

Definition apply (fs : FieldStore.t) (o : op) : FieldStore.t :=
  match o with
  | OpWrite f writeCtx => fst (FieldStore.Write fs f writeCtx)
  | OpInsert sStore => FieldStore.insertSStore fs sStore
  | OpRemove familyTime => FieldStore.removeSStore fs familyTime
  end.

Definition run (fs : FieldStore.t) (ops : list op) : FieldStore.t :=
  foldl apply fs ops.

(** The family times of the segments, in the order of the slice. *)
Definition familyTimes (fs : FieldStore.t) : list Z :=
  SStore.GetFamilyTime <$> FieldStore.sStoreNodes fs.

(** Every [insertSStore] of the history inserts a segment of a family the
    store does not hold at that moment (as [Write] does). *)
Fixpoint insertsNewFamilies (fs : FieldStore.t) (ops : list op) : Prop :=
  match ops with
  | [] => True
  | o :: rest =>
      match o with
      | OpInsert sStore => SStore.GetFamilyTime sStore ∉ familyTimes fs
      | _ => True
      end
      ∧ insertsNewFamilies (apply fs o) rest
  end.

End FieldStoreOps.

(** ** A concrete platform, used to run the model on sample inputs *)

Module Sample.

(** A stand-in for the 64-bit string hash: a polynomial hash of the bytes. *)
Fixpoint hashFrom (h : Z) (s : string) : Z :=
  match s with
  | EmptyString => h
  | String c s' => hashFrom ((h * 31 + Z.of_nat (Ascii.nat_of_ascii c)) mod 2 ^ 64) s'
  end.

#[global] Instance platform : Platform := {|
  Sum64String := hashFrom 7;
  shardingCountOfMStores := 4
|}.

(** Modelled from the spec: a ten-second interval with day segments and
    one-hour families (the glossary's rollup bucket and slot), in UTC. *)
Definition oneDay : Z := 86400000.
Definition oneHour : Z := 3600000.

Definition tenSeconds : Interval := {|
  Interval_Int64 := 10000;
  CalcSegmentTime := λ timestamp, timestamp - timestamp mod oneDay;
  CalcFamily := λ timestamp segmentTime, (timestamp - segmentTime) / oneHour;
  CalcFamilyStartTime := λ segmentTime family, segmentTime + family * oneHour;
  CalcSlot := λ timestamp familyTime interval, (timestamp - familyTime) / interval
|}.

(** An id generator that numbers metrics by the length of their name and
    gives every field the id 1; [strict] refuses every field. *)
Definition generator : IDGenerator := {|
  GenMetricID := λ name, Z.of_nat (String.length name);
  GenFieldID := λ _ _ _, Ok 1;
  GenTagKeyID := λ _ _, 1
|}.

Definition strict : IDGenerator := {|
  GenMetricID := λ name, Z.of_nat (String.length name);
  GenFieldID := λ _ _ _, Err (ErrOther "field type does not match");
  GenTagKeyID := λ _ _, 1
|}.

Definition cfg (g : IDGenerator) : MemoryDatabase.MemoryDatabaseCfg :=
  {| MemoryDatabase.cfg_TimeWindow := 360;
     MemoryDatabase.cfg_Interval := tenSeconds;
     MemoryDatabase.cfg_Generator := g |}.

Definition db0 : MemoryDatabase.t TagIndex.t :=
  MemoryDatabase.NewMemoryDatabase (cfg generator).

(** The point of scenario 2: metric [cpu], one tag, one sum field. *)
Definition cpuAt (timestamp : Z) : Metric :=
  {| Metric_Name := "cpu";
     Metric_Timestamp := timestamp;
     Metric_Tags := {[ "host" := "1.1.1.1" ]};
     Metric_Fields := [ {| Field_Name := "f1"; Field_Field := Field_Sum 1%float |} ] |}.

Definition noFlushErrors : Flusher :=
  {| flushed := []; flushMetricFails := λ _, None |}.

(** A write context for the family that starts at [familyTime]. *)
Definition ctxAt (g : IDGenerator) (metricID familyTime slotIndex : Z) : writeContext :=
  {| wc_generator := g; wc_metricID := metricID;
     wc_familyTime := familyTime; wc_slotIndex := slotIndex;
     wc_timeInterval := 10000;
     wc_getter := MetricStore.getFieldIDOrGenerate metricID |}.

(** A metric store of version 100 after one write, and the same store
    with its tags limit lowered to the one series it has. *)
Definition cpuStore : MetricStore.t TagIndex.t :=
  fst (fst (MetricStore.Write (MetricStore.newMetricStore 3 100)
              (cpuAt 3600000) (ctxAt generator 3 3600000 0))).

Definition cpuStoreFull : MetricStore.t TagIndex.t :=
  MetricStore.SetMaxTagsLimit cpuStore 1.

(** The store after [ResetVersion] at time 200: its first index waits in
    the immutable slot. *)
Definition cpuStoreReset : MetricStore.t TagIndex.t :=
  fst (fst (MetricStore.ResetVersion cpuStore 200)).

(** Points of metric [cpu] on host number [k], and the database after the
    points of the first [n] hosts were written. *)
Definition hostMetric (k : nat) : Metric :=
  {| Metric_Name := "cpu";
     Metric_Timestamp := oneHour;
     Metric_Tags := {[ "host" := pretty k ]};
     Metric_Fields := [ {| Field_Name := "f1"; Field_Field := Field_Sum 1%float |} ] |}.

Definition manyHosts (n : nat) : MemoryDatabase.t TagIndex.t :=
  foldl (λ md k, fst (MemoryDatabase.Write md (hostMetric k) 100)) db0 (seq 0 n).

(** The sample database after one write, and after the metric then got a
    new version and a second series. *)
Definition cpuDb : MemoryDatabase.t TagIndex.t :=
  fst (MemoryDatabase.Write db0 (cpuAt oneHour) 100).

Definition cpuDbTwoVersions : MemoryDatabase.t TagIndex.t :=
  fst (MemoryDatabase.Write
         (fst (MemoryDatabase.ResetMetricStore cpuDb "cpu" 200))
         {| Metric_Name := "cpu"; Metric_Timestamp := oneHour;
            Metric_Tags := {[ "host" := "1.1.1.2"; "zone" := "a" ]};
            Metric_Fields := [ {| Field_Name := "f1"; Field_Field := Field_Sum 1%float |} ] |}
         201).

(** A sum field, and a history of a field store: a write into the family
    of two hours, the insertion of a segment of the family of one hour, a
    write into the family of three hours, the removal of the first. *)
Definition sumField : Field :=
  {| Field_Name := "f1"; Field_Field := Field_Sum 1%float |}.

Definition segmentOps : list FieldStoreOps.op :=
  [ FieldStoreOps.OpWrite sumField (ctxAt generator 3 7200000 0);
    FieldStoreOps.OpInsert (SStore.newSimpleFieldStore 3600000 AggSum);
    FieldStoreOps.OpWrite sumField (ctxAt generator 3 10800000 2);
    FieldStoreOps.OpRemove 7200000 ].

(** A database whose id generator refuses every field. *)
Definition dbStrict : MemoryDatabase.t TagIndex.t :=
  MemoryDatabase.NewMemoryDatabase (cfg strict).

(** A database with two families in memory: the one that starts at one
    hour, then the one that starts at zero. *)
Definition twoFamilies : MemoryDatabase.t TagIndex.t :=
  fst (MemoryDatabase.Write (fst (MemoryDatabase.Write db0 (cpuAt oneHour) 100))
         (cpuAt 5) 100).

(** One round of the flush scheduler on metric [cpu]: a write, a new
    version for the metric, the flush of the family written. *)
Definition writeResetFlush (md : MemoryDatabase.t TagIndex.t) (now : Z)
  : MemoryDatabase.t TagIndex.t :=
  let md := fst (MemoryDatabase.Write md (cpuAt oneHour) now) in
  let md := fst (MemoryDatabase.ResetMetricStore md "cpu" (now + 1)) in
  fst (fst (MemoryDatabase.FlushFamilyTo md noFlushErrors oneHour)).

(** Modelled from the spec: the eviction side of the tag index.  A time
    series store is evicted when it has expired and holds no data; the
    model keeps no clock, so in this sample every store counts as
    expired. *)
#[global] Instance evictAtOnce : tagIndexEvictINTF TagIndex.t := {|
  tStoreINTF := TimeSeriesStore.t;
  AllTStores := λ index, map_to_list (TagIndex.seriesID2TStore index);
  GetTStoreBySeriesID := λ index seriesID, TagIndex.seriesID2TStore index !! seriesID;
  RemoveTStores := λ index seriesIDs,
    (TagIndex.set_stores index
       (foldl (λ stores seriesID, delete seriesID stores)
              (TagIndex.seriesID2TStore index) seriesIDs),
     omap (λ seriesID, TagIndex.seriesID2TStore index !! seriesID) seriesIDs);
  IsExpired := λ _, true;
  IsNoData := λ tStore,
    forallb (λ fs, Nat.eqb (length (FieldStore.sStoreNodes fs)) 0)
            (TimeSeriesStore.fStoreNodes tStore);
  TStoreMemSize := TimeSeriesStore.MemSize
|}.

End Sample.

(** ** Notions used by the properties *)

Module Props.

Section WithTagIndex.
Context {TI : Type} `{!tagIndexINTF TI} `{!Platform}.

(** The immutable slot is occupied: it holds a tag index whose version
    is not zero. *)
Definition occupied (ms : MetricStore.t TI) : Prop :=
  ∃ index, MetricStore.immutable ms = MetricStore.Stored index ∧ Version index ≠ 0.

(** An entry set of a metric store: one of its mutable index, or of the
    index in its immutable slot. *)
Definition entrySetOf (ms : MetricStore.t TI) (entrySet : tagKVEntrySet) : Prop :=
  entrySet ∈ GetTagKVEntrySets (MetricStore.mutable ms)
  ∨ ∃ index, MetricStore.atomicGetImmutable ms = Some index
             ∧ entrySet ∈ GetTagKVEntrySets index.

(** The bucket array has its length, a power of two. *)
Definition bucketsInPlace (md : MemoryDatabase.t TI) : Prop :=
  (∃ k, 0 ≤ k ∧ shardingCountOfMStores = 2 ^ k)
  ∧ length (MemoryDatabase.mStoresList md) = Z.to_nat shardingCountOfMStores.

End WithTagIndex.

(** The names of the first [k] hosts of the samples. *)
Definition hostsBelow (k : nat) : gset string := list_to_set (pretty <$> seq 0 k).

(** A metric store on which the points of the first [k] sample hosts were
    written and nothing else: no immutable index, the default limit, [k]
    series, one per host, and the entry set of tag key [host] with the
    names of these hosts as its values. *)
Definition hostsWritten (k : nat) (ms : MetricStore.t TagIndex.t) : Prop :=
  MetricStore.immutable ms = MetricStore.NoValue
  ∧ MetricStore.maxTagsLimit ms = constants.DefaultMStoreMaxTagsCount
  ∧ TagIndex.idCounter (MetricStore.mutable ms) = Z.of_nat k
  ∧ (∀ tags seriesID,
       TagIndex.hash2SeriesID (MetricStore.mutable ms) !! tags = Some seriesID →
       ∃ j, (j < k)%nat ∧ tags = {[ "host" := pretty j ]})
  ∧ ((k = 0%nat ∧ TagIndex.tagKVEntrySets (MetricStore.mutable ms) = [])
     ∨ ∃ hostValues,
         TagIndex.tagKVEntrySets (MetricStore.mutable ms)
         = [ {| key := "host"; values := hostValues |} ]
         ∧ dom hostValues = hostsBelow k).

(** A database whose metric [cpu] has the points of the first [k] sample
    hosts, or no store of that name before the first write. *)
Definition hostsInDatabase `{!Platform} (k : nat) (md : MemoryDatabase.t TagIndex.t)
  : Prop :=
  bucketsInPlace md
  ∧ match MemoryDatabase.getMStore md "cpu" with
    | Some ms => hostsWritten k ms
    | None => k = 0%nat
    end.



(** The segments of a field store are in order: ascending in family
    time, one per family. *)
Definition inOrder (fs : FieldStore.t) : Prop :=
  StronglySorted Z.le (FieldStoreOps.familyTimes fs)
  ∧ NoDup (FieldStoreOps.familyTimes fs).





(** The tag key ids and the tag values handed to an inverted-index
    flusher, and the metric ids handed to a forward-index flusher, in the
    order of the calls. *)
Definition tagKeyIDsFlushed (events : list invertedEvent) : list Z :=
  omap (λ ev, match ev with InvTagKeyID tagKeyID => Some tagKeyID | _ => None end)
    events.

Definition tagValuesFlushed (events : list invertedEvent) : list string :=
  omap (λ ev, match ev with InvTagValue tagValue => Some tagValue | _ => None end)
    events.


(** The start and the end time of the data of a segment, as [TimeRange]
    takes them; [None] for a segment without data. *)
Definition segmentSpan (interval : Z) (s : SStore.t) : option (Z * Z) :=
  match SStore.SlotRange s with
  | Err _ => None
  | Ok (startSlot, endSlot) =>
      Some (Int.int64 (SStore.GetFamilyTime s
                       + Int.int64 (Int.int64 startSlot * interval)),
            Int.int64 (SStore.GetFamilyTime s
                       + Int.int64 (Int.int64 endSlot * interval)))
  end.

End Props.

(** * Properties *)

(** ** Metric store *)

Section MetricStoreFacts.
Context {TI : Type} `{!tagIndexINTF TI}.

Lemma atomicGetImmutable_occupied (ms : MetricStore.t TI) :
  Props.occupied ms ↔ is_Some (MetricStore.atomicGetImmutable ms).
Proof.
  unfold Props.occupied, MetricStore.atomicGetImmutable. split.
  - intros (index & -> & Hv). rewrite bool_decide_true by done. by eexists.
  - intros [index Hsome]. destruct (MetricStore.immutable ms) as [| |stored]; try done.
    case_bool_decide; [|done]. by exists stored.
Qed.

(** C1.  A metric store whose count of used tags has reached its limit
    refuses a write with [ErrTooManyTags] and is left as it was: no
    series is created, no field data written, no size changed.  (The
    count is the number of series ids handed out, a 32-bit quantity.) *)
Theorem Write_full_store_rejected (ms : MetricStore.t TI) (metric : Metric)
    (writeCtx : writeContext) :
  0 ≤ MetricStore.GetTagsUsed ms < 2 ^ 32 →
  MetricStore.getMaxTagsLimit ms ≤ MetricStore.GetTagsUsed ms →
  MetricStore.Write ms metric writeCtx = (ms, 0, Some ErrTooManyTags).
Proof.
  intros Hrange Hfull. unfold MetricStore.Write, MetricStore.isFull, Int.uint32.
  rewrite Z.mod_small by lia.
  destruct (Z.leb_spec (MetricStore.getMaxTagsLimit ms) (MetricStore.GetTagsUsed ms));
    [reflexivity | lia].
Qed.

(** C4.  [ResetVersion] on an occupied immutable slot returns
    [ErrResetVersionUnavailable] and changes nothing; on a free slot it
    puts the mutable index into the slot, installs a newly created
    mutable index and returns no error. *)
Theorem ResetVersion_promotes_or_refuses (ms : MetricStore.t TI) (now : Z) :
  (Props.occupied ms →
     MetricStore.ResetVersion ms now = (ms, 0, Some ErrResetVersionUnavailable))
  ∧ (¬ Props.occupied ms →
     ∃ ms' createdSize,
       MetricStore.ResetVersion ms now = (ms', createdSize, None)
       ∧ MetricStore.immutable ms' = MetricStore.Stored (MetricStore.mutable ms)
       ∧ MetricStore.mutable ms' = newTagIndex now
       ∧ MetricStore.fieldsMetas ms' = MetricStore.fieldsMetas ms
       ∧ MetricStore.metricID ms' = MetricStore.metricID ms).
Proof.
  split; intros Hocc; unfold MetricStore.ResetVersion.
  - apply atomicGetImmutable_occupied in Hocc as [index ->]. reflexivity.
  - destruct (MetricStore.atomicGetImmutable ms) as [index|] eqn:Hget.
    + exfalso. apply Hocc, atomicGetImmutable_occupied. by eexists.
    + eexists _, _. repeat split.
Qed.

(** C7, as the code has it.  [GetFieldIDOrGenerate] returns
    [ErrWrongFieldType] for a known name of another type, the known id
    for a known name of the same type, [ErrTooManyFields] for a new name
    when the list holds 1024 entries or more; otherwise it asks the id
    generator: the id it gives is appended to the list and returned, the
    error it gives is returned and the list stays. *)
Theorem GetFieldIDOrGenerate_cases (ms : MetricStore.t TI) (fieldName : string)
    (ty : fieldType) (generator : IDGenerator) :
  let fmList := MetricStore.fieldsMetas ms in
  let call := MetricStore.GetFieldIDOrGenerate ms fieldName ty generator in
  (∀ fm, Metas.GetFromName fmList fieldName = Some fm → Meta_Type fm ≠ ty →
     call = (ms, Err ErrWrongFieldType))
  ∧ (∀ fm, Metas.GetFromName fmList fieldName = Some fm → Meta_Type fm = ty →
     call = (ms, Ok (Meta_ID fm)))
  ∧ (Metas.GetFromName fmList fieldName = None →
     constants.TStoreMaxFieldsCount ≤ Metas.Len fmList →
     call = (ms, Err ErrTooManyFields))
  ∧ (Metas.GetFromName fmList fieldName = None →
     Metas.Len fmList < constants.TStoreMaxFieldsCount →
     ∀ e, GenFieldID generator (MetricStore.metricID ms) fieldName ty = Err e →
     call = (ms, Err e))
  ∧ (Metas.GetFromName fmList fieldName = None →
     Metas.Len fmList < constants.TStoreMaxFieldsCount →
     ∀ newFieldID,
       GenFieldID generator (MetricStore.metricID ms) fieldName ty = Ok newFieldID →
       fst call = MetricStore.mk (MetricStore.immutable ms) (MetricStore.mutable ms)
                    (fmList ++ [mkMeta fieldName newFieldID ty])
                    (MetricStore.maxTagsLimit ms) (MetricStore.metricID ms)
                    (MetricStore.size ms)
       ∧ snd call = Ok newFieldID).
Proof.
  intros fmList call. subst fmList call.
  unfold MetricStore.GetFieldIDOrGenerate, MetricStore.getFieldIDOrGenerate.
  destruct ms as [imm mut fms lim mid sz]; simpl.
  destruct (Z.leb_spec constants.TStoreMaxFieldsCount (Metas.Len fms)) as [Hfull|Hroom].
  - split; [|split; [|split; [|split]]].
    + intros fm -> Hty. by rewrite bool_decide_false.
    + intros fm -> Hty. by rewrite bool_decide_true.
    + by intros ->.
    + intros _ Hlen. lia.
    + intros _ Hlen. lia.
  - split; [|split; [|split; [|split]]].
    + intros fm -> Hty. by rewrite bool_decide_false.
    + intros fm -> Hty. by rewrite bool_decide_true.
    + intros _ Hlen. lia.
    + intros -> _ e ->. reflexivity.
    + intros -> _ newFieldID ->. split; reflexivity.
Qed.

End MetricStoreFacts.

(** Witness of C1: the sample store with one series and a limit of one. *)
Lemma Write_full_store_rejected_witness :
  (0 ≤ MetricStore.GetTagsUsed Sample.cpuStoreFull < 2 ^ 32)
  ∧ MetricStore.getMaxTagsLimit Sample.cpuStoreFull
    ≤ MetricStore.GetTagsUsed Sample.cpuStoreFull
  ∧ MetricStore.Write Sample.cpuStoreFull (Sample.cpuAt 3600000)
      (Sample.ctxAt Sample.generator 3 3600000 1)
    = (Sample.cpuStoreFull, 0, Some ErrTooManyTags).
Proof.
  assert (MetricStore.GetTagsUsed Sample.cpuStoreFull = 1) as Hused
    by (vm_compute; reflexivity).
  assert (MetricStore.getMaxTagsLimit Sample.cpuStoreFull = 1) as Hlimit
    by (vm_compute; reflexivity).
  split; [rewrite Hused; lia |].
  split; [rewrite Hused, Hlimit; lia |].
  apply Write_full_store_rejected; rewrite Hused; [|rewrite Hlimit]; lia.
Defined.

(** Witness of C4: the reset store refuses a second reset, the sample store
    accepts one. *)
Lemma ResetVersion_promotes_or_refuses_witness :
  Props.occupied Sample.cpuStoreReset
  ∧ MetricStore.ResetVersion Sample.cpuStoreReset 300
    = (Sample.cpuStoreReset, 0, Some ErrResetVersionUnavailable)
  ∧ ¬ Props.occupied Sample.cpuStore
  ∧ ∃ ms' createdSize,
      MetricStore.ResetVersion Sample.cpuStore 200 = (ms', createdSize, None)
      ∧ MetricStore.immutable ms' = MetricStore.Stored (MetricStore.mutable Sample.cpuStore)
      ∧ MetricStore.mutable ms' = newTagIndex 200
      ∧ MetricStore.fieldsMetas ms' = MetricStore.fieldsMetas Sample.cpuStore
      ∧ MetricStore.metricID ms' = MetricStore.metricID Sample.cpuStore.
Proof.
  assert (Props.occupied Sample.cpuStoreReset) as Hocc.
  { exists (MetricStore.mutable Sample.cpuStore). split; [reflexivity |].
    vm_compute. discriminate. }
  assert (¬ Props.occupied Sample.cpuStore) as Hfree.
  { intros (index & Hslot & _). vm_compute in Hslot. discriminate. }
  split; [exact Hocc |].
  split; [exact (proj1 (ResetVersion_promotes_or_refuses Sample.cpuStoreReset 300) Hocc) |].
  split; [exact Hfree |].
  exact (proj2 (ResetVersion_promotes_or_refuses Sample.cpuStore 200) Hfree).
Defined.

(** C7 as stated fails: with a new field name and room in the list, the
    call still returns an error when the id generator refuses the field. *)
Lemma GetFieldIDOrGenerate_generator_refuses :
  Metas.GetFromName (MetricStore.fieldsMetas Sample.cpuStore) "f2" = None
  ∧ Metas.Len (MetricStore.fieldsMetas Sample.cpuStore) < constants.TStoreMaxFieldsCount
  ∧ snd (MetricStore.GetFieldIDOrGenerate Sample.cpuStore "f2" SumField Sample.strict)
    = Err (ErrOther "field type does not match").
Proof. split; [|split]; vm_compute; reflexivity. Qed.

(** Witness of C7: the five cases on the sample store, whose list holds the
    sum field [f1] with id 1. *)
Lemma GetFieldIDOrGenerate_cases_witness :
  MetricStore.GetFieldIDOrGenerate Sample.cpuStore "f1" MinField Sample.generator
  = (Sample.cpuStore, Err ErrWrongFieldType)
  ∧ MetricStore.GetFieldIDOrGenerate Sample.cpuStore "f1" SumField Sample.generator
    = (Sample.cpuStore, Ok 1)
  ∧ MetricStore.GetFieldIDOrGenerate Sample.cpuStore "f2" SumField Sample.strict
    = (Sample.cpuStore, Err (ErrOther "field type does not match"))
  ∧ snd (MetricStore.GetFieldIDOrGenerate Sample.cpuStore "f2" SumField Sample.generator)
    = Ok 1.
Proof.
  pose proof (GetFieldIDOrGenerate_cases Sample.cpuStore "f1" MinField Sample.generator)
    as (Hwrong & _).
  pose proof (GetFieldIDOrGenerate_cases Sample.cpuStore "f1" SumField Sample.generator)
    as (_ & Hknown & _).
  pose proof (GetFieldIDOrGenerate_cases Sample.cpuStore "f2" SumField Sample.strict)
    as (_ & _ & _ & Hrefused & _).
  pose proof (GetFieldIDOrGenerate_cases Sample.cpuStore "f2" SumField Sample.generator)
    as (_ & _ & _ & _ & Hnew).
  split; [|split; [|split]].
  - apply (Hwrong (mkMeta "f1" 1 SumField)); [reflexivity | discriminate].
  - apply (Hknown (mkMeta "f1" 1 SumField)); reflexivity.
  - apply Hrefused; [reflexivity | vm_compute; reflexivity | reflexivity].
  - apply (Hnew eq_refl); [vm_compute; reflexivity | reflexivity].
Defined.

(** ** Memory database: the set of families *)

Section MemoryDatabaseFacts.
Context {TI : Type} `{!tagIndexINTF TI} `{!Platform}.

Implicit Types (md : MemoryDatabase.t TI) (ms : MetricStore.t TI).

Lemma bucketIndex_in_range md (hash : Z) :
  Props.bucketsInPlace md →
  (MemoryDatabase.bucketIndex hash < length (MemoryDatabase.mStoresList md))%nat.
Proof.
  intros [(k & Hk & Hpow) Hlen]. rewrite Hlen.
  unfold MemoryDatabase.bucketIndex, MemoryDatabase.shardingCountMask.
  rewrite Hpow. replace (2 ^ k - 1) with (Z.ones k) by (rewrite Z.ones_equiv; lia).
  rewrite Z.land_comm, Z.land_ones by done.
  pose proof (Z.mod_pos_bound hash (2 ^ k)) as Hbound.
  assert (0 < 2 ^ k) by (apply Z.pow_pos_nonneg; lia). lia.
Qed.

Lemma elem_of_Families md (familyTime : Z) :
  familyTime ∈ MemoryDatabase.Families md ↔ familyTime ∈ MemoryDatabase.familyTimes md.
Proof.
  unfold MemoryDatabase.Families.
  rewrite (merge_sort_Permutation Z.le). apply elem_of_elements.
Qed.

Lemma getMStore_putMStore md (hash : Z) ms :
  Props.bucketsInPlace md →
  MemoryDatabase.getMStoreByMetricHash (MemoryDatabase.putMStore md hash ms) hash = Some ms.
Proof.
  intros Hwf. unfold MemoryDatabase.getMStoreByMetricHash, MemoryDatabase.getBucket,
    MemoryDatabase.putMStore. simpl.
  rewrite list_lookup_insert_eq by (by apply bucketIndex_in_range). simpl.
  apply lookup_insert_eq.
Qed.

Lemma putMStore_families md (hash : Z) ms :
  MemoryDatabase.familyTimes (MemoryDatabase.putMStore md hash ms)
  = MemoryDatabase.familyTimes md
  ∧ MemoryDatabase.lastWroteFamilyTime (MemoryDatabase.putMStore md hash ms)
    = MemoryDatabase.lastWroteFamilyTime md.
Proof. done. Qed.

Lemma putMStore_bucketsInPlace md (hash : Z) ms :
  Props.bucketsInPlace md → Props.bucketsInPlace (MemoryDatabase.putMStore md hash ms).
Proof.
  intros [Hpow Hlen]. split; [done |]. simpl. by rewrite length_insert.
Qed.

(** What [getOrCreateMStore] leaves alone, and what it returns. *)
Lemma getOrCreateMStore_spec md (metricName : string) (hash now : Z) :
  let md' := fst (MemoryDatabase.getOrCreateMStore md metricName hash now) in
  let mStore := snd (MemoryDatabase.getOrCreateMStore md metricName hash now) in
  MemoryDatabase.familyTimes md' = MemoryDatabase.familyTimes md
  ∧ MemoryDatabase.lastWroteFamilyTime md' = MemoryDatabase.lastWroteFamilyTime md
  ∧ MemoryDatabase.interval md' = MemoryDatabase.interval md
  ∧ MemoryDatabase.generator md' = MemoryDatabase.generator md
  ∧ (Props.bucketsInPlace md → Props.bucketsInPlace md')
  ∧ (MemoryDatabase.getMStoreByMetricHash md hash = None →
     mStore = MetricStore.newMetricStore
                (GenMetricID (MemoryDatabase.generator md) metricName) now)
  ∧ (∀ known, MemoryDatabase.getMStoreByMetricHash md hash = Some known →
     md' = md ∧ mStore = known).
Proof.
  unfold MemoryDatabase.getOrCreateMStore.
  destruct (MemoryDatabase.getMStoreByMetricHash md hash) as [known|] eqn:Hget; simpl.
  - split_and!; try done. by intros ? [= ->].
  - unfold MemoryDatabase.getMStoreByMetricHash in Hget. rewrite Hget. simpl.
    split_and!; try done.
    intros [Hpow Hlen]. split; [done |]. simpl. by rewrite length_insert.
Qed.

Lemma MetricStore_Write_metricID ms (metric : Metric) (writeCtx : writeContext) :
  MetricStore.metricID (fst (fst (MetricStore.Write ms metric writeCtx)))
  = MetricStore.metricID ms.
Proof.
  unfold MetricStore.Write. destruct (MetricStore.isFull ms); [done |].
  destruct (GetTStore _ _) as [tStore|].
  - destruct (WriteTStore _ _ _ _ _) as [[[mutable' fmList] w] err]. done.
  - destruct (GetOrCreateTStore _ _ _) as [mutable' [[tStore createdSize]|e]]; [|done].
    simpl. destruct (WriteTStore _ _ _ _ _) as [[[mutable'' fmList] w] err]. done.
Qed.

(** C10.  When [Write] returns an error the families of the database are
    what they were before the call, and the metric store of the metric's
    name is in its bucket after the call: when there was none before, the
    store the call created stays behind. *)
Theorem Write_error_keeps_families md (metric : Metric) (now : Z) (e : error) :
  Props.bucketsInPlace md →
  snd (MemoryDatabase.Write md metric now) = Some e →
  let md' := fst (MemoryDatabase.Write md metric now) in
  MemoryDatabase.familyTimes md' = MemoryDatabase.familyTimes md
  ∧ MemoryDatabase.Families md' = MemoryDatabase.Families md
  ∧ MemoryDatabase.lastWroteFamilyTime md' = MemoryDatabase.lastWroteFamilyTime md
  ∧ ∃ mStore,
      MemoryDatabase.getMStore md' (Metric_Name metric) = Some mStore
      ∧ (MemoryDatabase.getMStore md (Metric_Name metric) = None →
         MetricStore.metricID mStore
         = GenMetricID (MemoryDatabase.generator md) (Metric_Name metric)).
Proof.
  intros Hwf. unfold MemoryDatabase.Write.
  pose proof (getOrCreateMStore_spec md (Metric_Name metric)
                (Sum64String (Metric_Name metric)) now) as Hcreate.
  destruct (MemoryDatabase.getOrCreateMStore md (Metric_Name metric)
              (Sum64String (Metric_Name metric)) now) as [md1 mStore].
  simpl in Hcreate. destruct Hcreate as (Hfam & Hlast & _ & Hgen & Hwf1 & Hnew & _).
  match goal with
  | |- context [MetricStore.Write mStore metric ?ctx] =>
      pose proof (MetricStore_Write_metricID mStore metric ctx) as Hid;
      destruct (MetricStore.Write mStore metric ctx) as [[mStore' writtenSize] err]
  end.
  simpl in Hid. simpl. intros ->. simpl.
  assert (MemoryDatabase.familyTimes md1 = MemoryDatabase.familyTimes md) as Hfam' by done.
  split; [done |]. split; [unfold MemoryDatabase.Families; simpl; by rewrite Hfam' |].
  split; [done |].
  exists mStore'. split.
  - unfold MemoryDatabase.getMStore.
    apply (getMStore_putMStore md1 _ mStore'), Hwf1, Hwf.
  - intros Hnone. rewrite Hid, (Hnew Hnone). done.
Qed.

End MemoryDatabaseFacts.

(** Witness of C10: on a new database whose generator refuses the field,
    the write of [cpu] fails, no family is recorded, and the metric store
    made for [cpu] is in its bucket. *)
Lemma Write_error_keeps_families_witness :
  Props.bucketsInPlace Sample.dbStrict
  ∧ snd (MemoryDatabase.Write Sample.dbStrict (Sample.cpuAt Sample.oneHour) 100)
    = Some (ErrOther "field type does not match")
  ∧ MemoryDatabase.getMStore Sample.dbStrict "cpu" = None
  ∧ let md' := fst (MemoryDatabase.Write Sample.dbStrict (Sample.cpuAt Sample.oneHour) 100) in
    MemoryDatabase.familyTimes md' = MemoryDatabase.familyTimes Sample.dbStrict
    ∧ MemoryDatabase.Families md' = MemoryDatabase.Families Sample.dbStrict
    ∧ MemoryDatabase.lastWroteFamilyTime md'
      = MemoryDatabase.lastWroteFamilyTime Sample.dbStrict
    ∧ ∃ mStore,
        MemoryDatabase.getMStore md' "cpu" = Some mStore
        ∧ (MemoryDatabase.getMStore Sample.dbStrict "cpu" = None →
           MetricStore.metricID mStore = 3).
Proof.
  assert (Props.bucketsInPlace Sample.dbStrict) as Hwf.
  { split; [exists 2; split; [lia | reflexivity] | reflexivity]. }
  assert (snd (MemoryDatabase.Write Sample.dbStrict (Sample.cpuAt Sample.oneHour) 100)
          = Some (ErrOther "field type does not match")) as Herr
    by (vm_compute; reflexivity).
  split; [exact Hwf |]. split; [exact Herr |]. split; [vm_compute; reflexivity |].
  exact (Write_error_keeps_families Sample.dbStrict (Sample.cpuAt Sample.oneHour) 100
           _ Hwf Herr).
Defined.


(** A successful write records its family, unless the family starts at
    zero and zero is the last written family. *)
Lemma Write_records_family {TI : Type} `{!tagIndexINTF TI} `{!Platform}
    (md : MemoryDatabase.t TI) (metric : Metric) (now : Z) :
  snd (MemoryDatabase.Write md metric now) = None →
  let familyTime := MemoryDatabase.familyTimeOf md (Metric_Timestamp metric) in
  let md' := fst (MemoryDatabase.Write md metric now) in
  MemoryDatabase.lastWroteFamilyTime md' = familyTime
  ∧ (MemoryDatabase.lastWroteFamilyTime md ≠ familyTime →
     familyTime ∈ MemoryDatabase.Families md').
Proof.
  unfold MemoryDatabase.Write, MemoryDatabase.familyTimeOf.
  pose proof (getOrCreateMStore_spec md (Metric_Name metric)
                (Sum64String (Metric_Name metric)) now) as Hcreate.
  destruct (MemoryDatabase.getOrCreateMStore md (Metric_Name metric)
              (Sum64String (Metric_Name metric)) now) as [md1 mStore].
  simpl in Hcreate. destruct Hcreate as (Hfam & Hlast & Hint & _).
  rewrite Hint.
  destruct (MetricStore.Write mStore metric _) as [[mStore' writtenSize] err].
  simpl. intros ->. unfold MemoryDatabase.addFamilyTime. simpl. rewrite Hlast.
  case_bool_decide as Hsame; simpl; (split; [done |]); intros Hne; [done |].
  rewrite elem_of_Families. simpl.
  apply elem_of_union_l, elem_of_singleton. reflexivity.
Qed.

(** C5 at its failing input.  The sample database holds the families 0 and
    one hour.  Flushing family 0 removes it and resets the last written
    family to 0; the next write of a point of family 0 succeeds and family
    0 is not recorded again: 0 is also the value the flush reset to. *)
Theorem family_zero_not_recorded_again :
  MemoryDatabase.Families Sample.twoFamilies = [0; Sample.oneHour]
  ∧ let flushed := MemoryDatabase.FlushFamilyTo Sample.twoFamilies Sample.noFlushErrors 0 in
    snd flushed = None
    ∧ MemoryDatabase.Families (fst (fst flushed)) = [Sample.oneHour]
    ∧ MemoryDatabase.lastWroteFamilyTime (fst (fst flushed)) = 0
    ∧ MemoryDatabase.familyTimeOf (fst (fst flushed)) (Metric_Timestamp (Sample.cpuAt 5)) = 0
    ∧ let again := MemoryDatabase.Write (fst (fst flushed)) (Sample.cpuAt 5) 100 in
      snd again = None
      ∧ MemoryDatabase.Families (fst again) = [Sample.oneHour].
Proof. vm_compute. split_and!; reflexivity. Qed.

Lemma int32_small (z : Z) : - 2 ^ 31 ≤ z < 2 ^ 31 → Int.int32 z = z.
Proof. intros Hz. unfold Int.int32. rewrite Z.mod_small; lia. Qed.

Lemma int64_small (z : Z) : - 2 ^ 63 ≤ z < 2 ^ 63 → Int.int64 z = z.
Proof. intros Hz. unfold Int.int64. rewrite Z.mod_small; lia. Qed.

(** What [FlushMetricsDataTo] reports and what the store loses: when an
    index waits in the immutable slot, [MemSize] of the store drops by the
    flushed bytes and by the whole size of that index, which is dropped.
    (Sizes are taken small enough for no counter to wrap.) *)
Lemma FlushMetricsDataTo_forgets_immutable {TI : Type} `{!tagIndexINTF TI}
    (ms : MetricStore.t TI) (flusher : Flusher) (flushCtx : flushContext) (index : TI) :
  MetricStore.atomicGetImmutable ms = Some index →
  let result := MetricStore.FlushMetricsDataTo ms flusher flushCtx in
  let flushedSize := snd (fst result) in
  - 2 ^ 30 ≤ MetricStore.size ms < 2 ^ 30 →
  - 2 ^ 30 ≤ flushedSize < 2 ^ 30 →
  - 2 ^ 30 ≤ IndexMemSize index < 2 ^ 30 →
  MetricStore.MemSize ms - MetricStore.MemSize (fst (fst (fst result)))
  = flushedSize + IndexMemSize index.
Proof.
  intros Himm. unfold MetricStore.FlushMetricsDataTo. rewrite Himm.
  destruct (FlushVersionDataTo (MetricStore.mutable ms) _ flushCtx)
    as [[mutable' fl2] flushed].
  destruct (FlushVersionDataTo index fl2 flushCtx) as [[index' fl3] more].
  simpl. intros Hsize Hflushed Hindex.
  unfold MetricStore.MemSize. rewrite Himm.
  unfold MetricStore.atomicGetImmutable. simpl.
  unfold Int.sub32, MetricStore.emptyMStoreSize.
  set (flushedSize := Int.int64 (flushed + more)) in *.
  rewrite (int32_small flushedSize) by lia.
  rewrite (int32_small (MetricStore.size ms - flushedSize)) by lia.
  rewrite (int64_small (_ + MetricStore.size ms)) by lia.
  rewrite (int64_small (_ + (MetricStore.size ms - flushedSize))) by lia.
  rewrite int64_small by lia. lia.
Qed.

(** C2 at its failing input.  After a write the size counter of the
    database equals the sum of the sizes of its metric stores, and so it
    does after the metric got a new version; the flush then drops the
    former index from its store, which loses the whole size of that index,
    while the counter is lowered by the flushed bytes only.  Every further
    round adds to the gap. *)
Theorem MemSize_drifts_from_stores :
  let written := fst (MemoryDatabase.Write Sample.db0 (Sample.cpuAt Sample.oneHour) 100) in
  let reset := fst (MemoryDatabase.ResetMetricStore written "cpu" 101) in
  let round1 := Sample.writeResetFlush Sample.db0 100 in
  let round2 := Sample.writeResetFlush round1 200 in
  let round3 := Sample.writeResetFlush round2 300 in
  (MemoryDatabase.MemSize written = 214 ∧ MemoryDatabase.storesMemSize written = 214)
  ∧ (MemoryDatabase.MemSize reset = 274 ∧ MemoryDatabase.storesMemSize reset = 274)
  ∧ (MemoryDatabase.MemSize round1 = 250 ∧ MemoryDatabase.storesMemSize round1 = 96)
  ∧ (MemoryDatabase.MemSize round2 = 380 ∧ MemoryDatabase.storesMemSize round2 = 96)
  ∧ (MemoryDatabase.MemSize round3 = 510 ∧ MemoryDatabase.storesMemSize round3 = 96).
Proof. vm_compute. split_and!; reflexivity. Qed.

(** ** Suggestions *)

Section SuggestFacts.
Context {TI : Type} `{!tagIndexINTF TI} `{!Platform}.

Implicit Types (md : MemoryDatabase.t TI) (ms : MetricStore.t TI).

Lemma HasPrefix_empty (s : string) : MetricStore.HasPrefix s "" = true.
Proof. unfold MetricStore.HasPrefix. by destruct s. Qed.

Lemma size_add_le (x : string) (X : gset string) :
  (size ({[ x ]} ∪ X) ≤ S (size X))%nat.
Proof.
  rewrite size_union_alt, size_singleton.
  assert (X ∖ {[ x ]} ⊆ X) as Hsub by (by intros y [Hy _]%elem_of_difference).
  apply subseteq_size in Hsub. lia.
Qed.

(** The key search keeps what was found, adds keys of the entry sets that
    start with the prefix, and stops at the limit. *)
Lemma prefixSearchTagKey_spec (tagKeyPrefix : string) (limit : Z)
    (entrySets : list tagKVEntrySet) (found : gset string) :
  (∀ k, k ∈ MetricStore.prefixSearchTagKey tagKeyPrefix limit entrySets found →
     k ∈ found
     ∨ (MetricStore.HasPrefix k tagKeyPrefix = true
        ∧ ∃ entrySet, entrySet ∈ entrySets ∧ key entrySet = k))
  ∧ (Z.of_nat (size found) ≤ limit →
     Z.of_nat (size (MetricStore.prefixSearchTagKey tagKeyPrefix limit entrySets found))
     ≤ limit).
Proof.
  revert found. induction entrySets as [|entrySet rest IH]; intros found; simpl.
  - split; [by left | done].
  - destruct (Z.leb_spec limit (Z.of_nat (size found))) as [Hstop|Hgo].
    { split; [by left | done]. }
    destruct (MetricStore.HasPrefix (key entrySet) tagKeyPrefix) eqn:Hpre.
    + destruct (IH ({[ key entrySet ]} ∪ found)) as [Hin Hsize]. split.
      * intros k Hk. destruct (Hin k Hk) as [Hold|(Hp & e & He & Hkey)].
        -- apply elem_of_union in Hold as [->%elem_of_singleton|Hold]; [|by left].
           right. split; [done |]. exists entrySet. split; [by left | done].
        -- right. split; [done |]. exists e. split; [by right | done].
      * intros _. apply Hsize. pose proof (size_add_le (key entrySet) found). lia.
    + destruct (IH found) as [Hin Hsize]. split.
      * intros k Hk. destruct (Hin k Hk) as [Hold|(Hp & e & He & Hkey)]; [by left |].
        right. split; [done |]. exists e. split; [by right | done].
      * intros _. apply Hsize. lia.
Qed.

(** The values one entry set adds: its values that start with the prefix. *)
Lemma collectTagValues_spec (tagValuePrefix : string) (entrySet : tagKVEntrySet)
    (found : gset string) (v : string) :
  v ∈ MetricStore.collectTagValues tagValuePrefix entrySet found
  ↔ v ∈ found
    ∨ (MetricStore.HasPrefix v tagValuePrefix = true ∧ is_Some (values entrySet !! v)).
Proof.
  unfold MetricStore.collectTagValues.
  assert (∀ l : list (string * gset Z),
            v ∈ foldr (λ kv acc, if MetricStore.HasPrefix kv.1 tagValuePrefix
                                 then {[ kv.1 ]} ∪ acc else acc) found l
            ↔ v ∈ found
              ∨ (MetricStore.HasPrefix v tagValuePrefix = true ∧ ∃ b, (v, b) ∈ l)) as Hfold.
  { induction l as [|[v' b'] l IH]; simpl.
    - split; [by left |]. intros [Hf|(_ & b & Hb)]; [done | by apply elem_of_nil in Hb].
    - destruct (MetricStore.HasPrefix v' tagValuePrefix) eqn:Hpre.
      + rewrite elem_of_union, elem_of_singleton, IH. split.
        * intros [->|[Hf|(Hp & b & Hb)]]; [right | by left | right].
          -- split; [done |]. exists b'. by left.
          -- split; [done |]. exists b. by right.
        * intros [Hf|(Hp & b & Hb)]; [right; by left |].
          apply elem_of_cons in Hb as [[= -> _]|Hb]; [by left |].
          right. right. split; [done |]. by exists b.
      + rewrite IH. split.
        * intros [Hf|(Hp & b & Hb)]; [by left | right].
          split; [done |]. exists b. by right.
        * intros [Hf|(Hp & b & Hb)]; [by left |].
          apply elem_of_cons in Hb as [[= -> _]|Hb]; [congruence |].
          right. split; [done |]. by exists b. }
  rewrite Hfold. split.
  - intros [Hf|(Hp & b & Hb)]; [by left | right]. split; [done |].
    exists b. by apply elem_of_map_to_list.
  - intros [Hf|(Hp & b & Hb)]; [by left | right]. split; [done |].
    exists b. by apply elem_of_map_to_list.
Qed.

Lemma prefixSearchTagValue_spec (tagValuePrefix : string) (limit : Z)
    (entrySets : list tagKVEntrySet) (found : gset string) (v : string) :
  v ∈ MetricStore.prefixSearchTagValue tagValuePrefix limit entrySets found →
  v ∈ found
  ∨ (MetricStore.HasPrefix v tagValuePrefix = true
     ∧ ∃ entrySet, entrySet ∈ entrySets ∧ is_Some (values entrySet !! v)).
Proof.
  revert found. induction entrySets as [|entrySet rest IH]; intros found; simpl.
  - by left.
  - destruct (Z.leb_spec limit (Z.of_nat (size found))) as [Hstop|Hgo]; [by left |].
    intros Hv. destruct (IH _ Hv) as [Hold|(Hp & e & He & Hsome)].
    + apply collectTagValues_spec in Hold as [Hold|[Hp Hsome]]; [by left |].
      right. split; [done |]. exists entrySet. split; [by left | done].
    + right. split; [done |]. exists e. split; [by right | done].
Qed.

(** With an empty prefix and a single entry set in the mutable index, every
    value of the set is suggested, whatever the limit. *)
Lemma SuggestTagValues_single_entrySet ms (entrySet : tagKVEntrySet)
    (tagKey : string) (limit : Z) :
  0 < limit →
  MetricStore.atomicGetImmutable ms = None →
  GetTagKVEntrySets (MetricStore.mutable ms) = [entrySet] →
  length (MetricStore.SuggestTagValues ms tagKey "" limit) = size (values entrySet).
Proof.
  intros Hlimit Hnone Hsets. unfold MetricStore.SuggestTagValues.
  rewrite Hnone, Hsets.
  destruct (Z.leb_spec limit 0) as [|_]; [lia |].
  set (capped := if constants.MaxSuggestions <? limit
                 then constants.MaxSuggestions else limit).
  assert (0 < capped) as Hcapped.
  { unfold capped, constants.MaxSuggestions. destruct (10000 <? limit); lia. }
  unfold MetricStore.prefixSearchTagValue.
  rewrite size_empty. destruct (Z.leb_spec capped (Z.of_nat 0)) as [|_]; [lia |].
  replace (MetricStore.collectTagValues "" entrySet ∅) with (dom (values entrySet)).
  - change (size (dom (values entrySet)) = size (values entrySet)). apply size_dom.
  - apply set_eq. intros v. rewrite collectTagValues_spec, elem_of_dom, HasPrefix_empty.
    split; [intros Hv; right; done | intros [Hv|[_ Hv]]; [by apply elem_of_empty in Hv | done]].
Qed.

(** X22.  What the Suggest methods return.  [SuggestMetrics] suggests
    nothing.  [SuggestTagKeys] returns at most [limit] keys, each starting
    with the prefix and the key of an entry set of the mutable or the
    immutable index of the metric.  [SuggestTagValues] returns values that
    start with the prefix, each a value of an entry set of one of the two
    indexes. *)
Theorem Suggest_results md (metricName tagKey pre : string) (limit : Z) :
  MemoryDatabase.SuggestMetrics md pre limit = []
  ∧ (∀ k, k ∈ MemoryDatabase.SuggestTagKeys md metricName pre limit →
       MetricStore.HasPrefix k pre = true
       ∧ ∃ ms entrySet, MemoryDatabase.getMStore md metricName = Some ms
                        ∧ Props.entrySetOf ms entrySet ∧ key entrySet = k)
  ∧ Z.of_nat (length (MemoryDatabase.SuggestTagKeys md metricName pre limit))
    ≤ Z.max 0 limit
  ∧ (∀ v, v ∈ MemoryDatabase.SuggestTagValues md metricName tagKey pre limit →
       MetricStore.HasPrefix v pre = true
       ∧ ∃ ms entrySet, MemoryDatabase.getMStore md metricName = Some ms
                        ∧ Props.entrySetOf ms entrySet
                        ∧ is_Some (values entrySet !! v)).
Proof.
  split; [reflexivity |].
  unfold MemoryDatabase.SuggestTagKeys, MemoryDatabase.SuggestTagValues.
  destruct (MemoryDatabase.getMStore md metricName) as [ms|];
    [|split; [intros k Hk; by apply elem_of_nil in Hk |
              split; [simpl; lia | intros v Hv; by apply elem_of_nil in Hv]]].
  unfold MetricStore.SuggestTagKeys, MetricStore.SuggestTagValues, Props.entrySetOf.
  destruct (Z.leb_spec limit 0) as [Hnone|Hpos];
    [split; [intros k Hk; by apply elem_of_nil in Hk |
             split; [simpl; lia | intros v Hv; by apply elem_of_nil in Hv]] |].
  split; [|split].
  - intros k Hk. apply elem_of_elements in Hk.
    destruct (MetricStore.atomicGetImmutable ms) as [index|] eqn:Himm.
    + apply (proj1 (prefixSearchTagKey_spec _ _ _ _)) in Hk as [Hk|(Hp & e & He & Hkey)].
      * apply (proj1 (prefixSearchTagKey_spec _ _ _ _)) in Hk as [Hk|(Hp & e & He & Hkey)];
          [by apply elem_of_empty in Hk |].
        split; [done |]. exists ms, e. split; [done |]. split; [by left | done].
      * split; [done |]. exists ms, e. split; [done |]. split; [|done].
        right. by exists index.
    + apply (proj1 (prefixSearchTagKey_spec _ _ _ _)) in Hk as [Hk|(Hp & e & He & Hkey)];
        [by apply elem_of_empty in Hk |].
      split; [done |]. exists ms, e. split; [done |]. split; [by left | done].
  - assert (Z.of_nat (size (MetricStore.prefixSearchTagKey pre limit
                              (GetTagKVEntrySets (MetricStore.mutable ms)) ∅)) ≤ limit)
      as Hfirst by (apply (proj2 (prefixSearchTagKey_spec _ _ _ _)); rewrite size_empty; lia).
    destruct (MetricStore.atomicGetImmutable ms) as [index|].
    + pose proof (proj2 (prefixSearchTagKey_spec pre limit (GetTagKVEntrySets index) _)
                    Hfirst) as Hsecond.
      unfold size, set_size in Hsecond. simpl in Hsecond. lia.
    + unfold size, set_size in Hfirst. simpl in Hfirst. lia.
  - intros v Hv. apply elem_of_elements in Hv.
    destruct (MetricStore.atomicGetImmutable ms) as [index|] eqn:Himm.
    + apply prefixSearchTagValue_spec in Hv as [Hv|(Hp & e & He & Hsome)].
      * apply prefixSearchTagValue_spec in Hv as [Hv|(Hp & e & He & Hsome)];
          [by apply elem_of_empty in Hv |].
        split; [done |]. exists ms, e. split; [done |]. split; [by left | done].
      * split; [done |]. exists ms, e. split; [done |]. split; [|done].
        right. by exists index.
    + apply prefixSearchTagValue_spec in Hv as [Hv|(Hp & e & He & Hsome)];
        [by apply elem_of_empty in Hv |].
      split; [done |]. exists ms, e. split; [done |]. split; [by left | done].
Qed.

End SuggestFacts.

(** ** Writing many hosts *)

Section ManyHostsFacts.
Context `{!Platform}.

Lemma hostsBelow_S (k : nat) :
  Props.hostsBelow (S k) = {[ pretty k ]} ∪ Props.hostsBelow k.
Proof.
  unfold Props.hostsBelow. rewrite seq_S, fmap_app, list_to_set_app_L. simpl.
  by rewrite (right_id_L ∅ (∪)), (comm_L (∪)).
Qed.

Lemma hostsBelow_size (k : nat) : size (Props.hostsBelow k) = k.
Proof.
  unfold Props.hostsBelow. rewrite size_list_to_set.
  - by rewrite length_fmap, length_seq.
  - apply (NoDup_fmap_2 (pretty : nat → string)), NoDup_seq.
Qed.

(** Writing a series leaves the series table and the entry sets of the
    index alone. *)
Lemma WriteTStore_index index (seriesID : Z) (metric : Metric)
    (writeCtx : writeContext) (fmList : Metas.t) :
  let index' :=
    fst (fst (fst (TagIndex.WriteTStore index seriesID metric writeCtx fmList))) in
  TagIndex.idCounter index' = TagIndex.idCounter index
  ∧ TagIndex.hash2SeriesID index' = TagIndex.hash2SeriesID index
  ∧ TagIndex.tagKVEntrySets index' = TagIndex.tagKVEntrySets index.
Proof.
  unfold TagIndex.WriteTStore.
  destruct (TagIndex.seriesID2TStore index !! seriesID) as [tStore|]; [|done].
  destruct (TimeSeriesStore.Write tStore metric writeCtx fmList) as [[[? ?] ?] ?].
  done.
Qed.

(** The point of host [k] on a store with the first [k] hosts adds this
    host to the values of [host]. *)
Lemma MetricStore_Write_host (k : nat) ms (writeCtx : writeContext) :
  Z.of_nat k < constants.DefaultMStoreMaxTagsCount →
  Props.hostsWritten k ms →
  Props.hostsWritten (S k)
    (fst (fst (MetricStore.Write ms (Sample.hostMetric k) writeCtx))).
Proof.
  unfold constants.DefaultMStoreMaxTagsCount.
  intros Hk (Himm & Hlim & Hid & Hhash & Hsets).
  unfold constants.DefaultMStoreMaxTagsCount in Hlim.
  assert (TagIndex.hash2SeriesID (MetricStore.mutable ms)
            !! ({[ "host" := pretty k ]} : gmap string string) = None) as Hnew.
  { destruct (_ !! _) as [seriesID|] eqn:Hlook; [|done].
    destruct (Hhash _ _ Hlook) as (j & Hj & Heq).
    apply (f_equal (lookup "host")) in Heq.
    rewrite !lookup_singleton_eq in Heq. injection Heq as Heq.
    apply (inj pretty) in Heq. lia. }
  unfold MetricStore.Write, MetricStore.isFull, MetricStore.getMaxTagsLimit,
    MetricStore.GetTagsUsed.
  change (@TagsUsed TagIndex.t tagIndex_INTF) with TagIndex.TagsUsed.
  change (@GetTStore TagIndex.t tagIndex_INTF) with TagIndex.GetTStore.
  change (@GetOrCreateTStore TagIndex.t tagIndex_INTF) with TagIndex.GetOrCreateTStore.
  change (@WriteTStore TagIndex.t tagIndex_INTF) with TagIndex.WriteTStore.
  change (@UpdateIndexTimeRange TagIndex.t tagIndex_INTF)
    with TagIndex.UpdateIndexTimeRange.
  unfold TagIndex.TagsUsed. rewrite Hlim, Hid.
  assert (Int.uint32 (Z.of_nat k) = Z.of_nat k) as ->
    by (unfold Int.uint32; apply Z.mod_small; lia).
  destruct (Z.leb_spec 10000000 (Z.of_nat k)) as [|_]; [lia |].
  unfold TagIndex.GetOrCreateTStore, TagIndex.GetTStore. simpl Metric_Tags.
  rewrite Hnew. cbn beta iota zeta.
  match goal with
  | |- context [TagIndex.WriteTStore ?index ?sid ?m ?c ?f] =>
      pose proof (WriteTStore_index index sid m c f) as (Hid' & Hhash' & Hsets');
      destruct (TagIndex.WriteTStore index sid m c f) as [[[index' fmList] w] err]
  end.
  simpl in Hid', Hhash', Hsets'.
  assert (Int.uint32 (Z.of_nat k + 1) = Z.of_nat (S k)) as Hnext
    by (unfold Int.uint32; rewrite Z.mod_small; lia).
  rewrite Hid in Hid', Hhash', Hsets'. rewrite Hnext in Hid', Hhash', Hsets'.
  assert (∀ index'' (storeSize limit : Z),
            limit = 10000000 →
            TagIndex.idCounter index'' = TagIndex.idCounter index' →
            TagIndex.hash2SeriesID index'' = TagIndex.hash2SeriesID index' →
            TagIndex.tagKVEntrySets index'' = TagIndex.tagKVEntrySets index' →
            Props.hostsWritten (S k)
              {| MetricStore.immutable := MetricStore.immutable ms;
                 MetricStore.mutable := index'';
                 MetricStore.fieldsMetas := fmList;
                 MetricStore.maxTagsLimit := limit;
                 MetricStore.metricID := MetricStore.metricID ms;
                 MetricStore.size := storeSize |}) as Hstore.
  { intros index'' storeSize limit -> E1 E2 E3. unfold Props.hostsWritten. simpl.
    rewrite E1, E2, E3, Hid', Hhash', Hsets'.
    split_and!; [done | done | done | |].
    - intros tags seriesID [[<- _]|[_ Hold]]%lookup_insert_Some.
      + exists k. split; [lia | done].
      + destruct (Hhash _ _ Hold) as (j & Hj & ->). exists j. split; [lia | done].
    - right. rewrite map_to_list_singleton. simpl.
      destruct Hsets as [[-> ->]|(hostValues & -> & Hdom)]; simpl.
      + eexists. split; [done |].
        rewrite dom_singleton_L, hostsBelow_S. unfold Props.hostsBelow. simpl.
        by rewrite (right_id_L ∅ (∪)).
      + eexists. split; [done |].
        by rewrite dom_insert_L, hostsBelow_S, Hdom. }
  simpl. destruct err; simpl; apply Hstore; done.
Qed.

(** The same for the database: the write of host [k] reaches the store of
    [cpu], created by the first write. *)
Lemma Write_host (k : nat) md (now : Z) :
  Z.of_nat k < constants.DefaultMStoreMaxTagsCount →
  Props.hostsInDatabase k md →
  Props.hostsInDatabase (S k) (fst (MemoryDatabase.Write md (Sample.hostMetric k) now)).
Proof.
  intros Hk [Hwf Hstore]. unfold MemoryDatabase.Write. simpl Metric_Name.
  pose proof (getOrCreateMStore_spec md "cpu" (Sum64String "cpu") now)
    as (_ & _ & _ & _ & Hwf' & Hfresh & Hknown).
  destruct (MemoryDatabase.getOrCreateMStore md "cpu" (Sum64String "cpu") now)
    as [md1 mStore]. simpl in Hwf', Hfresh, Hknown.
  assert (Props.hostsWritten k mStore) as Hms.
  { unfold MemoryDatabase.getMStore in Hstore.
    destruct (MemoryDatabase.getMStoreByMetricHash md (Sum64String "cpu")) as [known|].
    - by destruct (Hknown known eq_refl) as [_ ->].
    - rewrite (Hfresh eq_refl), Hstore. unfold Props.hostsWritten. simpl.
      split_and!; [done | done | done | by intros ? ? ?%lookup_empty_Some | by left]. }
  match goal with
  | |- context [MetricStore.Write mStore ?m ?c] =>
      pose proof (MetricStore_Write_host k mStore c Hk Hms) as Hms';
      destruct (MetricStore.Write mStore m c) as [[mStore' w] err]
  end.
  simpl in Hms'.
  pose proof (getMStore_putMStore md1 (Sum64String "cpu") mStore' (Hwf' Hwf)) as Hget.
  pose proof (putMStore_bucketsInPlace md1 (Sum64String "cpu") mStore' (Hwf' Hwf))
    as Hwf''.
  unfold Props.hostsInDatabase, MemoryDatabase.getMStore.
  destruct err; simpl; unfold MemoryDatabase.addFamilyTime; try case_bool_decide;
    (split; [exact Hwf'' | ]);
    unfold MemoryDatabase.getMStoreByMetricHash, MemoryDatabase.getBucket in *;
    simpl in *; rewrite Hget; exact Hms'.
Qed.

End ManyHostsFacts.

Lemma manyHosts_written (n : nat) :
  Z.of_nat n ≤ constants.DefaultMStoreMaxTagsCount →
  Props.hostsInDatabase n (Sample.manyHosts n).
Proof.
  induction n as [|n IH]; intros Hn.
  - split; [split; [exists 2; split; [lia | reflexivity] | reflexivity] | reflexivity].
  - unfold Sample.manyHosts. rewrite seq_S, foldl_app. simpl.
    apply Write_host; [lia | apply IH; lia].
Qed.

(** C9.  [SuggestTagValues] misses its own cap.  It lowers [limit] to
    [MaxSuggestions] but compares the number of results with it only
    between two entry sets, where [SuggestTagKeys] compares before every
    key: after the points of 10001 hosts of metric [cpu] were written,
    [SuggestTagValues] with limit 1 returns all the hosts, more than
    [MaxSuggestions]. *)
Lemma SuggestTagValues_beyond_MaxSuggestions :
  constants.MaxSuggestions
  < Z.of_nat (length (MemoryDatabase.SuggestTagValues
                        (Sample.manyHosts (Z.to_nat 10001)) "cpu" "host" "" 1)).
Proof.
  assert (Z.of_nat (Z.to_nat 10001) ≤ constants.DefaultMStoreMaxTagsCount) as Hn
    by (rewrite Z2Nat.id; unfold constants.DefaultMStoreMaxTagsCount; lia).
  destruct (manyHosts_written (Z.to_nat 10001) Hn) as [_ Hstore].
  unfold MemoryDatabase.SuggestTagValues.
  destruct (MemoryDatabase.getMStore (Sample.manyHosts (Z.to_nat 10001)) "cpu")
    as [ms|]; [| exfalso; lia].
  destruct Hstore as (Himm & _ & _ & _ & [[Hzero _]|(hostValues & Hsets & Hdom)]);
    [exfalso; lia |].
  rewrite (SuggestTagValues_single_entrySet ms {| key := "host"; values := hostValues |}
             "host" 1 ltac:(lia)).
  - simpl. rewrite <- size_dom, Hdom, hostsBelow_size, Z2Nat.id by lia.
    unfold constants.MaxSuggestions. lia.
  - unfold MetricStore.atomicGetImmutable. by rewrite Himm.
  - exact Hsets.
Qed.

(** Witness of X22: the sample metric with two versions; [host] is a key
    of both indexes, [1.1.1.2] a value of the mutable one (and suggested
    for the tag key [zone] too). *)
Lemma Suggest_results_witness :
  "host" ∈ MemoryDatabase.SuggestTagKeys Sample.cpuDbTwoVersions "cpu" "h" 10
  ∧ "1.1.1.2" ∈ MemoryDatabase.SuggestTagValues Sample.cpuDbTwoVersions "cpu" "zone" "1.1" 10
  ∧ (MetricStore.HasPrefix "host" "h" = true
     ∧ ∃ ms entrySet, MemoryDatabase.getMStore Sample.cpuDbTwoVersions "cpu" = Some ms
                      ∧ Props.entrySetOf ms entrySet ∧ key entrySet = "host")
  ∧ (MetricStore.HasPrefix "1.1.1.2" "1.1" = true
     ∧ ∃ ms entrySet, MemoryDatabase.getMStore Sample.cpuDbTwoVersions "cpu" = Some ms
                      ∧ Props.entrySetOf ms entrySet
                      ∧ is_Some (values entrySet !! "1.1.1.2")).
Proof.
  assert ("host" ∈ MemoryDatabase.SuggestTagKeys Sample.cpuDbTwoVersions "cpu" "h" 10)
    as Hkey by (vm_compute; apply list_elem_of_here).
  assert ("1.1.1.2"
          ∈ MemoryDatabase.SuggestTagValues Sample.cpuDbTwoVersions "cpu" "zone" "1.1" 10)
    as Hvalue by (vm_compute; apply list_elem_of_In; simpl; auto).
  pose proof (Suggest_results Sample.cpuDbTwoVersions "cpu" "zone" "h" 10)
    as (_ & Hkeys & _ & _).
  pose proof (Suggest_results Sample.cpuDbTwoVersions "cpu" "zone" "1.1" 10)
    as (_ & _ & _ & Hvalues).
  split; [exact Hkey |]. split; [exact Hvalue |].
  split; [exact (Hkeys _ Hkey) | exact (Hvalues _ Hvalue)].
Defined.

(** ** Channel manager *)

Section ChannelManagerFacts.

Implicit Types (cm : ChannelManager.t) (c : ChannelManager.call).

(** A successful [CreateChannel] leaves the shard count of the database
    and the channel of the shard recorded. *)
Lemma CreateChannel_records cm cm' (database : string) (numOfShard shardID : Z)
    (ch : ChannelManager.Channel) :
  ChannelManager.CreateChannel cm database numOfShard shardID = (cm', Ok ch) →
  0 ≤ shardID < numOfShard
  ∧ ChannelManager.databaseShardsMap cm' !! database = Some numOfShard
  ∧ ChannelManager.channelMap cm' !! (database, shardID) = Some ch.
Proof.
  unfold ChannelManager.CreateChannel.
  destruct (Z.ltb_spec shardID 0) as [|Hlow]; [discriminate |].
  destruct (Z.leb_spec numOfShard shardID) as [|Hhigh]; [discriminate |]. simpl.
  assert (ChannelManager.getOrCreateChannel cm database numOfShard shardID = (cm', Ok ch) →
          0 ≤ shardID < numOfShard
          ∧ ChannelManager.databaseShardsMap cm' !! database = Some numOfShard
          ∧ ChannelManager.channelMap cm' !! (database, shardID) = Some ch) as Hget.
  { unfold ChannelManager.getOrCreateChannel.
    destruct (ChannelManager.channelMap cm !! (database, shardID)) as [known|] eqn:Hch;
      intros [= <- <-]; simpl; (split; [lia |]); (split; [apply lookup_insert_eq |]).
    - done.
    - apply lookup_insert_eq. }
  destruct (ChannelManager.databaseShardsMap cm !! database) as [n|]; [|done].
  case_bool_decide; [done | discriminate].
Qed.

(** Later calls, whatever they are, keep both records. *)
Lemma apply_keeps_records cm c (database : string) (numOfShard shardID : Z)
    (ch : ChannelManager.Channel) :
  ChannelManager.databaseShardsMap cm !! database = Some numOfShard →
  ChannelManager.channelMap cm !! (database, shardID) = Some ch →
  ChannelManager.databaseShardsMap (ChannelManager.apply cm c) !! database = Some numOfShard
  ∧ ChannelManager.channelMap (ChannelManager.apply cm c) !! (database, shardID) = Some ch.
Proof.
  intros Hshards Hch. destruct c as [db n s].
  unfold ChannelManager.apply, ChannelManager.CreateChannel. simpl.
  destruct ((s <? 0) || (n <=? s)); [done |].
  assert (∀ n0, (db = database → n0 = numOfShard) →
            ChannelManager.databaseShardsMap
              (ChannelManager.getOrCreateChannel cm db n0 s).1 !! database = Some numOfShard
            ∧ ChannelManager.channelMap
                (ChannelManager.getOrCreateChannel cm db n0 s).1 !! (database, shardID)
              = Some ch) as Hget.
  { intros n0 Hsame. unfold ChannelManager.getOrCreateChannel.
    destruct (ChannelManager.channelMap cm !! (db, s)) as [known|] eqn:Hknown; simpl.
    - split; [|done]. rewrite lookup_insert. case_decide as Hdb; [|done].
      by rewrite (Hsame Hdb).
    - split.
      + rewrite lookup_insert. case_decide as Hdb; [|done]. by rewrite (Hsame Hdb).
      + rewrite lookup_insert_ne; [done |]. intros [= -> ->]. congruence. }
  destruct (ChannelManager.databaseShardsMap cm !! db) as [n0|] eqn:Hdb.
  - case_bool_decide as Hn; [|done]. apply Hget. intros ->. congruence.
  - apply Hget. intros ->. congruence.
Qed.

Lemma run_keeps_records cm (calls : list ChannelManager.call) (database : string)
    (numOfShard shardID : Z) (ch : ChannelManager.Channel) :
  ChannelManager.databaseShardsMap cm !! database = Some numOfShard →
  ChannelManager.channelMap cm !! (database, shardID) = Some ch →
  ChannelManager.databaseShardsMap (ChannelManager.run cm calls) !! database
  = Some numOfShard
  ∧ ChannelManager.channelMap (ChannelManager.run cm calls) !! (database, shardID)
    = Some ch.
Proof.
  revert cm. induction calls as [|c calls IH]; intros cm Hshards Hch; [done |].
  simpl. destruct (apply_keeps_records cm c _ _ _ _ Hshards Hch) as [Hshards' Hch'].
  by apply IH.
Qed.

(** C6.  [CreateChannel] returns an error when the shard is not below the
    number of shards.  After a call that succeeded, and whatever calls
    came before and after it, a call for the same database with another
    number of shards returns [ErrShardConfigConflict], and the same call
    again returns the same channel instance. *)
Theorem CreateChannel_validates_and_reuses
    (before after : list ChannelManager.call) (database : string)
    (numOfShard shardID : Z) (cm' : ChannelManager.t) (ch : ChannelManager.Channel) :
  (∀ cm n s, n ≤ s →
     ChannelManager.CreateChannel cm database n s = (cm, Err ErrShardConfigConflict))
  ∧ (ChannelManager.CreateChannel
       (ChannelManager.run ChannelManager.NewChannelManager before)
       database numOfShard shardID = (cm', Ok ch) →
     let cm := ChannelManager.run cm' after in
     (∀ n s, n ≠ numOfShard →
        ChannelManager.CreateChannel cm database n s = (cm, Err ErrShardConfigConflict))
     ∧ snd (ChannelManager.CreateChannel cm database numOfShard shardID) = Ok ch).
Proof.
  split.
  - intros cm n s Hge. unfold ChannelManager.CreateChannel.
    destruct (Z.leb_spec n s) as [_|]; [|lia]. by rewrite orb_true_r.
  - intros Hok cm. apply CreateChannel_records in Hok as (Hrange & Hshards & Hch).
    destruct (run_keeps_records cm' after _ _ _ _ Hshards Hch) as [Hshards' Hch'].
    fold cm in Hshards', Hch'. split.
    + intros n s Hne. unfold ChannelManager.CreateChannel.
      destruct ((s <? 0) || (n <=? s)); [done |]. rewrite Hshards'.
      by rewrite bool_decide_false.
    + unfold ChannelManager.CreateChannel.
      destruct (Z.ltb_spec shardID 0) as [|_]; [lia |].
      destruct (Z.leb_spec numOfShard shardID) as [|_]; [lia |]. simpl.
      rewrite Hshards', bool_decide_true by done.
      unfold ChannelManager.getOrCreateChannel. by rewrite Hch'.
Qed.

End ChannelManagerFacts.

(** Witness of C6: the scenario of the specification.  Shard 2 of 2 is
    refused; shard 0 of 3 is created; 2 shards are then refused; shard 0
    of 3 is the same channel again. *)
Lemma CreateChannel_validates_and_reuses_witness :
  let first := ChannelManager.mkChannel "db" 0 0 in
  let cm1 := ChannelManager.run ChannelManager.NewChannelManager
               [ChannelManager.mkCall "db" 2 2] in
  snd (ChannelManager.CreateChannel ChannelManager.NewChannelManager "db" 2 2)
  = Err ErrShardConfigConflict
  ∧ snd (ChannelManager.CreateChannel cm1 "db" 3 0) = Ok first
  ∧ let cm2 := ChannelManager.run (fst (ChannelManager.CreateChannel cm1 "db" 3 0))
                 [ChannelManager.mkCall "db" 2 1] in
    snd (ChannelManager.CreateChannel cm2 "db" 2 1) = Err ErrShardConfigConflict
    ∧ snd (ChannelManager.CreateChannel cm2 "db" 3 0) = Ok first.
Proof.
  intros first cm1.
  pose proof (CreateChannel_validates_and_reuses
                [ChannelManager.mkCall "db" 2 2] [ChannelManager.mkCall "db" 2 1]
                "db" 3 0 (fst (ChannelManager.CreateChannel cm1 "db" 3 0)) first)
    as [Hrange Hafter].
  specialize (Hafter ltac:(vm_compute; reflexivity)) as [Hconflict Hsame].
  split; [by rewrite (Hrange ChannelManager.NewChannelManager 2 2) by lia |].
  split; [vm_compute; reflexivity |].
  intros cm2. split; [|exact Hsame].
  exact (f_equal snd (Hconflict 2 1 ltac:(lia))).
Defined.

(** ** Field store *)

Section FieldStoreFacts.

Implicit Types (fs : FieldStore.t) (nodes pre : list SStore.t) (s x y : SStore.t).

(** *** Binary search *)

Lemma midpoint_between (i j : nat) : (i < j → i ≤ (i + j) / 2 < j)%nat.
Proof.
  intros Hlt. split.
  - apply Nat.div_le_lower_bound; lia.
  - apply Nat.Div0.div_lt_upper_bound; lia.
Qed.

(** On a predicate that stays true once it is true, the search loop
    returns the first index where it holds, given fuel for the range. *)
Lemma search_loop_first (n fuel : nat) (f : nat → bool) (i j : nat) :
  (∀ a b, a ≤ b → b < n → f a = true → f b = true)%nat →
  (j - i ≤ fuel)%nat → (i ≤ j ≤ n)%nat →
  (∀ k, k < i → f k = false)%nat →
  (∀ k, j ≤ k < n → f k = true)%nat →
  let r := FieldStore.search_loop fuel f i j in
  (r ≤ n)%nat ∧ (∀ k, k < r → f k = false)%nat ∧ (∀ k, r ≤ k < n → f k = true)%nat.
Proof.
  intros Hmono. revert i j.
  induction fuel as [|fuel IH]; intros i j Hfuel Hij Hbelow Habove;
    cbn [FieldStore.search_loop].
  - assert (i = j) as -> by lia. split; [lia |]. split; assumption.
  - destruct (Nat.ltb_spec i j) as [Hlt|Hge].
    + pose proof (midpoint_between i j Hlt) as Hmid.
      destruct (f ((i + j) / 2)%nat) eqn:Hf; cbn [negb].
      * apply IH; [lia | lia | assumption |].
        intros k Hk. apply (Hmono ((i + j) / 2)%nat); [lia | lia | assumption].
      * apply IH; [lia | lia | | assumption].
        intros k Hk. destruct (f k) eqn:Hfk; [|reflexivity].
        rewrite <- Hf. symmetry. apply (Hmono k); [lia | lia | assumption].
    + assert (i = j) as -> by lia. split; [lia |]. split; assumption.
Qed.

Lemma Search_first (n : nat) (f : nat → bool) :
  (∀ a b, a ≤ b → b < n → f a = true → f b = true)%nat →
  let r := FieldStore.Search n f in
  (r ≤ n)%nat ∧ (∀ k, k < r → f k = false)%nat ∧ (∀ k, r ≤ k < n → f k = true)%nat.
Proof.
  intros Hmono. unfold FieldStore.Search.
  apply (search_loop_first n); [assumption | lia | lia | intros k Hk; lia | intros k Hk; lia].
Qed.


(** *** Sorted slices *)

Lemma sorted_lookup_le (l : list Z) (i j : nat) (a b : Z) :
  StronglySorted Z.le l → (i ≤ j)%nat → l !! i = Some a → l !! j = Some b → a ≤ b.
Proof.
  intros Hsorted. revert i j.
  induction Hsorted as [|x l Hsorted IH Hall]; intros i j Hij Ha Hb; [done |].
  destruct i as [|i], j as [|j]; simplify_eq/=; try lia.
  - rewrite Forall_lookup in Hall. by apply (Hall j).
  - by apply (IH i j); [lia | |].
Qed.

Lemma sorted_delete (l : list Z) (i : nat) :
  StronglySorted Z.le l → StronglySorted Z.le (delete i l).
Proof.
  intros Hsorted. destruct (l !! i) as [x|] eqn:Hx.
  - rewrite delete_take_drop. rewrite <- (take_drop_middle l i x Hx) in Hsorted.
    apply StronglySorted_app in Hsorted as (Hcross & Htake & Hdrop).
    apply StronglySorted_cons in Hdrop as [_ Hdrop].
    apply StronglySorted_app_2; [|done..].
    intros x1 x2 H1 H2. apply Hcross; [done | by right].
  - rewrite delete_take_drop, take_ge, drop_ge, app_nil_r; [done | |].
    + apply lookup_ge_None in Hx. lia.
    + by apply lookup_ge_None.
Qed.


Lemma notBefore_stays_true nodes (familyTime : Z) (a b : nat) :
  StronglySorted Z.le (SStore.GetFamilyTime <$> nodes) →
  (a ≤ b)%nat → (b < length nodes)%nat →
  FieldStore.notBefore nodes familyTime a = true →
  FieldStore.notBefore nodes familyTime b = true.
Proof.
  intros Hsorted Hab Hb. unfold FieldStore.notBefore.
  destruct (lookup_lt_is_Some_2 nodes a ltac:(lia)) as [sa Ha].
  destruct (lookup_lt_is_Some_2 nodes b Hb) as [sb Hsb].
  rewrite Ha, Hsb. intros Hle%Z.leb_le. apply Z.leb_le.
  assert (SStore.GetFamilyTime sa ≤ SStore.GetFamilyTime sb); [|lia].
  apply (sorted_lookup_le _ a b _ _ Hsorted Hab); rewrite list_lookup_fmap.
  - by rewrite Ha.
  - by rewrite Hsb.
Qed.

(** *** Lookup *)

Lemma locate_Some fs (familyTime : Z) (idx : nat) s :
  FieldStore.locate fs familyTime = Some (idx, s) →
  FieldStore.sStoreNodes fs !! idx = Some s ∧ SStore.GetFamilyTime s = familyTime.
Proof.
  unfold FieldStore.locate.
  destruct (FieldStore.sStoreNodes fs !! FieldStore.searchIndex fs familyTime)
    as [found|] eqn:Hfound; [|done].
  case_bool_decide as Hft; [done |]. intros [= <- <-]. split; [done |].
  destruct (decide (SStore.GetFamilyTime found = familyTime)); [done | contradiction].
Qed.

Lemma locate_None fs (familyTime : Z) :
  StronglySorted Z.le (FieldStoreOps.familyTimes fs) →
  FieldStore.locate fs familyTime = None →
  familyTime ∉ FieldStoreOps.familyTimes fs.
Proof.
  unfold FieldStoreOps.familyTimes. intros Hsorted Hnone Hin.
  apply list_elem_of_lookup in Hin as [k Hk].
  rewrite list_lookup_fmap in Hk.
  destruct (FieldStore.sStoreNodes fs !! k) as [sk|] eqn:Hsk; [|done].
  injection Hk as Hkey.
  pose proof (Search_first (length (FieldStore.sStoreNodes fs))
                (FieldStore.notBefore (FieldStore.sStoreNodes fs) familyTime)
                (λ a b, notBefore_stays_true _ familyTime a b Hsorted))
    as (Hr & Hbelow & Habove).
  fold (FieldStore.searchIndex fs familyTime) in Hr, Hbelow, Habove.
  set (r := FieldStore.searchIndex fs familyTime) in *.
  assert (k < length (FieldStore.sStoreNodes fs))%nat as Hklt
    by (apply lookup_lt_is_Some; by eexists).
  assert (r ≤ k)%nat as Hrk.
  { destruct (decide (k < r)%nat) as [Hlt|]; [|lia].
    specialize (Hbelow k Hlt). unfold FieldStore.notBefore in Hbelow.
    rewrite Hsk in Hbelow. apply Z.leb_gt in Hbelow. lia. }
  destruct (lookup_lt_is_Some_2 (FieldStore.sStoreNodes fs) r ltac:(lia)) as [sr Hsr].
  unfold FieldStore.locate in Hnone. fold r in Hnone. rewrite Hsr in Hnone.
  case_bool_decide as Hne; [|done].
  specialize (Habove r ltac:(lia)). unfold FieldStore.notBefore in Habove.
  rewrite Hsr in Habove. apply Z.leb_le in Habove.
  assert (SStore.GetFamilyTime sr ≤ SStore.GetFamilyTime sk); [|lia].
  apply (sorted_lookup_le _ r k _ _ Hsorted Hrk); rewrite list_lookup_fmap.
  - by rewrite Hsr.
  - by rewrite Hsk.
Qed.

(** [GetSStore] finds a segment exactly when the sorted slice holds one
    of the family, and what it finds is that segment. *)
Lemma GetSStore_found fs (familyTime : Z) :
  StronglySorted Z.le (FieldStoreOps.familyTimes fs) →
  (is_Some (FieldStore.GetSStore fs familyTime)
   ↔ familyTime ∈ FieldStoreOps.familyTimes fs)
  ∧ (∀ s, FieldStore.GetSStore fs familyTime = Some s →
       s ∈ FieldStore.sStoreNodes fs ∧ SStore.GetFamilyTime s = familyTime).
Proof.
  intros Hsorted. unfold FieldStore.GetSStore.
  destruct (FieldStore.locate fs familyTime) as [[idx s]|] eqn:Hlocate; simpl.
  - apply locate_Some in Hlocate as [Hidx Hft]. split.
    + split; [|by eexists]. intros _. unfold FieldStoreOps.familyTimes.
      apply list_elem_of_fmap. exists s. split; [done |].
      by apply list_elem_of_lookup_2 in Hidx.
    + intros s' [= <-]. split; [|done]. by apply list_elem_of_lookup_2 in Hidx.
  - split; [|done]. split; [by intros [? ?] |].
    intros Hin. by apply locate_None in Hin.
Qed.


(** *** Insertion *)

Lemma sinkInto_Permutation x pre : FieldStore.sinkInto x pre ≡ₚ x :: pre.
Proof.
  induction pre as [|y pre IH]; simpl; [done |].
  destruct (FieldStore.Less x y); [|done].
  rewrite IH. apply Permutation_swap.
Qed.

(** [sinkInto] keeps a reversed prefix in descending order. *)
Lemma sinkInto_descending x pre :
  StronglySorted (λ a b, SStore.GetFamilyTime b ≤ SStore.GetFamilyTime a) pre →
  StronglySorted (λ a b, SStore.GetFamilyTime b ≤ SStore.GetFamilyTime a)
    (FieldStore.sinkInto x pre).
Proof.
  induction 1 as [|y pre Hsorted IH Hall]; simpl.
  - repeat constructor.
  - unfold FieldStore.Less. destruct (Z.ltb_spec (SStore.GetFamilyTime x)
                                       (SStore.GetFamilyTime y)) as [Hlt|Hge].
    + constructor; [done |]. rewrite sinkInto_Permutation.
      constructor; [lia | done].
    + constructor; [by constructor |]. constructor; [done |].
      eapply Forall_impl; [exact Hall |]. simpl. intros z Hz. lia.
Qed.

Lemma insertion_pass nodes pre :
  StronglySorted (λ a b, SStore.GetFamilyTime b ≤ SStore.GetFamilyTime a) pre →
  StronglySorted (λ a b, SStore.GetFamilyTime b ≤ SStore.GetFamilyTime a)
    (fold_left (λ pre x, FieldStore.sinkInto x pre) nodes pre)
  ∧ fold_left (λ pre x, FieldStore.sinkInto x pre) nodes pre ≡ₚ nodes ++ pre.
Proof.
  revert pre. induction nodes as [|x nodes IH]; intros pre Hpre; simpl; [done |].
  destruct (IH (FieldStore.sinkInto x pre) (sinkInto_descending x pre Hpre))
    as [Hsorted Hperm].
  split; [done |]. rewrite Hperm, sinkInto_Permutation.
  by rewrite Permutation_middle.
Qed.

Lemma descending_rev pre :
  StronglySorted (λ a b, SStore.GetFamilyTime b ≤ SStore.GetFamilyTime a) pre →
  StronglySorted Z.le (SStore.GetFamilyTime <$> rev pre).
Proof.
  induction 1 as [|y pre Hsorted IH Hall]; simpl; [constructor |].
  rewrite fmap_app. apply StronglySorted_app_2; [|done | repeat constructor].
  intros k1 k2 Hk1 ->%list_elem_of_singleton.
  apply list_elem_of_fmap in Hk1 as (z & -> & Hz). rewrite <- Permutation_rev in Hz.
  rewrite Forall_forall in Hall. by apply Hall.
Qed.

(** [Sort] returns the segments it was given, in ascending family order. *)
Lemma Sort_sorted nodes :
  StronglySorted Z.le (SStore.GetFamilyTime <$> FieldStore.Sort nodes)
  ∧ FieldStore.Sort nodes ≡ₚ nodes.
Proof.
  unfold FieldStore.Sort.
  destruct (insertion_pass nodes [] ltac:(constructor)) as [Hsorted Hperm].
  split; [by apply descending_rev |].
  by rewrite <- Permutation_rev, Hperm, app_nil_r.
Qed.

Lemma insertSStore_familyTimes fs s :
  StronglySorted Z.le (FieldStoreOps.familyTimes (FieldStore.insertSStore fs s))
  ∧ FieldStoreOps.familyTimes (FieldStore.insertSStore fs s)
    ≡ₚ SStore.GetFamilyTime s :: FieldStoreOps.familyTimes fs.
Proof.
  unfold FieldStoreOps.familyTimes, FieldStore.insertSStore. simpl.
  destruct (Sort_sorted (FieldStore.sStoreNodes fs ++ [s])) as [Hsorted Hperm].
  split; [done |]. rewrite Hperm, fmap_app. simpl.
  by rewrite <- Permutation_cons_append.
Qed.

(** *** Removal *)

Lemma removeSStore_familyTimes fs (familyTime : Z) :
  FieldStoreOps.familyTimes (FieldStore.removeSStore fs familyTime)
  = FieldStoreOps.familyTimes fs
  ∨ ∃ idx, FieldStoreOps.familyTimes fs !! idx = Some familyTime
           ∧ FieldStoreOps.familyTimes (FieldStore.removeSStore fs familyTime)
             = delete idx (FieldStoreOps.familyTimes fs).
Proof.
  unfold FieldStore.removeSStore, FieldStoreOps.familyTimes.
  destruct (FieldStore.sStoreNodes fs !! FieldStore.searchIndex fs familyTime)
    as [s|] eqn:Hs; [|by left].
  case_bool_decide as Hne; [by left |]. right.
  exists (FieldStore.searchIndex fs familyTime). simpl. split.
  - rewrite list_lookup_fmap, Hs. simpl. f_equal.
    destruct (decide (SStore.GetFamilyTime s = familyTime)); [done | contradiction].
  - by rewrite <- delete_take_drop, list_fmap_delete.
Qed.

(** *** Writes *)

Lemma WriteFloat_familyTime s (value : float) (writeCtx : writeContext) :
  SStore.GetFamilyTime (fst (SStore.WriteFloat s value writeCtx)) = SStore.GetFamilyTime s.
Proof. unfold SStore.WriteFloat. by destruct (SStore.slots s !! _). Qed.

(** A write leaves the family times as they are, or inserts a segment of
    the family of its context when the sorted slice has none. *)
Lemma Write_familyTimes fs (f : Field) (writeCtx : writeContext) :
  StronglySorted Z.le (FieldStoreOps.familyTimes fs) →
  FieldStoreOps.familyTimes (fst (FieldStore.Write fs f writeCtx))
  = FieldStoreOps.familyTimes fs
  ∨ ((wc_familyTime writeCtx ∉ FieldStoreOps.familyTimes fs)
     ∧ ∃ s, SStore.GetFamilyTime s = wc_familyTime writeCtx
            ∧ fst (FieldStore.Write fs f writeCtx) = FieldStore.insertSStore fs s).
Proof.
  intros Hsorted. unfold FieldStore.Write.
  destruct (Field_Field f) as [value|]; [|by left].
  destruct (FieldStore.locate fs (wc_familyTime writeCtx)) as [[idx s]|] eqn:Hlocate.
  - left. apply locate_Some in Hlocate as [Hidx Hft].
    pose proof (WriteFloat_familyTime s value writeCtx) as Hsame.
    destruct (SStore.WriteFloat s value writeCtx) as [written grown]. simpl in *.
    unfold FieldStoreOps.familyTimes. simpl.
    rewrite list_fmap_insert, Hsame. apply list_insert_id.
    by rewrite list_lookup_fmap, Hidx.
  - right. split; [by apply locate_None |].
    pose proof (WriteFloat_familyTime
                  (SStore.newSimpleFieldStore (wc_familyTime writeCtx) AggSum)
                  value writeCtx) as Hsame.
    destruct (SStore.WriteFloat _ value writeCtx) as [written grown]. simpl in *.
    by exists written.
Qed.

(** *** Histories *)

Lemma apply_sorted fs (o : FieldStoreOps.op) :
  StronglySorted Z.le (FieldStoreOps.familyTimes fs) →
  StronglySorted Z.le (FieldStoreOps.familyTimes (FieldStoreOps.apply fs o)).
Proof.
  intros Hsorted. destruct o as [f writeCtx|s|familyTime]; simpl.
  - destruct (Write_familyTimes fs f writeCtx Hsorted) as [->|(_ & s & _ & ->)];
      [done | apply insertSStore_familyTimes].
  - apply insertSStore_familyTimes.
  - destruct (removeSStore_familyTimes fs familyTime) as [->|(idx & _ & ->)];
      [done | by apply sorted_delete].
Qed.

Lemma apply_NoDup fs (o : FieldStoreOps.op) :
  StronglySorted Z.le (FieldStoreOps.familyTimes fs) →
  NoDup (FieldStoreOps.familyTimes fs) →
  match o with
  | FieldStoreOps.OpInsert s => SStore.GetFamilyTime s ∉ FieldStoreOps.familyTimes fs
  | _ => True
  end →
  NoDup (FieldStoreOps.familyTimes (FieldStoreOps.apply fs o)).
Proof.
  intros Hsorted Hnodup Hnew. destruct o as [f writeCtx|s|familyTime]; simpl.
  - destruct (Write_familyTimes fs f writeCtx Hsorted) as [->|(Hnotin & s & Hft & ->)];
      [done |].
    rewrite (proj2 (insertSStore_familyTimes fs s)), Hft. by constructor.
  - rewrite (proj2 (insertSStore_familyTimes fs s)). by constructor.
  - destruct (removeSStore_familyTimes fs familyTime) as [->|(idx & _ & ->)]; [done |].
    eapply sublist_NoDup; [exact Hnodup | apply sublist_delete].
Qed.

Lemma run_sorted fs (ops : list FieldStoreOps.op) :
  StronglySorted Z.le (FieldStoreOps.familyTimes fs) →
  StronglySorted Z.le (FieldStoreOps.familyTimes (FieldStoreOps.run fs ops))
  ∧ (NoDup (FieldStoreOps.familyTimes fs) →
     FieldStoreOps.insertsNewFamilies fs ops →
     NoDup (FieldStoreOps.familyTimes (FieldStoreOps.run fs ops))).
Proof.
  revert fs. induction ops as [|o ops IH]; intros fs Hsorted; simpl; [done |].
  destruct (IH _ (apply_sorted fs o Hsorted)) as [Hrun Hnodup].
  split; [done |]. intros Hfs [Hnew Hrest].
  apply Hnodup; [|done]. by apply apply_NoDup.
Qed.

(** C8, as the code has it.  After any sequence of [Write],
    [insertSStore] and [removeSStore] on a new field store the segment
    list is sorted in ascending family time, and [GetSStore] returns a
    segment exactly when one of that family is in the list (and returns
    it).  Each family time appears at most once provided every
    [insertSStore] of the sequence inserts a family that is not in the
    list at that moment, as [Write] does. *)
Theorem fieldStore_segments_sorted (fieldID : Z) (ops : list FieldStoreOps.op) :
  let fs := FieldStoreOps.run (FieldStore.newFieldStore fieldID) ops in
  StronglySorted Z.le (FieldStoreOps.familyTimes fs)
  ∧ (∀ familyTime,
       is_Some (FieldStore.GetSStore fs familyTime)
       ↔ familyTime ∈ FieldStoreOps.familyTimes fs)
  ∧ (∀ familyTime s,
       FieldStore.GetSStore fs familyTime = Some s →
       s ∈ FieldStore.sStoreNodes fs ∧ SStore.GetFamilyTime s = familyTime)
  ∧ (FieldStoreOps.insertsNewFamilies (FieldStore.newFieldStore fieldID) ops →
     NoDup (FieldStoreOps.familyTimes fs)).
Proof.
  intros fs.
  destruct (run_sorted (FieldStore.newFieldStore fieldID) ops ltac:(constructor))
    as [Hsorted Hnodup].
  fold fs in Hsorted, Hnodup.
  split; [done |]. split; [|split].
  - intros familyTime. by apply GetSStore_found.
  - intros familyTime s. by apply GetSStore_found.
  - apply Hnodup. constructor.
Qed.

End FieldStoreFacts.

(** C8 as stated fails: [insertSStore] called twice with segments of one
    family leaves that family twice in the list. *)
Lemma insertSStore_duplicates_family :
  ¬ NoDup (FieldStoreOps.familyTimes
             (FieldStoreOps.run (FieldStore.newFieldStore 1)
                [FieldStoreOps.OpInsert (SStore.newSimpleFieldStore 3600000 AggSum);
                 FieldStoreOps.OpInsert (SStore.newSimpleFieldStore 3600000 AggSum)])).
Proof.
  assert (FieldStoreOps.familyTimes
            (FieldStoreOps.run (FieldStore.newFieldStore 1)
               [FieldStoreOps.OpInsert (SStore.newSimpleFieldStore 3600000 AggSum);
                FieldStoreOps.OpInsert (SStore.newSimpleFieldStore 3600000 AggSum)])
          = [3600000; 3600000]) as -> by (vm_compute; reflexivity).
  intros [Hnotin _]%NoDup_cons. apply Hnotin. by left.
Qed.

(** Witness of C8: a write into the family of two hours, an insertion of
    the family of one hour, a second write, and the removal of the first
    family. *)
Lemma fieldStore_segments_sorted_witness :
  let fs := FieldStoreOps.run (FieldStore.newFieldStore 1) Sample.segmentOps in
  FieldStoreOps.insertsNewFamilies (FieldStore.newFieldStore 1) Sample.segmentOps
  ∧ FieldStoreOps.familyTimes fs = [3600000; 10800000]
  ∧ StronglySorted Z.le (FieldStoreOps.familyTimes fs)
  ∧ (∀ familyTime,
       is_Some (FieldStore.GetSStore fs familyTime)
       ↔ familyTime ∈ FieldStoreOps.familyTimes fs)
  ∧ (∀ familyTime s,
       FieldStore.GetSStore fs familyTime = Some s →
       s ∈ FieldStore.sStoreNodes fs ∧ SStore.GetFamilyTime s = familyTime)
  ∧ NoDup (FieldStoreOps.familyTimes fs).
Proof.
  intros fs.
  assert (FieldStoreOps.insertsNewFamilies (FieldStore.newFieldStore 1) Sample.segmentOps)
    as Hnew.
  { unfold Sample.segmentOps. cbn [FieldStoreOps.insertsNewFamilies].
    split_and!; try exact I.
    assert (FieldStoreOps.familyTimes
              (FieldStoreOps.apply (FieldStore.newFieldStore 1)
                 (FieldStoreOps.OpWrite Sample.sumField
                    (Sample.ctxAt Sample.generator 3 7200000 0)))
            = [7200000]) as -> by (vm_compute; reflexivity).
    apply not_elem_of_cons. split; [simpl; lia | apply not_elem_of_nil]. }
  pose proof (fieldStore_segments_sorted 1 Sample.segmentOps)
    as (Hsorted & Hfound & Hsame & Hnodup).
  split; [exact Hnew |]. split; [vm_compute; reflexivity |].
  split; [exact Hsorted |]. split; [exact Hfound |]. split; [exact Hsame |].
  exact (Hnodup Hnew).
Defined.

(** ** Flushing a family *)

Section FlushFacts.
Context `{!Platform}.

Implicit Types (fs : FieldStore.t) (tStore : TimeSeriesStore.t) (index : TagIndex.t)
  (ms : MetricStore.t TagIndex.t) (md : MemoryDatabase.t TagIndex.t).

(** What [FlushFieldTo] leaves of a field store is what [removeSStore]
    leaves of it. *)
Lemma FlushFieldTo_removes fs (flusher : Flusher) (familyTime : Z) :
  fst (fst (FieldStore.FlushFieldTo fs flusher familyTime))
  = FieldStore.removeSStore fs familyTime.
Proof.
  unfold FieldStore.FlushFieldTo, FieldStore.GetSStore, FieldStore.removeSStore,
    FieldStore.locate.
  destruct (FieldStore.sStoreNodes fs !! FieldStore.searchIndex fs familyTime)
    as [s|]; [|done].
  case_bool_decide; [done |]. simpl.
  destruct (SStore.Bytes s true) as [s' [block|e]]; done.
Qed.








(** Every store the loop over the stores of a bucket leaves in the bucket
    is the flushed form of a store of the list, or was in the bucket
    before; when the loop ended without error the second case is that of a
    store that is not in the list. *)
Lemma flushStores_stores (stores : list (Z * MetricStore.t TagIndex.t))
    (bkt bkt' : gmap Z (MetricStore.t TagIndex.t)) (flusher fl' : Flusher)
    (size size' familyTime timeInterval : Z) (err : option error)
    (hash : Z) (ms' : MetricStore.t TagIndex.t) :
  MemoryDatabase.flushStores stores bkt flusher size familyTime timeInterval
  = (bkt', fl', size', err) →
  bkt' !! hash = Some ms' →
  (∃ ms fl flushCtx,
     (hash, ms) ∈ stores ∧ fc_familyTime flushCtx = familyTime
     ∧ ms' = fst (fst (fst (MetricStore.FlushMetricsDataTo ms fl flushCtx))))
  ∨ (bkt !! hash = Some ms' ∧ (err = None → hash ∉ stores.*1)).
Proof.
  revert bkt flusher size.
  induction stores as [|[h ms] stores IH]; intros bkt flusher size; simpl.
  - intros [= <- _ _ _] Hlook. right. split; [done |]. intros _. apply not_elem_of_nil.
  - destruct (MetricStore.FlushMetricsDataTo ms flusher _)
      as [[[flushedStore fl] flushedSize] e] eqn:Hflush.
    destruct e as [e|].
    + intros [= <- _ _ <-] Hlook. destruct (decide (h = hash)) as [->|Hne].
      * rewrite lookup_insert_eq in Hlook. injection Hlook as <-.
        left. exists ms, flusher,
          {| fc_metricID := MetricStore.GetMetricID ms; fc_familyTime := familyTime;
             fc_timeInterval := timeInterval |}.
        split; [by left |]. split; [done | by rewrite Hflush].
      * rewrite lookup_insert_ne in Hlook by done. right. split; [done | discriminate].
    + intros Hrest Hlook.
      destruct (IH _ _ _ Hrest Hlook) as [(ms0 & fl0 & ctx0 & Hin & Hft & ->)|[Hold Hnotin]].
      * left. exists ms0, fl0, ctx0. split; [by right | done].
      * destruct (decide (h = hash)) as [->|Hne].
        -- rewrite lookup_insert_eq in Hold. injection Hold as <-.
           left. exists ms, flusher,
             {| fc_metricID := MetricStore.GetMetricID ms; fc_familyTime := familyTime;
                fc_timeInterval := timeInterval |}.
           split; [by left |]. split; [done | by rewrite Hflush].
        -- rewrite lookup_insert_ne in Hold by done. right. split; [done |].
           intros Herr. apply not_elem_of_cons. split; [simpl; congruence | by apply Hnotin].
Qed.

(** The same for the loop over the buckets: a bucket outside the indexes
    is untouched, and the stores of any bucket are flushed stores of the
    bucket or stores it had; after a loop without error the stores of a
    bucket among the indexes are all flushed. *)
Lemma flushBuckets_buckets (indexes : list nat)
    (buckets buckets' : list (gmap Z (MetricStore.t TagIndex.t)))
    (flusher fl' : Flusher) (size size' familyTime timeInterval : Z)
    (err : option error) (i : nat) (bkt' : gmap Z (MetricStore.t TagIndex.t)) :
  NoDup indexes →
  MemoryDatabase.flushBuckets indexes buckets flusher size familyTime timeInterval
  = (buckets', fl', size', err) →
  buckets' !! i = Some bkt' →
  ∃ bkt, buckets !! i = Some bkt
         ∧ (i ∉ indexes → bkt' = bkt)
         ∧ ∀ hash ms', bkt' !! hash = Some ms' →
             (∃ ms fl flushCtx,
                bkt !! hash = Some ms ∧ fc_familyTime flushCtx = familyTime
                ∧ ms' = fst (fst (fst (MetricStore.FlushMetricsDataTo ms fl flushCtx))))
             ∨ (bkt !! hash = Some ms' ∧ (err = None → i ∉ indexes)).
Proof.
  intros Hnodup. revert buckets flusher size.
  induction Hnodup as [|i0 indexes Hfresh Hnodup IH]; intros buckets flusher size; simpl.
  - intros [= <- _ _ _] Hlook. exists bkt'. split; [done |]. split; [done |].
    intros hash ms' Hms'. right. split; [done |]. intros _. apply not_elem_of_nil.
  - destruct (MemoryDatabase.flushStores _ _ flusher size familyTime timeInterval)
      as [[[bkt0' fl] size0] e0] eqn:Hstores.
    assert (∀ after : list (gmap Z (MetricStore.t TagIndex.t)),
              after !! i0 = Some bkt' → after = <[i0 := bkt0']> buckets →
              ∃ bkt, buckets !! i0 = Some bkt
                     ∧ ∀ hash ms', bkt' !! hash = Some ms' →
                         (∃ ms fl flushCtx,
                            bkt !! hash = Some ms ∧ fc_familyTime flushCtx = familyTime
                            ∧ ms' = fst (fst (fst (MetricStore.FlushMetricsDataTo
                                                     ms fl flushCtx))))
                         ∨ (bkt !! hash = Some ms' ∧ e0 ≠ None)) as Hhead.
    { intros after Hafter ->.
      assert (i0 < length buckets)%nat as Hlen.
      { apply lookup_lt_Some in Hafter. by rewrite length_insert in Hafter. }
      rewrite list_lookup_insert_eq in Hafter by done. injection Hafter as <-.
      destruct (lookup_lt_is_Some_2 buckets i0 Hlen) as [bkt0 Hbkt0].
      rewrite Hbkt0 in Hstores. simpl in Hstores.
      exists bkt0. split; [done |]. intros hash ms' Hms'.
      destruct (flushStores_stores _ _ _ _ _ _ _ _ _ _ hash ms' Hstores Hms')
        as [(ms & fl0 & ctx0 & Hlist & Hft & ->)|[Hold Hnotin]].
      - left. exists ms, fl0, ctx0. split; [|done].
        by apply elem_of_map_to_list in Hlist.
      - right. split; [done |]. intros ->. apply Hnotin; [done |].
        apply list_elem_of_fmap. exists (hash, ms').
        split; [done |]. by apply elem_of_map_to_list. }
    destruct e0 as [e0|].
    + intros [= <- _ _ <-] Hlook. destruct (decide (i = i0)) as [->|Hne].
      * destruct (Hhead _ Hlook eq_refl) as (bkt0 & Hbkt0 & Hstores0).
        exists bkt0. split; [done |]. split.
        -- intros Hnotin. exfalso. apply Hnotin. by left.
        -- intros hash ms' Hms'.
           destruct (Hstores0 hash ms' Hms') as [Hleft|[Hold _]]; [by left |].
           right. split; [done |]. discriminate.
      * rewrite list_lookup_insert_ne in Hlook by done.
        exists bkt'. split; [done |]. split; [done |].
        intros hash ms' Hms'. right. split; [done |]. discriminate.
    + intros Hrest Hlook.
      destruct (IH _ _ _ Hrest Hlook) as (bkt1 & Hbkt1 & Hout & Hin).
      destruct (decide (i = i0)) as [->|Hne].
      * rewrite (Hout Hfresh) in *.
        destruct (Hhead _ Hbkt1 eq_refl) as (bkt0 & Hbkt0 & Hstores0).
        exists bkt0. split; [done |]. split.
        -- intros Hnotin. exfalso. apply Hnotin. by left.
        -- intros hash ms' Hms'.
           destruct (Hstores0 hash ms' Hms') as [Hleft|[_ Hfalse]]; [by left | done].
      * rewrite list_lookup_insert_ne in Hbkt1 by done.
        exists bkt1. split; [done |]. split.
        -- intros Hnotin. apply Hout. intros Hrestin. apply Hnotin. by right.
        -- intros hash ms' Hms'.
           destruct (Hin hash ms' Hms') as [Hleft|[Hold Hnotin]]; [by left |].
           right. split; [done |]. intros Herr.
           apply not_elem_of_cons. split; [done | by apply Hnotin].
Qed.




(** *** The segment lists stay in order *)

Lemma newFieldStore_inOrder (fieldID : Z) : Props.inOrder (FieldStore.newFieldStore fieldID).
Proof. split; constructor. Qed.

Lemma FieldStore_Write_inOrder fs (f : Field) (writeCtx : writeContext) :
  Props.inOrder fs → Props.inOrder (fst (FieldStore.Write fs f writeCtx)).
Proof.
  intros [Hsorted Hnodup]. split.
  - exact (apply_sorted fs (FieldStoreOps.OpWrite f writeCtx) Hsorted).
  - exact (apply_NoDup fs (FieldStoreOps.OpWrite f writeCtx) Hsorted Hnodup I).
Qed.

Lemma removeSStore_inOrder fs (familyTime : Z) :
  Props.inOrder fs → Props.inOrder (FieldStore.removeSStore fs familyTime).
Proof.
  intros [Hsorted Hnodup]. split.
  - exact (apply_sorted fs (FieldStoreOps.OpRemove familyTime) Hsorted).
  - exact (apply_NoDup fs (FieldStoreOps.OpRemove familyTime) Hsorted Hnodup I).
Qed.













(** *** The database *)













End FlushFacts.


(** * Further properties of the code *)

(** ** Memory database: families, metric stores and their ids *)

Section DatabaseBookkeeping.
Context {TI : Type} `{!tagIndexINTF TI} `{!Platform}.

Implicit Types (md : MemoryDatabase.t TI) (ms : MetricStore.t TI).




(** X2.  A successful [Write] makes the family of the point the last
    written one; the family joins the families in memory unless it was
    the last written one already, and no other family joins or leaves. *)
Theorem Write_success_records_family md (metric : Metric) (now : Z) :
  snd (MemoryDatabase.Write md metric now) = None →
  let familyTime := MemoryDatabase.familyTimeOf md (Metric_Timestamp metric) in
  let md' := fst (MemoryDatabase.Write md metric now) in
  MemoryDatabase.lastWroteFamilyTime md' = familyTime
  ∧ MemoryDatabase.familyTimes md'
    = (if bool_decide (MemoryDatabase.lastWroteFamilyTime md = familyTime)
       then MemoryDatabase.familyTimes md
       else {[ familyTime ]} ∪ MemoryDatabase.familyTimes md)
  ∧ (∀ other, other ≠ familyTime →
       other ∈ MemoryDatabase.Families md' ↔ other ∈ MemoryDatabase.Families md).
Proof.
  unfold MemoryDatabase.Write, MemoryDatabase.familyTimeOf.
  pose proof (getOrCreateMStore_spec md (Metric_Name metric)
                (Sum64String (Metric_Name metric)) now) as Hcreate.
  destruct (MemoryDatabase.getOrCreateMStore md (Metric_Name metric)
              (Sum64String (Metric_Name metric)) now) as [md1 mStore].
  simpl in Hcreate. destruct Hcreate as (Hfam & Hlast & Hint & _).
  rewrite Hint.
  destruct (MetricStore.Write mStore metric _) as [[mStore' writtenSize] err].
  simpl. intros ->. unfold MemoryDatabase.addFamilyTime. simpl. rewrite Hlast.
  case_bool_decide as Hsame; simpl; (split; [done |]); rewrite Hfam;
    (split; [done |]); intros other Hother; rewrite !elem_of_Families; simpl;
    rewrite ?Hfam; [done |].
  rewrite elem_of_union, elem_of_singleton. tauto.
Qed.

Lemma CountMetrics_insert (buckets : list (gmap Z (MetricStore.t TI)))
    (i : nat) bkt (hash : Z) ms :
  buckets !! i = Some bkt →
  foldr (λ b counter, Z.of_nat (size b) + counter) 0
    (<[i := <[hash := ms]> bkt]> buckets)
  = foldr (λ b counter, Z.of_nat (size b) + counter) 0 buckets
    + match bkt !! hash with Some _ => 0 | None => 1 end.
Proof.
  revert i. induction buckets as [|b buckets IH]; intros i Hi; [done |].
  destruct i as [|i]; simpl in Hi.
  - injection Hi as ->. cbn -[Z.of_nat Z.add]. rewrite map_size_insert.
    destruct (bkt !! hash); unfold id; rewrite ?Nat2Z.inj_succ; lia.
  - simpl. rewrite (IH i Hi). lia.
Qed.

Lemma putMStore_CountMetrics md (hash : Z) ms :
  Props.bucketsInPlace md →
  MemoryDatabase.CountMetrics (MemoryDatabase.putMStore md hash ms)
  = MemoryDatabase.CountMetrics md
    + match MemoryDatabase.getMStoreByMetricHash md hash with
      | Some _ => 0
      | None => 1
      end.
Proof.
  intros Hwf. unfold MemoryDatabase.CountMetrics, MemoryDatabase.putMStore,
    MemoryDatabase.getMStoreByMetricHash, MemoryDatabase.getBucket. simpl.
  destruct (lookup_lt_is_Some_2 (MemoryDatabase.mStoresList md)
              (MemoryDatabase.bucketIndex hash)) as [bkt Hbkt].
  { by apply bucketIndex_in_range. }
  rewrite Hbkt. simpl. by apply CountMetrics_insert.
Qed.

(** X3.  [Write] adds one metric store to the database when the name of
    the metric had none, whether the write then succeeds or not, and
    leaves the count of metric stores alone otherwise. *)
Theorem Write_CountMetrics md (metric : Metric) (now : Z) :
  Props.bucketsInPlace md →
  MemoryDatabase.CountMetrics (fst (MemoryDatabase.Write md metric now))
  = MemoryDatabase.CountMetrics md
    + match MemoryDatabase.getMStore md (Metric_Name metric) with
      | Some _ => 0
      | None => 1
      end.
Proof.
  intros Hwf. unfold MemoryDatabase.Write, MemoryDatabase.getMStore.
  set (hash := Sum64String (Metric_Name metric)).
  assert (∃ md1 mStore,
            MemoryDatabase.getOrCreateMStore md (Metric_Name metric) hash now
            = (md1, mStore)
            ∧ Props.bucketsInPlace md1
            ∧ is_Some (MemoryDatabase.getMStoreByMetricHash md1 hash)
            ∧ MemoryDatabase.CountMetrics md1
              = MemoryDatabase.CountMetrics md
                + match MemoryDatabase.getMStoreByMetricHash md hash with
                  | Some _ => 0
                  | None => 1
                  end) as (md1 & mStore & -> & Hwf1 & Hknown & Hcount).
  { unfold MemoryDatabase.getOrCreateMStore.
    destruct (MemoryDatabase.getMStoreByMetricHash md hash) as [known|] eqn:Hget.
    - exists md, known. rewrite Hget. split_and!; [done | done | by eexists | simpl; lia].
    - pose proof Hget as Hbkt. unfold MemoryDatabase.getMStoreByMetricHash in Hbkt.
      rewrite Hbkt. eexists _, _. split; [done |].
      set (fresh := MetricStore.newMetricStore _ now).
      pose proof (putMStore_bucketsInPlace md hash fresh Hwf) as Hwf1.
      pose proof (getMStore_putMStore md hash fresh Hwf) as Hget1.
      pose proof (putMStore_CountMetrics md hash fresh Hwf) as Hcount1.
      rewrite Hget in Hcount1.
      split_and!; [exact Hwf1 | exists fresh; exact Hget1 | exact Hcount1]. }
  destruct (MetricStore.Write mStore metric _) as [[mStore' writtenSize] err].
  pose proof (putMStore_CountMetrics md1 hash mStore' Hwf1) as Hput.
  destruct Hknown as [known Hknown]. rewrite Hknown in Hput.
  destruct err; simpl; unfold MemoryDatabase.addFamilyTime; try case_bool_decide;
    unfold MemoryDatabase.CountMetrics in *; simpl in *; lia.
Qed.

(** X4.  After the [Write] that creates the metric store of a name, the
    store is found under the metric id the generator gave to the name as
    well as under the name. *)
Theorem Write_new_metric_found_by_id md (metric : Metric) (now : Z) :
  Props.bucketsInPlace md →
  MemoryDatabase.getMStore md (Metric_Name metric) = None →
  let md' := fst (MemoryDatabase.Write md metric now) in
  is_Some (MemoryDatabase.getMStore md' (Metric_Name metric))
  ∧ MemoryDatabase.getMStoreByMetricID md'
      (GenMetricID (MemoryDatabase.generator md) (Metric_Name metric))
    = MemoryDatabase.getMStore md' (Metric_Name metric).
Proof.
  intros Hwf Hnone. unfold MemoryDatabase.Write, MemoryDatabase.getMStore in *.
  set (hash := Sum64String (Metric_Name metric)) in *.
  unfold MemoryDatabase.getOrCreateMStore. rewrite Hnone.
  pose proof Hnone as Hbkt. unfold MemoryDatabase.getMStoreByMetricHash in Hbkt.
  rewrite Hbkt.
  set (fresh := MetricStore.newMetricStore _ now).
  pose proof (putMStore_bucketsInPlace md hash fresh Hwf) as Hwf1.
  destruct (MetricStore.Write fresh metric _) as [[mStore' writtenSize] err].
  match goal with
  | |- context [MemoryDatabase.putMStore ?md1 hash mStore'] =>
      pose proof (getMStore_putMStore md1 hash mStore' Hwf1) as Hget
  end.
  unfold MemoryDatabase.getMStoreByMetricID.
  destruct err; simpl; unfold MemoryDatabase.addFamilyTime; try case_bool_decide;
    unfold MemoryDatabase.getMStoreByMetricHash, MemoryDatabase.getBucket in *;
    simpl in *; rewrite lookup_insert_eq; rewrite Hget; (split; [by eexists | done]).
Qed.

End DatabaseBookkeeping.

(** The sample database has its four buckets. *)
Lemma db0_bucketsInPlace : Props.bucketsInPlace Sample.db0.
Proof. split; [exists 2; split; [lia | reflexivity] | reflexivity]. Qed.

(** Witness of X2: the first write into the sample database succeeds and
    records the family of one hour. *)
Lemma Write_success_records_family_witness :
  snd (MemoryDatabase.Write Sample.db0 (Sample.cpuAt Sample.oneHour) 100) = None
  ∧ MemoryDatabase.lastWroteFamilyTime
      (fst (MemoryDatabase.Write Sample.db0 (Sample.cpuAt Sample.oneHour) 100))
    = Sample.oneHour
  ∧ Sample.oneHour
    ∈ MemoryDatabase.familyTimes
        (fst (MemoryDatabase.Write Sample.db0 (Sample.cpuAt Sample.oneHour) 100)).
Proof.
  assert (snd (MemoryDatabase.Write Sample.db0 (Sample.cpuAt Sample.oneHour) 100) = None)
    as Hok by (vm_compute; reflexivity).
  destruct (Write_success_records_family Sample.db0 (Sample.cpuAt Sample.oneHour) 100 Hok)
    as (Hlast & Hfamilies & _).
  split; [exact Hok |]. split; [exact Hlast |].
  rewrite Hfamilies. apply elem_of_union_l, elem_of_singleton. reflexivity.
Defined.

(** Witness of X3: the first write of [cpu] into the sample database
    makes one metric store, the second none. *)
Lemma Write_CountMetrics_witness :
  Props.bucketsInPlace Sample.db0
  ∧ Props.bucketsInPlace Sample.cpuDb
  ∧ MemoryDatabase.CountMetrics Sample.cpuDb = 1
  ∧ MemoryDatabase.CountMetrics
      (fst (MemoryDatabase.Write Sample.cpuDb (Sample.cpuAt Sample.oneHour) 101)) = 1.
Proof.
  assert (Props.bucketsInPlace Sample.cpuDb) as Hwf.
  { split; [exists 2; split; [lia | reflexivity] | reflexivity]. }
  split; [exact db0_bucketsInPlace |]. split; [exact Hwf |]. split.
  - exact (Write_CountMetrics Sample.db0 (Sample.cpuAt Sample.oneHour) 100
             db0_bucketsInPlace).
  - exact (Write_CountMetrics Sample.cpuDb (Sample.cpuAt Sample.oneHour) 101 Hwf).
Defined.

(** Witness of X4: metric [cpu], to which the sample generator gives the
    id 3, is found under that id after its first write. *)
Lemma Write_new_metric_found_by_id_witness :
  Props.bucketsInPlace Sample.db0
  ∧ MemoryDatabase.getMStore Sample.db0 "cpu" = None
  ∧ is_Some (MemoryDatabase.getMStore Sample.cpuDb "cpu")
  ∧ MemoryDatabase.getMStoreByMetricID Sample.cpuDb 3
    = MemoryDatabase.getMStore Sample.cpuDb "cpu".
Proof.
  split; [exact db0_bucketsInPlace |]. split; [reflexivity |].
  exact (Write_new_metric_found_by_id Sample.db0 (Sample.cpuAt Sample.oneHour) 100
           db0_bucketsInPlace eq_refl).
Defined.

(** ** Metric store: field metas, versions and sizes *)

Section MetricStoreBookkeeping.
Context {TI : Type} `{!tagIndexINTF TI}.

Implicit Types (ms : MetricStore.t TI).

Lemma GetFromName_None (fmList : Metas.t) (fieldName : string) :
  Metas.GetFromName fmList fieldName = None → fieldName ∉ Meta_Name <$> fmList.
Proof.
  unfold Metas.GetFromName. induction fmList as [|m fmList IH]; simpl.
  - intros _ Hin. by apply elem_of_nil in Hin.
  - case_bool_decide as Hname; [done |]. intros Hrest.
    apply not_elem_of_cons. split; [congruence | by apply IH].
Qed.

Lemma GetFromName_Insert (fmList : Metas.t) (m : Meta) :
  Metas.GetFromName fmList (Meta_Name m) = None →
  Metas.GetFromName (Metas.Insert fmList m) (Meta_Name m) = Some m.
Proof.
  unfold Metas.GetFromName, Metas.Insert.
  induction fmList as [|m' fmList IH]; simpl.
  - by rewrite bool_decide_true.
  - case_bool_decide; [done | exact IH].
Qed.

(** X5.  Once [GetFieldIDOrGenerate] has answered with a field id, the
    same name and type get the same id again without the generator being
    asked and without the store changing, and the same name with another
    type gets [ErrWrongFieldType]. *)
Theorem GetFieldIDOrGenerate_again ms (fieldName : string) (fieldType : fieldType)
    (generator : IDGenerator) (fieldID : Z) :
  snd (MetricStore.GetFieldIDOrGenerate ms fieldName fieldType generator) = Ok fieldID →
  let ms' := fst (MetricStore.GetFieldIDOrGenerate ms fieldName fieldType generator) in
  ∀ other : IDGenerator,
    MetricStore.GetFieldIDOrGenerate ms' fieldName fieldType other = (ms', Ok fieldID)
    ∧ ∀ otherType, otherType ≠ fieldType →
        MetricStore.GetFieldIDOrGenerate ms' fieldName otherType other
        = (ms', Err ErrWrongFieldType).
Proof.
  unfold MetricStore.GetFieldIDOrGenerate, MetricStore.getFieldIDOrGenerate.
  destruct (Metas.GetFromName (MetricStore.fieldsMetas ms) fieldName) as [fm|] eqn:Hfound.
  - case_bool_decide as Htype; simpl; [|done]. intros [= <-] other. simpl.
    rewrite Hfound, bool_decide_true by done. split; [done |].
    intros otherType Hother. rewrite bool_decide_false by congruence. done.
  - destruct (constants.TStoreMaxFieldsCount <=? _); [done |].
    destruct (GenFieldID generator _ fieldName fieldType) as [newFieldID|e]; [|done].
    simpl. intros [= <-] other. simpl. unfold Metas.Clone.
    pose proof (GetFromName_Insert (MetricStore.fieldsMetas ms)
                  {| Meta_Name := fieldName; Meta_ID := newFieldID;
                     Meta_Type := fieldType |} Hfound) as Hnew.
    simpl in Hnew. rewrite Hnew. simpl. rewrite bool_decide_true by done.
    split; [done |]. intros otherType Hother.
    rewrite bool_decide_false by congruence. done.
Qed.

(** X6.  [GetFieldIDOrGenerate] only ever appends to the field-meta list:
    the list before the call is a prefix of the list after it, a list
    within [TStoreMaxFieldsCount] stays within it, names that were
    distinct stay distinct, and a call that returns an error leaves the
    list as it was. *)
Theorem GetFieldIDOrGenerate_appends ms (fieldName : string) (fieldType : fieldType)
    (generator : IDGenerator) :
  let fmList := MetricStore.fieldsMetas ms in
  let fmList' :=
    MetricStore.fieldsMetas
      (fst (MetricStore.GetFieldIDOrGenerate ms fieldName fieldType generator)) in
  fmList `prefix_of` fmList'
  ∧ (Metas.Len fmList ≤ constants.TStoreMaxFieldsCount →
     Metas.Len fmList' ≤ constants.TStoreMaxFieldsCount)
  ∧ (NoDup (Meta_Name <$> fmList) → NoDup (Meta_Name <$> fmList'))
  ∧ (is_err (snd (MetricStore.GetFieldIDOrGenerate ms fieldName fieldType generator))
     = true → fmList' = fmList).
Proof.
  unfold MetricStore.GetFieldIDOrGenerate, MetricStore.getFieldIDOrGenerate.
  destruct (Metas.GetFromName (MetricStore.fieldsMetas ms) fieldName) as [fm|] eqn:Hfound.
  { case_bool_decide; simpl; done. }
  destruct (Z.leb_spec constants.TStoreMaxFieldsCount
              (Metas.Len (MetricStore.fieldsMetas ms))) as [Hfull|Hroom]; [done |].
  destruct (GenFieldID generator _ fieldName fieldType) as [newFieldID|e]; [|done].
  simpl. unfold Metas.Clone, Metas.Insert, Metas.Len in *. split_and!.
  - by apply prefix_app_r.
  - intros _. rewrite length_app. simpl. lia.
  - intros Hnodup. rewrite fmap_app. simpl.
    apply NoDup_app. split; [done |]. split; [|apply NoDup_singleton].
    intros name Hin ->%list_elem_of_singleton.
    by apply (GetFromName_None _ _ Hfound).
  - done.
Qed.

(** X7.  [FlushMetricsDataTo] always leaves the placeholder in the
    immutable slot, also when the flusher fails: a [ResetVersion] right
    after it is accepted and promotes the index that was mutable. *)
Theorem FlushMetricsDataTo_frees_immutable ms (flusher : Flusher)
    (flushCtx : flushContext) (now : Z) :
  let ms' := fst (fst (fst (MetricStore.FlushMetricsDataTo ms flusher flushCtx))) in
  MetricStore.atomicGetImmutable ms' = None
  ∧ snd (MetricStore.ResetVersion ms' now) = None
  ∧ MetricStore.immutable (fst (fst (MetricStore.ResetVersion ms' now)))
    = MetricStore.Stored (MetricStore.mutable ms').
Proof.
  unfold MetricStore.FlushMetricsDataTo.
  destruct (FlushVersionDataTo (MetricStore.mutable ms) _ flushCtx)
    as [[mutable' fl2] flushedSize].
  destruct (MetricStore.atomicGetImmutable ms) as [index|].
  - destruct (FlushVersionDataTo index fl2 flushCtx) as [[index' fl3] more].
    simpl. unfold MetricStore.ResetVersion, MetricStore.atomicGetImmutable. simpl. done.
  - simpl. unfold MetricStore.ResetVersion, MetricStore.atomicGetImmutable. simpl. done.
Qed.

Lemma int32_wraps (z : Z) : (2 ^ 32 | Int.int32 z - z).
Proof.
  unfold Int.int32. exists (- ((z + 2 ^ 31) / 2 ^ 32)).
  pose proof (Z.div_mod (z + 2 ^ 31) (2 ^ 32) ltac:(lia)). lia.
Qed.

Lemma int64_wraps (z : Z) : (2 ^ 32 | Int.int64 z - z).
Proof.
  unfold Int.int64. exists (- (2 ^ 32 * ((z + 2 ^ 63) / 2 ^ 64))).
  pose proof (Z.div_mod (z + 2 ^ 63) (2 ^ 64) ltac:(lia)). lia.
Qed.

Lemma add32_wraps (cell delta : Z) : (2 ^ 32 | Int.add32 cell delta - (cell + delta)).
Proof. apply int32_wraps. Qed.

(** What [Write] adds to the size cell of the store is what it returns,
    up to the wrap of the 32-bit cell. *)
Lemma MetricStore_Write_size ms (metric : Metric) (writeCtx : writeContext) :
  let result := MetricStore.Write ms metric writeCtx in
  (2 ^ 32 | MetricStore.size (fst (fst result)) - MetricStore.size ms - snd (fst result)).
Proof.
  unfold MetricStore.Write. destruct (MetricStore.isFull ms).
  { simpl. exists 0. lia. }
  destruct (GetTStore _ _) as [tStore|].
  - destruct (WriteTStore _ _ _ _ _) as [[[mutable' fmList] w] err]. simpl.
    destruct (add32_wraps (MetricStore.size ms) (Int.int32 w)) as [k1 Hk1].
    destruct (int32_wraps w) as [k2 Hk2].
    destruct (int64_wraps (w + 0)) as [k3 Hk3].
    exists (k1 + k2 - k3). lia.
  - destruct (GetOrCreateTStore _ _ _) as [mutable' [[tStore createdSize]|e]].
    + simpl. destruct (WriteTStore _ _ _ _ _) as [[[mutable'' fmList] w] err]. simpl.
      destruct (add32_wraps (MetricStore.size ms) (Int.int32 createdSize)) as [k1 Hk1].
      destruct (int32_wraps createdSize) as [k2 Hk2].
      destruct (add32_wraps (Int.add32 (MetricStore.size ms) (Int.int32 createdSize))
                  (Int.int32 w)) as [k3 Hk3].
      destruct (int32_wraps w) as [k4 Hk4].
      destruct (int64_wraps (w + createdSize)) as [k5 Hk5].
      exists (k1 + k2 + k3 + k4 - k5). lia.
    + simpl. exists 0. lia.
Qed.

End MetricStoreBookkeeping.

(** ** Memory database: the size counter on writes *)

Section DatabaseSizes.
Context {TI : Type} `{!tagIndexINTF TI} `{!Platform}.

Implicit Types (md : MemoryDatabase.t TI) (ms : MetricStore.t TI).

(** X8.  On every [Write], failed or not, the size counter of the
    database moves by what the size cell of the metric store moves by,
    plus the [MemSize] of the store when the write created it; the two
    sides are equal up to the wrap of the 32-bit counters. *)
Theorem Write_sizes_in_step md (metric : Metric) (now : Z) :
  Props.bucketsInPlace md →
  let md' := fst (MemoryDatabase.Write md metric now) in
  let fresh :=
    MetricStore.newMetricStore
      (GenMetricID (MemoryDatabase.generator md) (Metric_Name metric)) now in
  let before := default fresh (MemoryDatabase.getMStore md (Metric_Name metric)) in
  let created :=
    match MemoryDatabase.getMStore md (Metric_Name metric) with
    | Some _ => 0
    | None => MetricStore.MemSize fresh
    end in
  ∃ ms',
    MemoryDatabase.getMStore md' (Metric_Name metric) = Some ms'
    ∧ (2 ^ 32 | (MemoryDatabase.size md' - MemoryDatabase.size md)
                - created - (MetricStore.size ms' - MetricStore.size before)).
Proof.
  intros Hwf. unfold MemoryDatabase.Write, MemoryDatabase.getMStore.
  set (hash := Sum64String (Metric_Name metric)).
  unfold MemoryDatabase.getOrCreateMStore.
  destruct (MemoryDatabase.getMStoreByMetricHash md hash) as [known|] eqn:Hget.
  - match goal with
    | |- context [MetricStore.Write known metric ?ctx] =>
        pose proof (MetricStore_Write_size known metric ctx) as [k Hk];
        destruct (MetricStore.Write known metric ctx) as [[mStore' w] err]
    end.
    simpl in Hk. exists mStore'.
    pose proof (getMStore_putMStore md hash mStore' Hwf) as Hput.
    destruct (add32_wraps (MemoryDatabase.size md) (Int.int32 w)) as [k1 Hk1].
    destruct (int32_wraps w) as [k2 Hk2].
    destruct err; simpl; unfold MemoryDatabase.addFamilyTime; try case_bool_decide;
      unfold MemoryDatabase.getMStoreByMetricHash, MemoryDatabase.getBucket in *;
      simpl in *; (split; [exact Hput |]); exists (k1 + k2 - k); lia.
  - pose proof Hget as Hbkt. unfold MemoryDatabase.getMStoreByMetricHash in Hbkt.
    rewrite Hbkt.
    set (fresh := MetricStore.newMetricStore _ now).
    pose proof (putMStore_bucketsInPlace md hash fresh Hwf) as Hwf1.
    match goal with
    | |- context [MetricStore.Write fresh metric ?ctx] =>
        pose proof (MetricStore_Write_size fresh metric ctx) as [k Hk];
        destruct (MetricStore.Write fresh metric ctx) as [[mStore' w] err]
    end.
    simpl in Hk. exists mStore'.
    match goal with
    | |- context [MemoryDatabase.putMStore ?md1 hash mStore'] =>
        pose proof (getMStore_putMStore md1 hash mStore' Hwf1) as Hput
    end.
    destruct (add32_wraps (MemoryDatabase.size md)
                (Int.int32 (MetricStore.MemSize fresh))) as [k0 Hk0].
    destruct (int32_wraps (MetricStore.MemSize fresh)) as [k3 Hk3].
    destruct (add32_wraps
                (Int.add32 (MemoryDatabase.size md)
                   (Int.int32 (MetricStore.MemSize fresh)))
                (Int.int32 w)) as [k1 Hk1].
    destruct (int32_wraps w) as [k2 Hk2].
    destruct err; simpl; unfold MemoryDatabase.addFamilyTime; try case_bool_decide;
      unfold MemoryDatabase.getMStoreByMetricHash, MemoryDatabase.getBucket in *;
      simpl in *; (split; [exact Hput |]); exists (k0 + k3 + k1 + k2 - k); lia.
Qed.

End DatabaseSizes.

(** Witness of X8: the first write of [cpu] into the sample database;
    nothing wraps, the counter grows by the new store and what was
    written into it. *)
Lemma Write_sizes_in_step_witness :
  Props.bucketsInPlace Sample.db0
  ∧ ∃ ms',
      MemoryDatabase.getMStore Sample.cpuDb "cpu" = Some ms'
      ∧ (2 ^ 32 | (MemoryDatabase.size Sample.cpuDb - MemoryDatabase.size Sample.db0)
                  - MetricStore.MemSize (MetricStore.newMetricStore 3 100)
                  - (MetricStore.size ms'
                     - MetricStore.size (MetricStore.newMetricStore 3 100))).
Proof.
  split; [exact db0_bucketsInPlace |].
  exact (Write_sizes_in_step Sample.db0 (Sample.cpuAt Sample.oneHour) 100
           db0_bucketsInPlace).
Defined.

(** Witness of X5: a new metric store gives field [f1] the id 1 of the
    sample generator; asked again, with a generator that refuses every
    field, it answers 1 for the sum type and [ErrWrongFieldType] for the
    max type. *)
Lemma GetFieldIDOrGenerate_again_witness :
  let ms := MetricStore.newMetricStore (TI := TagIndex.t) 3 100 in
  snd (MetricStore.GetFieldIDOrGenerate ms "f1" SumField Sample.generator) = Ok 1
  ∧ let ms' := fst (MetricStore.GetFieldIDOrGenerate ms "f1" SumField Sample.generator) in
    snd (MetricStore.GetFieldIDOrGenerate ms' "f1" SumField Sample.strict) = Ok 1
    ∧ snd (MetricStore.GetFieldIDOrGenerate ms' "f1" MaxField Sample.strict)
      = Err ErrWrongFieldType.
Proof.
  intros ms. split; [reflexivity |]. intros ms'.
  destruct (GetFieldIDOrGenerate_again ms "f1" SumField Sample.generator 1 eq_refl
              Sample.strict) as [Hsame Hother].
  fold ms' in Hsame, Hother. split.
  - exact (f_equal snd Hsame).
  - exact (f_equal snd (Hother MaxField ltac:(discriminate))).
Defined.

(** ** Field store: one family at a time *)

Section FieldStoreFamilies.

Implicit Types (fs : FieldStore.t) (s : SStore.t).

Lemma NoDup_fmap_same {A B} (f : A → B) (l : list A) (x y : A) :
  NoDup (f <$> l) → x ∈ l → y ∈ l → f x = f y → x = y.
Proof.
  induction l as [|a l IH]; simpl; intros Hnodup Hx Hy Hf.
  - by apply elem_of_nil in Hx.
  - apply NoDup_cons in Hnodup as [Hnotin Hnodup].
    apply elem_of_cons in Hx as [->|Hx], Hy as [->|Hy]; [done | | |by apply IH].
    + destruct Hnotin. rewrite Hf. apply list_elem_of_fmap. by exists y.
    + destruct Hnotin. rewrite <- Hf. apply list_elem_of_fmap. by exists x.
Qed.

(** On a store in order, [GetSStore] returns a segment exactly when it is
    the segment of that family in the list. *)
Lemma GetSStore_unique fs (familyTime : Z) s :
  Props.inOrder fs →
  FieldStore.GetSStore fs familyTime = Some s
  ↔ s ∈ FieldStore.sStoreNodes fs ∧ SStore.GetFamilyTime s = familyTime.
Proof.
  intros [Hsorted Hnodup].
  destruct (GetSStore_found fs familyTime Hsorted) as [Hsome Hfound]. split.
  - apply Hfound.
  - intros [Hin Hft].
    assert (is_Some (FieldStore.GetSStore fs familyTime)) as [s' Hs'].
    { apply Hsome. unfold FieldStoreOps.familyTimes. apply list_elem_of_fmap.
      by exists s. }
    destruct (Hfound s' Hs') as [Hin' Hft']. rewrite Hs'. f_equal.
    apply (NoDup_fmap_same SStore.GetFamilyTime (FieldStore.sStoreNodes fs));
      [exact Hnodup | done | done | congruence].
Qed.

(** Two stores in order whose lists hold the same segments of a family
    answer [GetSStore] for it alike. *)
Lemma GetSStore_same_segments fs fs' (familyTime : Z) :
  Props.inOrder fs → Props.inOrder fs' →
  (∀ s, SStore.GetFamilyTime s = familyTime →
        s ∈ FieldStore.sStoreNodes fs' ↔ s ∈ FieldStore.sStoreNodes fs) →
  FieldStore.GetSStore fs' familyTime = FieldStore.GetSStore fs familyTime.
Proof.
  intros Horder Horder' Hsame. apply option_eq. intros s.
  rewrite !GetSStore_unique by done. split; intros [Hin Hft]; (split; [|done]);
    by apply (Hsame s Hft).
Qed.

(** X9.  [Write] of a sum field into a store in order touches the
    segment of the family of the write context only: afterwards the
    store has a segment of that family, one segment more than before when
    it had none and as many otherwise, and [GetSStore] answers for every
    other family as it did before. *)
Theorem FieldStore_Write_one_family fs (fieldName : string) (value : float)
    (writeCtx : writeContext) :
  Props.inOrder fs →
  let familyTime := wc_familyTime writeCtx in
  let fs' :=
    fst (FieldStore.Write fs
           {| Field_Name := fieldName; Field_Field := Field_Sum value |} writeCtx) in
  is_Some (FieldStore.GetSStore fs' familyTime)
  ∧ FieldStore.SegmentsCount fs'
    = FieldStore.SegmentsCount fs
      + match FieldStore.GetSStore fs familyTime with Some _ => 0 | None => 1 end
  ∧ ∀ other, other ≠ familyTime →
      FieldStore.GetSStore fs' other = FieldStore.GetSStore fs other.
Proof.
  intros Horder. cbv zeta.
  pose proof (FieldStore_Write_inOrder fs
                {| Field_Name := fieldName; Field_Field := Field_Sum value |}
                writeCtx Horder) as Horder'.
  revert Horder'.
  unfold FieldStore.Write, FieldStore.GetSStore at 2, FieldStore.SegmentsCount.
  simpl Field_Field. cbv beta iota.
  destruct (FieldStore.locate fs (wc_familyTime writeCtx)) as [[idx s]|] eqn:Hlocate.
  - apply locate_Some in Hlocate as [Hidx Hft].
    pose proof (WriteFloat_familyTime s value writeCtx) as Hsame.
    destruct (SStore.WriteFloat s value writeCtx) as [written grown].
    simpl in Hsame. simpl. intros Horder'.
    assert (idx < length (FieldStore.sStoreNodes fs))%nat as Hlt
      by (by apply lookup_lt_Some in Hidx).
    split_and!.
    + exists written. apply GetSStore_unique; [done |]. simpl.
      split; [by apply list_elem_of_insert | congruence].
    + rewrite length_insert. lia.
    + intros other Hother. apply GetSStore_same_segments; [done | done |].
      intros s0 Hs0. simpl. split.
      * intros [j Hj]%list_elem_of_lookup.
        apply list_lookup_insert_Some in Hj as [(-> & <- & _)|[Hne Hj]];
          [congruence | by apply list_elem_of_lookup_2 in Hj].
      * intros [j Hj]%list_elem_of_lookup.
        apply (list_elem_of_lookup_2 _ j), list_lookup_insert_Some. right.
        split; [|done]. intros ->. congruence.
  - pose proof (WriteFloat_familyTime
                  (SStore.newSimpleFieldStore (wc_familyTime writeCtx) AggSum)
                  value writeCtx) as Hsame.
    destruct (SStore.WriteFloat _ value writeCtx) as [written grown].
    simpl in Hsame. simpl. intros Horder'.
    destruct (Sort_sorted (FieldStore.sStoreNodes fs ++ [written])) as [_ Hperm].
    split_and!.
    + exists written. apply GetSStore_unique; [done |]. simpl.
      split; [|done]. rewrite Hperm. apply elem_of_app. right. by left.
    + rewrite Hperm, length_app. simpl. lia.
    + intros other Hother. apply GetSStore_same_segments; [done | done |].
      intros s0 Hs0. simpl. rewrite Hperm, elem_of_app, list_elem_of_singleton.
      split; [intros [Hin | ->]; [done | congruence] | by left].
Qed.

(** X10.  [FlushFieldTo] on a store in order takes out the segment of the
    flushed family and nothing else: [GetSStore] answers for every other
    family as before, the segment count drops by one when the family had
    a segment, and the flusher is handed at most one block, under the id
    of the field; when the family has no segment nothing changes and 0 is
    returned. *)
Theorem FlushFieldTo_one_family fs (flusher : Flusher) (familyTime : Z) :
  Props.inOrder fs →
  let result := FieldStore.FlushFieldTo fs flusher familyTime in
  let fs' := fst (fst result) in
  (∀ other, other ≠ familyTime →
     FieldStore.GetSStore fs' other = FieldStore.GetSStore fs other)
  ∧ FieldStore.SegmentsCount fs'
    = FieldStore.SegmentsCount fs
      - match FieldStore.GetSStore fs familyTime with Some _ => 1 | None => 0 end
  ∧ (flushed (snd (fst result)) = flushed flusher
     ∨ ∃ block,
         flushed (snd (fst result))
         = flushed flusher ++ [EvField (FieldStore.fieldID fs) block])
  ∧ (FieldStore.GetSStore fs familyTime = None → result = (fs, flusher, 0)).
Proof.
  intros Horder. cbv zeta.
  assert (Props.inOrder (fst (fst (FieldStore.FlushFieldTo fs flusher familyTime))))
    as Horder'.
  { rewrite FlushFieldTo_removes. by apply removeSStore_inOrder. }
  revert Horder'.
  unfold FieldStore.FlushFieldTo, FieldStore.SegmentsCount.
  destruct (FieldStore.GetSStore fs familyTime) as [s|] eqn:Hget; simpl.
  2: { intros _. split_and!; [done | lia | by left | done]. }
  unfold FieldStore.GetSStore in Hget.
  destruct (FieldStore.locate fs familyTime) as [[idx s0]|] eqn:Hlocate; [|done].
  injection Hget as ->.
  assert (FieldStore.sStoreNodes (FieldStore.removeSStore fs familyTime)
          = delete idx (FieldStore.sStoreNodes fs)) as Hnodes.
  { revert Hlocate. unfold FieldStore.locate, FieldStore.removeSStore.
    destruct (FieldStore.sStoreNodes fs !! FieldStore.searchIndex fs familyTime)
      as [found|]; [|done].
    case_bool_decide; [done |]. intros [= <- <-]. simpl.
    by rewrite delete_take_drop. }
  apply locate_Some in Hlocate as [Hidx Hft].
  assert (Props.inOrder (FieldStore.removeSStore fs familyTime)) as Hremoved
    by (by apply removeSStore_inOrder).
  assert (∀ other, other ≠ familyTime →
            FieldStore.GetSStore (FieldStore.removeSStore fs familyTime) other
            = FieldStore.GetSStore fs other) as Hothers.
  { intros other Hother. apply GetSStore_same_segments; [done | done |].
    intros s0 Hs0. rewrite Hnodes. split.
    - intros Hin. eapply elem_of_sublist; [exact Hin | apply sublist_delete].
    - intros [j Hj]%list_elem_of_lookup.
      assert (j ≠ idx) as Hne by (intros ->; congruence).
      destruct (decide (j < idx)%nat) as [Hlt|Hge].
      + apply (list_elem_of_lookup_2 _ j). by rewrite list_lookup_delete_lt.
      + destruct j as [|j]; [lia |].
        apply (list_elem_of_lookup_2 _ j). rewrite list_lookup_delete_ge by lia.
        done. }
  assert (Z.of_nat (length (FieldStore.sStoreNodes
                              (FieldStore.removeSStore fs familyTime)))
          = Z.of_nat (length (FieldStore.sStoreNodes fs)) - 1) as Hcount.
  { rewrite Hnodes, length_delete by (by eexists).
    apply lookup_lt_Some in Hidx. lia. }
  destruct (SStore.Bytes s true) as [s' [block|e]]; simpl; intros _;
    (split; [exact Hothers |]); (split; [exact Hcount |]);
    (split; [|done]); [right; by exists block | by left].
Qed.

End FieldStoreFamilies.

(** Witness of X9: the first write into a new field store makes the
    segment of its family. *)
Lemma FieldStore_Write_one_family_witness :
  let fs := FieldStore.newFieldStore 1 in
  let fs' := fst (FieldStore.Write fs Sample.sumField
                    (Sample.ctxAt Sample.generator 3 3600000 0)) in
  Props.inOrder fs
  ∧ is_Some (FieldStore.GetSStore fs' 3600000)
  ∧ FieldStore.SegmentsCount fs' = 1
  ∧ FieldStore.GetSStore fs' 7200000 = None.
Proof.
  intros fs fs'.
  destruct (FieldStore_Write_one_family fs "f1" 1%float
              (Sample.ctxAt Sample.generator 3 3600000 0) (newFieldStore_inOrder 1))
    as (Hsome & Hcount & Hothers).
  split; [exact (newFieldStore_inOrder 1) |]. split; [exact Hsome |].
  split; [exact Hcount |]. exact (Hothers 7200000 ltac:(simpl; lia)).
Defined.

(** Witness of X10: a field store with the segment of one hour, flushed
    for that family, has no segment left and handed one block over. *)
Lemma FlushFieldTo_one_family_witness :
  let fs := fst (FieldStore.Write (FieldStore.newFieldStore 1) Sample.sumField
                   (Sample.ctxAt Sample.generator 3 3600000 0)) in
  let result := FieldStore.FlushFieldTo fs Sample.noFlushErrors 3600000 in
  Props.inOrder fs
  ∧ FieldStore.SegmentsCount (fst (fst result)) = 0
  ∧ (flushed (snd (fst result)) = []
     ∨ ∃ block, flushed (snd (fst result)) = [] ++ [EvField 1 block]).
Proof.
  intros fs result.
  assert (Props.inOrder fs) as Horder
    by apply FieldStore_Write_inOrder, newFieldStore_inOrder.
  destruct (FlushFieldTo_one_family fs Sample.noFlushErrors 3600000 Horder)
    as (_ & Hcount & Hflushed & _).
  split; [exact Horder |]. split; [exact Hcount | exact Hflushed].
Defined.

(** ** Memory database: the tag limits *)

Section Limitations.
Context {TI : Type} `{!tagIndexINTF TI} `{!Platform}.

Implicit Types (md : MemoryDatabase.t TI) (ms : MetricStore.t TI).

Lemma getMStore_putMStore_other md (hash other : Z) ms :
  other ≠ hash →
  MemoryDatabase.getMStoreByMetricHash (MemoryDatabase.putMStore md hash ms) other
  = MemoryDatabase.getMStoreByMetricHash md other.
Proof.
  intros Hne. unfold MemoryDatabase.getMStoreByMetricHash, MemoryDatabase.getBucket,
    MemoryDatabase.putMStore. simpl.
  destruct (decide (MemoryDatabase.bucketIndex hash = MemoryDatabase.bucketIndex other))
    as [Hsame|Hdiff].
  - rewrite <- Hsame.
    destruct (MemoryDatabase.mStoresList md !! MemoryDatabase.bucketIndex hash)
      as [bkt|] eqn:Hbkt.
    + rewrite list_lookup_insert_eq by (by apply lookup_lt_Some in Hbkt). simpl.
      rewrite lookup_insert_ne by congruence.
      unfold MemoryDatabase.getBucket. by rewrite Hbkt.
    + rewrite list_insert_ge by (by apply lookup_ge_None). by rewrite Hbkt.
  - by rewrite list_lookup_insert_ne.
Qed.

(** One round of [setLimitations]. *)
Lemma setLimitation_lookup md (metricName : string) (limit hash : Z) :
  Props.bucketsInPlace md →
  let md' := MemoryDatabase.setLimitation md metricName limit in
  Props.bucketsInPlace md'
  ∧ MemoryDatabase.CountMetrics md' = MemoryDatabase.CountMetrics md
  ∧ MemoryDatabase.getMStoreByMetricHash md' hash
    = if decide (hash = Sum64String metricName)
      then (λ ms, MetricStore.SetMaxTagsLimit ms limit)
             <$> MemoryDatabase.getMStoreByMetricHash md hash
      else MemoryDatabase.getMStoreByMetricHash md hash.
Proof.
  intros Hwf. unfold MemoryDatabase.setLimitation, MemoryDatabase.getMStore.
  destruct (MemoryDatabase.getMStoreByMetricHash md (Sum64String metricName))
    as [mStore|] eqn:Hget; simpl.
  - split; [by apply putMStore_bucketsInPlace |]. split.
    + rewrite putMStore_CountMetrics, Hget by done. lia.
    + destruct (decide (hash = Sum64String metricName)) as [->|Hne].
      * rewrite getMStore_putMStore, Hget by done. done.
      * by apply getMStore_putMStore_other.
  - split; [done |]. split; [done |].
    destruct (decide (hash = Sum64String metricName)) as [->|Hne]; [|done].
    by rewrite Hget.
Qed.

Lemma setLimitations_rounds (rounds : list (string * Z)) md :
  Props.bucketsInPlace md →
  let md' :=
    foldl (λ md (kv : string * Z), MemoryDatabase.setLimitation md (fst kv) (snd kv))
      md rounds in
  Props.bucketsInPlace md'
  ∧ MemoryDatabase.CountMetrics md' = MemoryDatabase.CountMetrics md
  ∧ ∀ hash,
      (MemoryDatabase.getMStoreByMetricHash md hash = None →
       MemoryDatabase.getMStoreByMetricHash md' hash = None)
      ∧ ((∀ kv, kv ∈ rounds → Sum64String (fst kv) ≠ hash) →
         MemoryDatabase.getMStoreByMetricHash md' hash
         = MemoryDatabase.getMStoreByMetricHash md hash).
Proof.
  revert md. induction rounds as [|[metricName limit] rounds IH]; intros md Hwf; simpl.
  { split; [done |]. split; [done |]. intros hash. split; done. }
  destruct (setLimitation_lookup md metricName limit 0 Hwf) as (Hwf1 & Hcount1 & _).
  destruct (IH _ Hwf1) as (Hwf' & Hcount' & Hrest).
  split; [done |]. split; [congruence |]. intros hash.
  destruct (setLimitation_lookup md metricName limit hash Hwf) as (_ & _ & Hfirst).
  destruct (Hrest hash) as [Hnone Hother]. split.
  - intros Hmd. apply Hnone. rewrite Hfirst, Hmd. by destruct (decide _).
  - intros Hhashes. rewrite Hother.
    + rewrite Hfirst. destruct (decide _) as [->|]; [|done].
      by destruct (Hhashes (metricName, limit) ltac:(by left)).
    + intros kv Hkv. apply Hhashes. by right.
Qed.

(** X11.  [setLimitations] creates and removes no metric store; a metric
    of the map that has a store gets the limit of the map, provided no
    other name of the map has the same hash (the stores are kept by
    hash). *)
Theorem setLimitations_sets_the_limits md (limitations : gmap string Z) :
  Props.bucketsInPlace md →
  let md' := MemoryDatabase.setLimitations md limitations in
  MemoryDatabase.CountMetrics md' = MemoryDatabase.CountMetrics md
  ∧ (∀ metricName,
       MemoryDatabase.getMStore md metricName = None →
       MemoryDatabase.getMStore md' metricName = None)
  ∧ (∀ metricName limit ms,
       limitations !! metricName = Some limit →
       (∀ other, is_Some (limitations !! other) →
                 Sum64String other = Sum64String metricName → other = metricName) →
       MemoryDatabase.getMStore md metricName = Some ms →
       MemoryDatabase.getMStore md' metricName
       = Some (MetricStore.SetMaxTagsLimit ms limit)).
Proof.
  intros Hwf. unfold MemoryDatabase.setLimitations, MemoryDatabase.getMStore.
  destruct (setLimitations_rounds (map_to_list limitations) md Hwf)
    as (_ & Hcount & Hrounds).
  split; [exact Hcount |]. split.
  { intros metricName. apply Hrounds. }
  intros metricName limit ms Hlimit Hunique Hms.
  apply elem_of_map_to_list in Hlimit.
  pose proof (NoDup_fst_map_to_list limitations) as Hnodup.
  assert (∀ kv, kv ∈ map_to_list limitations →
                Sum64String (fst kv) = Sum64String metricName → fst kv = metricName)
    as Hunique'.
  { intros [other otherLimit] Hkv Hhash. apply Hunique; [|done].
    apply elem_of_map_to_list in Hkv. by eexists. }
  clear Hunique Hcount Hrounds.
  revert md Hwf Hms Hlimit Hnodup Hunique'.
  induction (map_to_list limitations) as [|[first firstLimit] rounds IH];
    intros md Hwf Hms Hlimit Hnodup Hunique.
  { by apply elem_of_nil in Hlimit. }
  simpl. simpl in Hnodup. apply NoDup_cons in Hnodup as [Hnotin Hnodup].
  destruct (setLimitation_lookup md first firstLimit (Sum64String metricName) Hwf)
    as (Hwf1 & _ & Hfirst).
  apply elem_of_cons in Hlimit as [[= <- <-]|Hlimit].
  - destruct (setLimitations_rounds rounds _ Hwf1) as (_ & _ & Hrounds).
    rewrite (proj2 (Hrounds (Sum64String metricName))).
    + rewrite Hfirst, decide_True, Hms by done. done.
    + intros kv Hkv Hhash. destruct Hnotin.
      rewrite <- (Hunique kv ltac:(by right) Hhash).
      apply list_elem_of_fmap. by exists kv.
  - apply IH; [done | | done | done |].
    + rewrite Hfirst. destruct (decide _) as [Hhash|]; [|done].
      destruct Hnotin.
      assert (first = metricName) as ->
        by (apply (Hunique (first, firstLimit)); [by left | done]).
      apply list_elem_of_fmap. by exists (metricName, limit).
    + intros kv Hkv. apply Hunique. by right.
Qed.

End Limitations.

(** The metric store of the sample database after its first write. *)
Lemma cpuDb_has_cpu : is_Some (MemoryDatabase.getMStore Sample.cpuDb "cpu").
Proof.
  unfold Sample.cpuDb, MemoryDatabase.Write, MemoryDatabase.getMStore. simpl Metric_Name.
  pose proof (getOrCreateMStore_spec Sample.db0 "cpu" (Sum64String "cpu") 100)
    as (_ & _ & _ & _ & Hwf & _).
  destruct (MemoryDatabase.getOrCreateMStore Sample.db0 "cpu" (Sum64String "cpu") 100)
    as [md1 mStore].
  destruct (MetricStore.Write mStore _ _) as [[mStore' writtenSize] err].
  exists mStore'.
  pose proof (getMStore_putMStore md1 (Sum64String "cpu") mStore'
                (Hwf db0_bucketsInPlace)) as Hget.
  destruct err; simpl; unfold MemoryDatabase.addFamilyTime; try case_bool_decide;
    exact Hget.
Qed.

(** Witness of X11: the limit of one series for [cpu], and a limit for a
    metric that was never written, on the sample database after one
    write. *)
Lemma setLimitations_sets_the_limits_witness :
  let limitations : gmap string Z := {[ "cpu" := 1; "mem" := 5 ]} in
  let md' := MemoryDatabase.setLimitations Sample.cpuDb limitations in
  Props.bucketsInPlace Sample.cpuDb
  ∧ MemoryDatabase.CountMetrics md' = MemoryDatabase.CountMetrics Sample.cpuDb
  ∧ MemoryDatabase.getMStore md' "mem" = None
  ∧ ∃ ms, MemoryDatabase.getMStore Sample.cpuDb "cpu" = Some ms
          ∧ MemoryDatabase.getMStore md' "cpu"
            = Some (MetricStore.SetMaxTagsLimit ms 1).
Proof.
  intros limitations md'.
  assert (Props.bucketsInPlace Sample.cpuDb) as Hwf.
  { split; [exists 2; split; [lia | reflexivity] | reflexivity]. }
  destruct (setLimitations_sets_the_limits Sample.cpuDb limitations Hwf)
    as (Hcount & Hnone & Hset).
  split; [exact Hwf |]. split; [exact Hcount |].
  assert (MemoryDatabase.getMStore Sample.cpuDb "mem" = None) as Hmem
    by (vm_compute; reflexivity).
  split; [exact (Hnone "mem" Hmem) |].
  destruct cpuDb_has_cpu as [ms Hms].
  exists ms. split; [exact Hms |].
  apply (Hset "cpu" 1 ms); [reflexivity | | exact Hms].
  intros other [otherLimit Hother] Hhash.
  apply lookup_insert_Some in Hother as [[<- _]|[_ Hother]]; [done |].
  apply lookup_singleton_Some in Hother as [<- _]. by vm_compute in Hhash.
Defined.

(** ** Metric store: tag values and series of a version *)

Section TagQueries.
Context {TI : Type} `{!tagIndexINTF TI} `{!tagIndexReaderINTF TI}.

Implicit Types (ms : MetricStore.t TI).

(** Which index [GetTagValues] reads: the mutable one when it has the
    version, else the immutable one when that has it, else none. *)
Lemma GetTagValues_cases ms (tagKeys : list string) (version : Z) (seriesID : gset Z) :
  let result := MetricStore.GetTagValues ms tagKeys version seriesID in
  (Version (MetricStore.mutable ms) = version
   ∧ result = MetricStore.tagValuesFrom (MetricStore.mutable ms) tagKeys seriesID)
  ∨ (Version (MetricStore.mutable ms) ≠ version
     ∧ ∃ index, MetricStore.atomicGetImmutable ms = Some index
                ∧ Version index = version
                ∧ result = MetricStore.tagValuesFrom index tagKeys seriesID)
  ∨ (Version (MetricStore.mutable ms) ≠ version
     ∧ (∀ index, MetricStore.atomicGetImmutable ms = Some index →
                 Version index ≠ version)
     ∧ result = Err ErrNotFound).
Proof.
  unfold MetricStore.GetTagValues.
  case_bool_decide as Hmutable; [by left | right].
  destruct (MetricStore.atomicGetImmutable ms) as [index|]; [|by right].
  case_bool_decide as Himmutable.
  - left. split; [done |]. by exists index.
  - right. split; [done |]. split; [|done]. by intros ? [= <-].
Qed.

Lemma tagValuesFrom_error (found : TI) (tagKeys : list string) (seriesID : gset Z) :
  (is_err (MetricStore.tagValuesFrom found tagKeys seriesID) = true
   ↔ ∃ tagKey, tagKey ∈ tagKeys ∧ GetTagKVEntrySet found tagKey = None)
  ∧ MetricStore.tagValuesFrom found tagKeys seriesID ≠ Err ErrNotFound.
Proof.
  unfold MetricStore.tagValuesFrom.
  destruct (List.find _ tagKeys) as [tagKey|] eqn:Hfind; simpl.
  - apply find_some in Hfind as [Hin Hnone]. split; [|done]. split; [|done].
    intros _. exists tagKey. split; [by apply list_elem_of_In |].
    by destruct (GetTagKVEntrySet found tagKey).
  - split; [|done]. split; [done |]. intros (tagKey & Hin & Hnone).
    apply list_elem_of_In in Hin.
    pose proof (find_none _ _ Hfind tagKey Hin) as Hsome. simpl in Hsome.
    by rewrite Hnone in Hsome.
Qed.

(** X12.  [GetTagValues] answers [ErrNotFound] exactly when the version
    is neither that of the mutable index nor that of an index waiting in
    the immutable slot.  Otherwise it reads the mutable index when that
    has the version, even if the immutable one has it too, and fails
    exactly when one of the tag keys has no entry set in the index it
    reads. *)
Theorem GetTagValues_errors ms (tagKeys : list string) (version : Z)
    (seriesID : gset Z) :
  let result := MetricStore.GetTagValues ms tagKeys version seriesID in
  (result = Err ErrNotFound
   ↔ Version (MetricStore.mutable ms) ≠ version
     ∧ ∀ index, MetricStore.atomicGetImmutable ms = Some index →
                Version index ≠ version)
  ∧ (Version (MetricStore.mutable ms) = version →
     (is_err result = true
      ↔ ∃ tagKey, tagKey ∈ tagKeys
                  ∧ GetTagKVEntrySet (MetricStore.mutable ms) tagKey = None))
  ∧ (∀ index,
       Version (MetricStore.mutable ms) ≠ version →
       MetricStore.atomicGetImmutable ms = Some index →
       Version index = version →
       (is_err result = true
        ↔ ∃ tagKey, tagKey ∈ tagKeys ∧ GetTagKVEntrySet index tagKey = None)).
Proof.
  intros result.
  destruct (GetTagValues_cases ms tagKeys version seriesID)
    as [[Hmutable Hresult]|[(Hmutable & index & Himm & Hversion & Hresult)
                           |(Hmutable & Himm & Hresult)]];
    fold result in Hresult; rewrite Hresult.
  - destruct (tagValuesFrom_error (MetricStore.mutable ms) tagKeys seriesID)
      as [Herr Hfound].
    split_and!; [split; [done | by intros [? _]] | done | done].
  - destruct (tagValuesFrom_error index tagKeys seriesID) as [Herr Hfound].
    split_and!; [split; [done | intros [_ Hno]; by destruct (Hno index Himm)] | done |].
    intros index' _ Himm' _. by simplify_eq.
  - split_and!; [done | done |].
    intros index _ Hindex Hversion. by destruct (Himm index Hindex).
Qed.

Lemma firstValueOf_Some (tagValues : list (string * gset Z)) (seriesID : Z)
    (tagValue : string) :
  MetricStore.firstValueOf tagValues seriesID = Some tagValue →
  ∃ bitmap, (tagValue, bitmap) ∈ tagValues ∧ seriesID ∈ bitmap.
Proof.
  induction tagValues as [|[v bitmap] tagValues IH]; simpl; [done |].
  case_bool_decide as Hin.
  - intros [= <-]. exists bitmap. split; [by left | done].
  - intros (bitmap' & Hv & Hs)%IH. exists bitmap'. split; [by right | done].
Qed.

(** The tag values of a series, key by key. *)
Lemma tagValuesOf_each (found : TI) (tagKeys : list string) (seriesID : Z) :
  MetricStore.tagValuesOf found tagKeys seriesID
  = (λ tagKey,
       match GetTagKVEntrySet found tagKey with
       | None => ""
       | Some entrySet =>
           default ""
             (MetricStore.firstValueOf (map_to_list (values entrySet)) seriesID)
       end) <$> tagKeys.
Proof.
  unfold MetricStore.tagValuesOf.
  match goal with
  | |- foldl ?step [] tagKeys = ?each <$> tagKeys =>
      assert (∀ collected, foldl step collected tagKeys
                           = collected ++ (each <$> tagKeys)) as Hcollected
  end.
  { induction tagKeys as [|tagKey tagKeys IH]; intros collected; simpl.
    - by rewrite app_nil_r.
    - rewrite IH.
      destruct (GetTagKVEntrySet found tagKey) as [entrySet|];
        [destruct (MetricStore.firstValueOf _ seriesID) |]; simpl;
        by rewrite <- app_assoc. }
  apply (Hcollected []).
Qed.

Lemma insert_each_lookup {A} (f : Z → A) (l : list Z) (m : gmap Z A) (k : Z) :
  foldl (λ (acc : gmap Z A) x, <[x := f x]> acc) m l !! k
  = if decide (k ∈ l) then Some (f k) else m !! k.
Proof.
  revert m. induction l as [|x l IH]; intros m; simpl.
  - destruct (decide (k ∈ [])) as [Hin|]; [by apply elem_of_nil in Hin | done].
  - rewrite IH. destruct (decide (k ∈ l)) as [Hin|Hnotin].
    + rewrite decide_True by (by right). done.
    + destruct (decide (k = x)) as [->|Hne].
      * rewrite decide_True by (by left). by rewrite lookup_insert_eq.
      * rewrite decide_False by (by intros [?|?]%elem_of_cons).
        by rewrite lookup_insert_ne.
Qed.

(** X13.  When [GetTagValues] succeeds, its result has one entry for
    each series of the bitmap and no other; each entry lists one value
    per requested tag key, which is the empty string or a value of that
    key, in the index of the version, whose bitmap contains the series. *)
Theorem GetTagValues_shape ms (tagKeys : list string) (version : Z)
    (seriesID : gset Z) (seriesID2TagValues : gmap Z (list string)) :
  MetricStore.GetTagValues ms tagKeys version seriesID = Ok seriesID2TagValues →
  dom seriesID2TagValues = seriesID
  ∧ ∃ found,
      (found = MetricStore.mutable ms ∨ MetricStore.atomicGetImmutable ms = Some found)
      ∧ Version found = version
      ∧ ∀ series tagValues,
          seriesID2TagValues !! series = Some tagValues →
          length tagValues = length tagKeys
          ∧ ∀ i tagKey tagValue,
              tagKeys !! i = Some tagKey → tagValues !! i = Some tagValue →
              tagValue = ""
              ∨ ∃ entrySet bitmap,
                  GetTagKVEntrySet found tagKey = Some entrySet
                  ∧ values entrySet !! tagValue = Some bitmap
                  ∧ series ∈ bitmap.
Proof.
  intros Hok.
  assert (∃ found,
            (found = MetricStore.mutable ms
             ∨ MetricStore.atomicGetImmutable ms = Some found)
            ∧ Version found = version
            ∧ MetricStore.tagValuesFrom found tagKeys seriesID = Ok seriesID2TagValues)
    as (found & Hfound & Hversion & Hfrom).
  { destruct (GetTagValues_cases ms tagKeys version seriesID)
      as [[Hmutable Hresult]|[(Hmutable & index & Himm & Hindex & Hresult)
                             |(_ & _ & Hresult)]];
      rewrite Hok in Hresult; [| |done].
    - exists (MetricStore.mutable ms). split_and!; [by left | done | done].
    - exists index. split_and!; [by right | done | done]. }
  unfold MetricStore.tagValuesFrom in Hfrom.
  destruct (List.find _ tagKeys); [done |]. injection Hfrom as <-.
  split.
  - apply set_eq. intros series. rewrite elem_of_dom.
    rewrite insert_each_lookup. destruct (decide (series ∈ elements seriesID))
      as [Hin|Hnotin].
    + apply elem_of_elements in Hin. split; [done | by eexists].
    + rewrite lookup_empty. split; [by intros [? ?] |].
      intros Hin. by apply elem_of_elements in Hin.
  - exists found. split; [done |]. split; [done |].
    intros series tagValues. rewrite insert_each_lookup.
    destruct (decide (series ∈ elements seriesID)); [|by rewrite lookup_empty].
    intros [= <-]. rewrite tagValuesOf_each. split; [by rewrite length_fmap |].
    intros i tagKey tagValue Hkey. rewrite list_lookup_fmap, Hkey. simpl.
    intros [= <-].
    destruct (GetTagKVEntrySet found tagKey) as [entrySet|]; [|by left].
    destruct (MetricStore.firstValueOf (map_to_list (values entrySet)) series)
      as [tagValue|] eqn:Hfirst; [|by left].
    right. apply firstValueOf_Some in Hfirst as (bitmap & Hvalue & Hseries).
    exists entrySet, bitmap. split; [done |]. split; [|done].
    by apply elem_of_map_to_list in Hvalue.
Qed.

(** X14.  [GetSeriesIDsForTag] never fails, and every bitmap it adds to
    its result, that of the immutable index included, is added under the
    version of the mutable index. *)
Theorem GetSeriesIDsForTag_versions ms (tagKey : string) :
  snd (MetricStore.GetSeriesIDsForTag ms tagKey) = None
  ∧ ∀ version bitmap,
      (version, bitmap) ∈ fst (MetricStore.GetSeriesIDsForTag ms tagKey) →
      version = Version (MetricStore.mutable ms)
      ∧ (IndexGetSeriesIDsForTag (MetricStore.mutable ms) tagKey = Some bitmap
         ∨ ∃ index, MetricStore.atomicGetImmutable ms = Some index
                    ∧ IndexGetSeriesIDsForTag index tagKey = Some bitmap).
Proof.
  unfold MetricStore.GetSeriesIDsForTag, MultiVerSeriesIDSet_Add,
    NewMultiVerSeriesIDSet.
  split; [done |]. simpl. intros version bitmap.
  destruct (IndexGetSeriesIDsForTag (MetricStore.mutable ms) tagKey) as [fromMutable|];
    destruct (MetricStore.atomicGetImmutable ms) as [index|];
    try destruct (IndexGetSeriesIDsForTag index tagKey) as [fromImmutable|] eqn:Himm;
    simpl; rewrite ?elem_of_cons, ?elem_of_nil;
    intros Hin; repeat destruct Hin as [Hin|Hin]; try done; simplify_eq;
    (split; [done |]); eauto.
Qed.

End TagQueries.

(** Witness of X13: the tag values of series 1 of the sample store, whose
    index has version 100, for the tag key [host]. *)
Lemma GetTagValues_shape_witness :
  let tagValues : gmap Z (list string) := {[ 1 := ["1.1.1.1"] ]} in
  MetricStore.GetTagValues Sample.cpuStore ["host"] 100 {[ 1 ]} = Ok tagValues
  ∧ dom tagValues = {[ 1 ]}.
Proof.
  intros tagValues.
  assert (MetricStore.GetTagValues Sample.cpuStore ["host"] 100 {[ 1 ]} = Ok tagValues)
    as Hok by (vm_compute; reflexivity).
  split; [exact Hok |].
  exact (proj1 (GetTagValues_shape Sample.cpuStore ["host"] 100 {[ 1 ]} tagValues Hok)).
Defined.

(** ** Flushing the indexes *)

Section IndexFlushes.
Context {TI : Type} `{!tagIndexINTF TI} `{!tagIndexReaderINTF TI}.

Implicit Types (ms : MetricStore.t TI).

Lemma flushInvertedIndex_keeps (flusher : InvertedFlusher) (tagIndex : TI)
    (tagKey tagValue : string) :
  let flusher' := MetricStore.flushInvertedIndex flusher tagIndex tagKey tagValue in
  Props.tagKeyIDsFlushed (invertedFlushed flusher')
  = Props.tagKeyIDsFlushed (invertedFlushed flusher)
  ∧ flushTagKeyIDFails flusher' = flushTagKeyIDFails flusher.
Proof.
  unfold MetricStore.flushInvertedIndex.
  destruct (GetTagKVEntrySet tagIndex tagKey) as [entrySet|]; [|done].
  destruct (values entrySet !! tagValue) as [bitmap|]; [|done]. simpl.
  unfold Props.tagKeyIDsFlushed. rewrite omap_app. simpl. by rewrite app_nil_r.
Qed.

Lemma invertedEmit_keeps (flusher : InvertedFlusher) (ev : invertedEvent) :
  (∀ tagKeyID, ev ≠ InvTagKeyID tagKeyID) →
  Props.tagKeyIDsFlushed (invertedFlushed (invertedEmit flusher ev))
  = Props.tagKeyIDsFlushed (invertedFlushed flusher).
Proof.
  intros Hev. simpl. unfold Props.tagKeyIDsFlushed. rewrite omap_app. simpl.
  destruct ev as [| |tagKeyID]; simpl; rewrite ?app_nil_r; try done.
  by destruct (Hev tagKeyID).
Qed.

Lemma flushTagValues_keeps ms (flusher : InvertedFlusher) (tagKey : string)
    (tagValues : list string) :
  let flusher' := MetricStore.flushTagValues ms flusher tagKey tagValues in
  Props.tagKeyIDsFlushed (invertedFlushed flusher')
  = Props.tagKeyIDsFlushed (invertedFlushed flusher)
  ∧ flushTagKeyIDFails flusher' = flushTagKeyIDFails flusher.
Proof.
  unfold MetricStore.flushTagValues. revert flusher.
  induction tagValues as [|tagValue tagValues IH]; intros flusher; simpl; [done |].
  match goal with
  | |- context [foldl _ ?next tagValues] =>
      destruct (IH next) as [Hids Hfails]; rewrite Hids, Hfails; clear Hids Hfails
  end.
  rewrite invertedEmit_keeps by done. simpl.
  destruct (MetricStore.atomicGetImmutable ms) as [immutable|].
  - destruct (flushInvertedIndex_keeps
                (MetricStore.flushInvertedIndex flusher immutable tagKey tagValue)
                (MetricStore.mutable ms) tagKey tagValue) as [Hids Hfails].
    simpl in Hids, Hfails. rewrite Hids, Hfails.
    apply flushInvertedIndex_keeps.
  - apply flushInvertedIndex_keeps.
Qed.

(** The loop over the tag keys flushes the id of each key it visits, in
    order, and stops at the first one the flusher refuses. *)
Lemma flushTagKeys_visited ms (flusher : InvertedFlusher) (idGenerator : IDGenerator)
    (tagKeys : list (string * gset string)) :
  let result := MetricStore.flushTagKeys ms flusher idGenerator tagKeys in
  ∃ visited,
    visited `prefix_of` tagKeys.*1
    ∧ Props.tagKeyIDsFlushed (invertedFlushed (fst result))
      = Props.tagKeyIDsFlushed (invertedFlushed flusher)
        ++ (GenTagKeyID idGenerator (MetricStore.metricID ms) <$> visited)
    ∧ (snd result = None → visited = tagKeys.*1)
    ∧ (∀ e, snd result = Some e →
         ∃ tagKey, last visited = Some tagKey
                   ∧ flushTagKeyIDFails flusher
                       (GenTagKeyID idGenerator (MetricStore.metricID ms) tagKey)
                     = Some e).
Proof.
  revert flusher. induction tagKeys as [|[tagKey tagValues] tagKeys IH];
    intros flusher; simpl.
  { exists []. split_and!; [done | by rewrite app_nil_r | done | done]. }
  destruct (flushTagValues_keeps ms flusher tagKey (elements tagValues))
    as [Hids Hfails].
  set (flushed := MetricStore.flushTagValues ms flusher tagKey (elements tagValues))
    in *.
  unfold FlushTagKeyID. rewrite Hfails.
  set (tagKeyID := GenTagKeyID idGenerator (MetricStore.metricID ms) tagKey).
  assert (Props.tagKeyIDsFlushed (invertedFlushed (invertedEmit flushed
                                                     (InvTagKeyID tagKeyID)))
          = Props.tagKeyIDsFlushed (invertedFlushed flusher) ++ [tagKeyID]) as Hemit.
  { rewrite <- Hids. simpl. unfold Props.tagKeyIDsFlushed. by rewrite omap_app. }
  destruct (flushTagKeyIDFails flusher tagKeyID) as [e|] eqn:Hfail.
  - exists [tagKey]. simpl. split_and!; [| exact Hemit | done |].
    + apply prefix_cons, prefix_nil.
    + intros e' [= <-]. by exists tagKey.
  - destruct (IH (invertedEmit flushed (InvTagKeyID tagKeyID)))
      as (visited & Hprefix & Hflushed & Hall & Hlast).
    exists (tagKey :: visited). split_and!.
    + by apply prefix_cons.
    + rewrite Hflushed, Hemit. simpl. by rewrite <- app_assoc.
    + intros Hnone. simpl. f_equal. by apply Hall.
    + intros e He. destruct (Hlast e He) as (lastKey & Hlast' & Hfails').
      exists lastKey. split.
      * destruct visited; [done | exact Hlast'].
      * simpl in Hfails'. by rewrite Hfails in Hfails'.
Qed.

Lemma dom_insert_each (sets : list tagKVEntrySet)
    (tagValues : gmap string (gset string) → tagKVEntrySet → gset string)
    (tagKeyValues : gmap string (gset string)) :
  dom (foldl (λ (tagKeyValues : gmap string (gset string)) entrySet,
                <[key entrySet := tagValues tagKeyValues entrySet]> tagKeyValues)
             tagKeyValues sets)
  = dom tagKeyValues ∪ list_to_set (key <$> sets).
Proof.
  revert tagKeyValues. induction sets as [|entrySet sets IH]; intros tagKeyValues;
    simpl.
  - by rewrite (right_id_L ∅ (∪)).
  - rewrite IH, dom_insert_L.
    by rewrite (comm_L (∪) {[ key entrySet ]} (dom tagKeyValues)), (assoc_L (∪)).
Qed.

(** The tag keys of [tagKeyValues] are those of the entry sets of the
    two indexes. *)
Lemma tagKeyValuesOf_keys ms (tagKey : string) :
  tagKey ∈ dom (MetricStore.tagKeyValuesOf ms)
  ↔ ∃ entrySet, Props.entrySetOf ms entrySet ∧ key entrySet = tagKey.
Proof.
  unfold MetricStore.tagKeyValuesOf, Props.entrySetOf.
  rewrite (dom_insert_each _
             (λ tagKeyValues entrySet,
                dom (values entrySet)
                ∪ default ∅ (tagKeyValues !! key entrySet))).
  rewrite elem_of_union, elem_of_list_to_set, list_elem_of_fmap.
  destruct (MetricStore.atomicGetImmutable ms) as [immutable|].
  - rewrite (dom_insert_each _ (λ _ entrySet, dom (values entrySet))).
    rewrite dom_empty_L, (left_id_L ∅ (∪)), elem_of_list_to_set, list_elem_of_fmap.
    split.
    + intros [(entrySet & -> & Hin)|(entrySet & -> & Hin)]; exists entrySet;
        (split; [|done]); [right; by exists immutable | by left].
    + intros (entrySet & [Hin|(index & [= <-] & Hin)] & <-);
        [right | left]; by exists entrySet.
  - rewrite dom_empty_L, elem_of_empty. split.
    + intros [[]|(entrySet & -> & Hin)]. exists entrySet. split; [by left | done].
    + intros (entrySet & [Hin|(index & Hindex & _)] & <-); [|done].
      right. by exists entrySet.
Qed.

(** X15.  [FlushInvertedIndexTo] flushes the id of a tag key at most
    once, although the key may have an entry set in the mutable and in
    the immutable index: the ids flushed are those of a list of distinct
    tag keys of the store, which holds every tag key of both indexes when
    the flush returns no error, and which ends with the key whose id the
    flusher refused when it returns that error. *)
Theorem FlushInvertedIndexTo_each_key_once ms (flusher : InvertedFlusher)
    (idGenerator : IDGenerator) :
  let result := MetricStore.FlushInvertedIndexTo ms flusher idGenerator in
  ∃ tagKeys,
    NoDup tagKeys
    ∧ (∀ tagKey, tagKey ∈ tagKeys →
         ∃ entrySet, Props.entrySetOf ms entrySet ∧ key entrySet = tagKey)
    ∧ Props.tagKeyIDsFlushed (invertedFlushed (fst result))
      = Props.tagKeyIDsFlushed (invertedFlushed flusher)
        ++ (GenTagKeyID idGenerator (MetricStore.metricID ms) <$> tagKeys)
    ∧ (snd result = None →
       ∀ entrySet, Props.entrySetOf ms entrySet → key entrySet ∈ tagKeys)
    ∧ (∀ e, snd result = Some e →
         ∃ tagKey, last tagKeys = Some tagKey
                   ∧ flushTagKeyIDFails flusher
                       (GenTagKeyID idGenerator (MetricStore.metricID ms) tagKey)
                     = Some e).
Proof.
  unfold MetricStore.FlushInvertedIndexTo.
  destruct (flushTagKeys_visited ms flusher idGenerator
              (map_to_list (MetricStore.tagKeyValuesOf ms)))
    as (visited & Hprefix & Hflushed & Hall & Hlast).
  assert (∀ tagKey, tagKey ∈ (map_to_list (MetricStore.tagKeyValuesOf ms)).*1
                    ↔ tagKey ∈ dom (MetricStore.tagKeyValuesOf ms)) as Hkeys.
  { intros tagKey. rewrite elem_of_dom, list_elem_of_fmap. split.
    - intros ([k v] & -> & Hin). apply elem_of_map_to_list in Hin. by eexists.
    - intros [v Hv]. exists (tagKey, v). split; [done |].
      by apply elem_of_map_to_list. }
  exists visited. split_and!.
  - destruct Hprefix as [rest Hrest].
    pose proof (NoDup_fst_map_to_list (MetricStore.tagKeyValuesOf ms)) as Hnodup.
    rewrite Hrest in Hnodup. by apply NoDup_app in Hnodup as [? _].
  - intros tagKey Hin. apply tagKeyValuesOf_keys, Hkeys.
    destruct Hprefix as [rest ->]. apply elem_of_app. by left.
  - exact Hflushed.
  - intros Hnone entrySet Hset. rewrite (Hall Hnone). apply Hkeys.
    apply tagKeyValuesOf_keys. by exists entrySet.
  - exact Hlast.
Qed.




End IndexFlushes.

Section DatabaseIndexFlushes.
Context {TI : Type} `{!tagIndexINTF TI} `{!tagIndexReaderINTF TI} `{!Platform}.

Implicit Types (md : MemoryDatabase.t TI) (ms : MetricStore.t TI).



End DatabaseIndexFlushes.

(** ** Field store: the time range of the data *)

Section FieldStoreTimeRange.

Implicit Types (fs : FieldStore.t) (s : SStore.t) (nodes : list SStore.t).

Lemma widenTimeRange_span (interval : Z) (acc : TimeRange * bool) s :
  FieldStore.widenTimeRange interval acc s
  = match Props.segmentSpan interval s with
    | None => acc
    | Some (startTime, endTime) =>
        ({| TimeRange_Start :=
              if (TimeRange_Start (fst acc) =? 0)
                 || (startTime <? TimeRange_Start (fst acc))
              then startTime else TimeRange_Start (fst acc);
            TimeRange_End :=
              if (TimeRange_End (fst acc) =? 0) || (TimeRange_End (fst acc) <? endTime)
              then endTime else TimeRange_End (fst acc) |}, true)
    end.
Proof.
  unfold FieldStore.widenTimeRange, Props.segmentSpan.
  destruct (SStore.SlotRange s) as [[startSlot endSlot]|e]; [|done].
  destruct acc as [[start stop] ok]. simpl.
  destruct ((start =? 0) || _); simpl; destruct ((stop =? 0) || _); done.
Qed.

(** What the loop of [TimeRange] has after the segments [nodes]: it
    reports data exactly when one of them has some, and has set no bound
    before that. *)
Lemma TimeRange_reports (interval : Z) nodes :
  let result :=
    foldl (FieldStore.widenTimeRange interval)
      ({| TimeRange_Start := 0; TimeRange_End := 0 |}, false) nodes in
  (snd result = false →
   fst result = {| TimeRange_Start := 0; TimeRange_End := 0 |}
   ∧ ∀ s, s ∈ nodes → Props.segmentSpan interval s = None)
  ∧ (snd result = true →
     ∃ s, s ∈ nodes ∧ is_Some (Props.segmentSpan interval s)).
Proof.
  induction nodes as [|s nodes IH] using rev_ind; simpl.
  { split; [|done]. intros _. split; [done |]. intros s Hs.
    by apply elem_of_nil in Hs. }
  rewrite foldl_app. simpl. rewrite widenTimeRange_span.
  simpl in IH. destruct IH as [Hnone Hsome].
  destruct (foldl (FieldStore.widenTimeRange interval) _ nodes) as [[start stop] ok].
  simpl in Hnone, Hsome.
  destruct (Props.segmentSpan interval s) as [[a b]|] eqn:Hspan; simpl.
  - split; [done |]. intros _. exists s. rewrite Hspan.
    split; [apply elem_of_app; right; by left | by eexists].
  - split.
    + intros Hok. destruct (Hnone Hok) as [Hrange Hempty]. split; [done |].
      intros s' [Hs' | ->%list_elem_of_singleton]%elem_of_app; [by apply Hempty | done].
    + intros Hok. destruct (Hsome Hok) as (s' & Hs' & Hdata).
      exists s'. split; [apply elem_of_app; by left | done].
Qed.

(** The bounds the loop has after the segments [nodes], when the data of
    every segment starts and ends at a positive time. *)
Lemma TimeRange_rounds (interval : Z) nodes :
  (∀ s a b, s ∈ nodes → Props.segmentSpan interval s = Some (a, b) → 0 < a ∧ 0 < b) →
  let result :=
    foldl (FieldStore.widenTimeRange interval)
      ({| TimeRange_Start := 0; TimeRange_End := 0 |}, false) nodes in
  snd result = true →
  (∀ s a b, s ∈ nodes → Props.segmentSpan interval s = Some (a, b) →
            TimeRange_Start (fst result) ≤ a ∧ b ≤ TimeRange_End (fst result))
  ∧ (∃ s a b, s ∈ nodes ∧ Props.segmentSpan interval s = Some (a, b)
              ∧ TimeRange_Start (fst result) = a)
  ∧ (∃ s a b, s ∈ nodes ∧ Props.segmentSpan interval s = Some (a, b)
              ∧ TimeRange_End (fst result) = b).
Proof.
  induction nodes as [|s nodes IH] using rev_ind; intros Hpositive; simpl; [done |].
  rewrite foldl_app. simpl. rewrite widenTimeRange_span.
  specialize (IH (λ s' a b Hs', Hpositive s' a b ltac:(apply elem_of_app; by left))).
  destruct (TimeRange_reports interval nodes) as [Hnone _].
  simpl in IH, Hnone.
  destruct (foldl (FieldStore.widenTimeRange interval) _ nodes) as [[start stop] ok].
  simpl in Hnone, IH.
  destruct (Props.segmentSpan interval s) as [[a b]|] eqn:Hspan; simpl.
  - destruct (Hpositive s a b ltac:(apply elem_of_app; right; by left) Hspan)
      as [Ha Hb].
    intros _. destruct ok.
    + destruct (IH eq_refl) as (Hbounds & (s1 & a1 & b1 & Hs1 & Hspan1 & Hstart)
                                & (s2 & a2 & b2 & Hs2 & Hspan2 & Hstop)).
      simpl in Hbounds, Hstart, Hstop.
      destruct (Hpositive s1 a1 b1 ltac:(apply elem_of_app; by left) Hspan1) as [Ha1 _].
      destruct (Hpositive s2 a2 b2 ltac:(apply elem_of_app; by left) Hspan2) as [_ Hb2].
      destruct (Z.eqb_spec start 0) as [|_]; [lia |].
      destruct (Z.eqb_spec stop 0) as [|_]; [lia |]. simpl.
      split_and!.
      * intros s' a' b' [Hs' | ->%list_elem_of_singleton]%elem_of_app Hspan'.
        -- destruct (Hbounds s' a' b' Hs' Hspan').
           destruct (Z.ltb_spec a start), (Z.ltb_spec stop b); lia.
        -- rewrite Hspan in Hspan'. injection Hspan' as <- <-.
           destruct (Z.ltb_spec a start), (Z.ltb_spec stop b); lia.
      * destruct (Z.ltb_spec a start).
        -- exists s, a, b. split_and!; [apply elem_of_app; right; by left | done | done].
        -- exists s1, a1, b1. split_and!; [apply elem_of_app; by left | done | done].
      * destruct (Z.ltb_spec stop b).
        -- exists s, a, b. split_and!; [apply elem_of_app; right; by left | done | done].
        -- exists s2, a2, b2. split_and!; [apply elem_of_app; by left | done | done].
    + destruct (Hnone eq_refl) as [[= -> ->] Hempty]. simpl. split_and!.
      * intros s' a' b' [Hs' | ->%list_elem_of_singleton]%elem_of_app Hspan'.
        -- by rewrite (Hempty s' Hs') in Hspan'.
        -- rewrite Hspan in Hspan'. injection Hspan' as <- <-. lia.
      * exists s, a, b. split_and!; [apply elem_of_app; right; by left | done | done].
      * exists s, a, b. split_and!; [apply elem_of_app; right; by left | done | done].
  - intros Hok.
    destruct (IH Hok) as (Hbounds & (s1 & a1 & b1 & Hs1 & Hspan1 & Hstart)
                          & (s2 & a2 & b2 & Hs2 & Hspan2 & Hstop)).
    split_and!.
    + intros s' a' b' [Hs' | ->%list_elem_of_singleton]%elem_of_app Hspan';
        [by apply (Hbounds s') | congruence].
    + exists s1, a1, b1. split_and!; [apply elem_of_app; by left | done | done].
    + exists s2, a2, b2. split_and!; [apply elem_of_app; by left | done | done].
Qed.

(** X17.  [TimeRange] reports data exactly when a segment of the field
    store has some, wherever that data lies, and returns the zero range
    when it reports none.  When the data of every segment starts and ends
    at a positive time (zero is how the loop marks a bound as not set),
    the range runs from the earliest start to the latest end over the
    segments with data. *)
Theorem TimeRange_covers_segments fs (interval : Z) :
  let result := FieldStore.TimeRange fs interval in
  (snd result = true
   ↔ ∃ s, s ∈ FieldStore.sStoreNodes fs ∧ is_Some (Props.segmentSpan interval s))
  ∧ (snd result = false →
     fst result = {| TimeRange_Start := 0; TimeRange_End := 0 |})
  ∧ ((∀ s a b, s ∈ FieldStore.sStoreNodes fs →
               Props.segmentSpan interval s = Some (a, b) → 0 < a ∧ 0 < b) →
     snd result = true →
     (∀ s a b, s ∈ FieldStore.sStoreNodes fs →
               Props.segmentSpan interval s = Some (a, b) →
               TimeRange_Start (fst result) ≤ a ∧ b ≤ TimeRange_End (fst result))
     ∧ (∃ s a b, s ∈ FieldStore.sStoreNodes fs
                 ∧ Props.segmentSpan interval s = Some (a, b)
                 ∧ TimeRange_Start (fst result) = a)
     ∧ (∃ s a b, s ∈ FieldStore.sStoreNodes fs
                 ∧ Props.segmentSpan interval s = Some (a, b)
                 ∧ TimeRange_End (fst result) = b)).
Proof.
  unfold FieldStore.TimeRange.
  destruct (TimeRange_reports interval (FieldStore.sStoreNodes fs)) as [Hnone Hsome].
  pose proof (TimeRange_rounds interval (FieldStore.sStoreNodes fs)) as Hrange.
  cbv zeta in *. split_and!.
  - split; [exact Hsome |].
    intros (s & Hs & [span Hspan]).
    destruct (snd (foldl _ _ (FieldStore.sStoreNodes fs))) eqn:Hok; [done |].
    destruct (Hnone eq_refl) as [_ Hempty]. by rewrite (Hempty s Hs) in Hspan.
  - intros Hok. by destruct (Hnone Hok).
  - exact Hrange.
Qed.

End FieldStoreTimeRange.

(** Witness of X17: a field store with one point, in slot 2 of the
    family of one hour; and one with its point in slot 0 of family 0,
    whose data is reported though it lies at time zero. *)
Lemma TimeRange_covers_segments_witness :
  let fs := fst (FieldStore.Write (FieldStore.newFieldStore 1) Sample.sumField
                   (Sample.ctxAt Sample.generator 3 3600000 2)) in
  let fs0 := fst (FieldStore.Write (FieldStore.newFieldStore 1) Sample.sumField
                    (Sample.ctxAt Sample.generator 3 0 0)) in
  (∀ s a b, s ∈ FieldStore.sStoreNodes fs →
            Props.segmentSpan 10000 s = Some (a, b) → 0 < a ∧ 0 < b)
  ∧ snd (FieldStore.TimeRange fs 10000) = true
  ∧ TimeRange_Start (fst (FieldStore.TimeRange fs 10000)) ≤ 3620000
    ≤ TimeRange_End (fst (FieldStore.TimeRange fs 10000))
  ∧ snd (FieldStore.TimeRange fs0 10000) = true.
Proof.
  intros fs fs0.
  set (segment := {| SStore.familyTime := 3600000; SStore.agg := AggSum;
                     SStore.slots := {[ 2 := 1%float ]} |}).
  set (segment0 := {| SStore.familyTime := 0; SStore.agg := AggSum;
                      SStore.slots := {[ 0 := 1%float ]} |}).
  assert (FieldStore.sStoreNodes fs = [segment]) as Hnodes by (vm_compute; reflexivity).
  assert (FieldStore.sStoreNodes fs0 = [segment0]) as Hnodes0
    by (vm_compute; reflexivity).
  assert (Props.segmentSpan 10000 segment = Some (3620000, 3620000)) as Hspan
    by (vm_compute; reflexivity).
  assert (Props.segmentSpan 10000 segment0 = Some (0, 0)) as Hspan0
    by (vm_compute; reflexivity).
  assert (∀ s a b, s ∈ FieldStore.sStoreNodes fs →
                   Props.segmentSpan 10000 s = Some (a, b) → 0 < a ∧ 0 < b)
    as Hpositive.
  { intros s a b. rewrite Hnodes. intros ->%list_elem_of_singleton.
    rewrite Hspan. intros [= <- <-]. lia. }
  destruct (TimeRange_covers_segments fs 10000) as (Hdata & _ & Hrange).
  destruct (TimeRange_covers_segments fs0 10000) as (Hdata0 & _ & _).
  assert (snd (FieldStore.TimeRange fs 10000) = true) as Hok.
  { apply Hdata. exists segment. rewrite Hnodes. split; [by left | by eexists]. }
  split; [exact Hpositive |]. split; [exact Hok |]. split.
  - destruct (Hrange Hpositive Hok) as (Hbounds & _).
    apply (Hbounds segment); [rewrite Hnodes; by left | exact Hspan].
  - apply Hdata0. exists segment0. rewrite Hnodes0. split; [by left | by eexists].
Defined.

(** ** Eviction *)

Section Eviction.
Context {TI : Type} `{!tagIndexINTF TI} `{!tagIndexEvictINTF TI} `{!Platform}.

Implicit Types (md : MemoryDatabase.t TI) (ms : MetricStore.t TI)
  (bkt : gmap Z (MetricStore.t TI)).

Lemma Evict_metricID ms :
  MetricStore.metricID (fst (MetricStore.Evict ms)) = MetricStore.metricID ms.
Proof.
  unfold MetricStore.Evict. by destruct (RemoveTStores _ _) as [mutable' removed].
Qed.

(** One round of [evict]: in the bucket the store of the round is
    replaced by its evicted self, or gone when that is empty; its metric
    id is deleted with it; nothing else moves. *)
Lemma evictStore_round md (bucketIndex : nat) bkt (hash : Z) ms :
  MemoryDatabase.mStoresList md !! bucketIndex = Some bkt →
  let md' := MemoryDatabase.evictStore bucketIndex md (hash, ms) in
  let evicted := fst (MetricStore.Evict ms) in
  (∃ bkt',
     MemoryDatabase.mStoresList md' !! bucketIndex = Some bkt'
     ∧ bkt' !! hash = (if MetricStore.IsEmpty evicted then None else Some evicted)
     ∧ ∀ other, other ≠ hash → bkt' !! other = bkt !! other)
  ∧ (∀ j, j ≠ bucketIndex →
       MemoryDatabase.mStoresList md' !! j = MemoryDatabase.mStoresList md !! j)
  ∧ (MetricStore.IsEmpty evicted = true →
     MemoryDatabase.metricID2Hash md' !! MetricStore.metricID ms = None)
  ∧ (∀ id, MemoryDatabase.metricID2Hash md' !! id = None
           ∨ MemoryDatabase.metricID2Hash md' !! id
             = MemoryDatabase.metricID2Hash md !! id).
Proof.
  intros Hbkt. cbv zeta. unfold MemoryDatabase.evictStore. simpl fst. simpl snd.
  pose proof (Evict_metricID ms) as Hid.
  destruct (MetricStore.Evict ms) as [evicted evictedSize]. simpl in Hid. simpl fst.
  rewrite Hbkt. simpl default.
  assert (bucketIndex < length (MemoryDatabase.mStoresList md))%nat as Hlt
    by (by apply lookup_lt_Some in Hbkt).
  destruct (MetricStore.IsEmpty evicted); simpl.
  - split_and!.
    + eexists. rewrite list_lookup_insert_eq by done. split; [done |]. split.
      * by rewrite lookup_delete_eq.
      * intros other Hother.
        by rewrite lookup_delete_ne, lookup_insert_ne by congruence.
    + intros j Hj. by rewrite list_lookup_insert_ne.
    + intros _. unfold MetricStore.GetMetricID. rewrite Hid.
      by rewrite lookup_delete_eq.
    + intros id. unfold MetricStore.GetMetricID.
      destruct (decide (id = MetricStore.metricID evicted)) as [->|Hne].
      * left. by rewrite lookup_delete_eq.
      * right. by rewrite lookup_delete_ne.
  - split_and!.
    + eexists. rewrite list_lookup_insert_eq by done. split; [done |]. split.
      * by rewrite lookup_insert_eq.
      * intros other Hother. by rewrite lookup_insert_ne by congruence.
    + intros j Hj. by rewrite list_lookup_insert_ne.
    + done.
    + intros id. by right.
Qed.

Lemma evict_rounds (bucketIndex : nat) (stores : list (Z * MetricStore.t TI)) md bkt :
  NoDup stores.*1 →
  MemoryDatabase.mStoresList md !! bucketIndex = Some bkt →
  let md' := foldl (MemoryDatabase.evictStore bucketIndex) md stores in
  (∃ bkt',
     MemoryDatabase.mStoresList md' !! bucketIndex = Some bkt'
     ∧ ∀ hash,
         bkt' !! hash
         = match (list_to_map stores : gmap Z (MetricStore.t TI)) !! hash with
           | Some ms =>
               if MetricStore.IsEmpty (fst (MetricStore.Evict ms)) then None
               else Some (fst (MetricStore.Evict ms))
           | None => bkt !! hash
           end)
  ∧ (∀ j, j ≠ bucketIndex →
       MemoryDatabase.mStoresList md' !! j = MemoryDatabase.mStoresList md !! j)
  ∧ (∀ hash ms, (hash, ms) ∈ stores →
       MetricStore.IsEmpty (fst (MetricStore.Evict ms)) = true →
       MemoryDatabase.metricID2Hash md' !! MetricStore.metricID ms = None)
  ∧ (∀ id, MemoryDatabase.metricID2Hash md' !! id = None
           ∨ MemoryDatabase.metricID2Hash md' !! id
             = MemoryDatabase.metricID2Hash md !! id).
Proof.
  revert md bkt. induction stores as [|[hash ms] stores IH]; intros md bkt Hnodup Hbkt.
  { simpl. split_and!; [by exists bkt | done | | by right].
    intros hash ms Hin. by apply elem_of_nil in Hin. }
  simpl in Hnodup. apply NoDup_cons in Hnodup as [Hfresh Hnodup].
  destruct (evictStore_round md bucketIndex bkt hash ms Hbkt)
    as ((bkt1 & Hbkt1 & Hhash1 & Hother1) & Hrest1 & Hid1 & Hids1).
  destruct (IH _ bkt1 Hnodup Hbkt1) as ((bkt' & Hbkt' & Hlook) & Hrest & Hid & Hids).
  simpl. split_and!.
  - exists bkt'. split; [done |]. intros h. rewrite Hlook.
    destruct (decide (h = hash)) as [->|Hne].
    + rewrite lookup_insert_eq.
      rewrite (not_elem_of_list_to_map_1 stores hash Hfresh). done.
    + rewrite lookup_insert_ne by congruence.
      destruct (list_to_map stores !! h); [done | by apply Hother1].
  - intros j Hj. by rewrite Hrest, Hrest1.
  - intros h ms' [[= -> ->]|Hin]%elem_of_cons Hempty.
    + destruct (Hids (MetricStore.metricID ms)) as [Hnone|Hsame]; [done |].
      rewrite Hsame. by apply Hid1.
    + by apply (Hid h).
  - intros id. destruct (Hids id) as [Hnone|Hsame]; [by left |].
    rewrite Hsame. apply Hids1.
Qed.

(** [evict] of a bucket evicts every metric store of the bucket and
    deletes exactly those that are empty afterwards. *)
Lemma evict_bucket md (bucketIndex : nat) bkt :
  MemoryDatabase.mStoresList md !! bucketIndex = Some bkt →
  let md' := MemoryDatabase.evict md bucketIndex in
  MemoryDatabase.mStoresList md' !! bucketIndex
  = Some (omap (λ ms, if MetricStore.IsEmpty (fst (MetricStore.Evict ms)) then None
                      else Some (fst (MetricStore.Evict ms))) bkt)
  ∧ (∀ j, j ≠ bucketIndex →
       MemoryDatabase.mStoresList md' !! j = MemoryDatabase.mStoresList md !! j)
  ∧ (∀ hash ms, bkt !! hash = Some ms →
       MetricStore.IsEmpty (fst (MetricStore.Evict ms)) = true →
       MemoryDatabase.metricID2Hash md' !! MetricStore.metricID ms = None)
  ∧ (∀ id, MemoryDatabase.metricID2Hash md' !! id = None
           ∨ MemoryDatabase.metricID2Hash md' !! id
             = MemoryDatabase.metricID2Hash md !! id).
Proof.
  intros Hbkt. cbv zeta. unfold MemoryDatabase.evict, MemoryDatabase.allMetricStores.
  rewrite Hbkt. simpl default.
  destruct (evict_rounds bucketIndex (map_to_list bkt) md bkt
              (NoDup_fst_map_to_list bkt) Hbkt)
    as ((bkt' & Hbkt' & Hlook) & Hrest & Hid & Hids).
  split_and!; [| exact Hrest | | exact Hids].
  - rewrite Hbkt'. f_equal. apply map_eq. intros hash.
    rewrite Hlook, list_to_map_to_list, lookup_omap.
    by destruct (bkt !! hash).
  - intros hash ms Hms. apply (Hid hash). by apply elem_of_map_to_list.
Qed.

Lemma evict_frame md (bucketIndex : nat) :
  let md' := MemoryDatabase.evict md bucketIndex in
  (∀ j, j ≠ bucketIndex →
     MemoryDatabase.mStoresList md' !! j = MemoryDatabase.mStoresList md !! j)
  ∧ (∀ id, MemoryDatabase.metricID2Hash md' !! id = None
           ∨ MemoryDatabase.metricID2Hash md' !! id
             = MemoryDatabase.metricID2Hash md !! id).
Proof.
  destruct (MemoryDatabase.mStoresList md !! bucketIndex) as [bkt|] eqn:Hbkt.
  - by destruct (evict_bucket md bucketIndex bkt Hbkt) as (_ & Hrest & _ & Hids).
  - cbv zeta. unfold MemoryDatabase.evict, MemoryDatabase.allMetricStores.
    rewrite Hbkt. simpl. rewrite map_to_list_empty. simpl.
    split; [done | by right].
Qed.

(** The sweep over a list of bucket indexes. *)
Lemma evict_sweep (indexes : list nat) md :
  NoDup indexes →
  let md' := foldl (λ md (i : nat), MemoryDatabase.evict md i) md indexes in
  (∀ i bkt,
     MemoryDatabase.mStoresList md !! i = Some bkt →
     MemoryDatabase.mStoresList md' !! i
     = Some (if decide (i ∈ indexes)
             then omap (λ ms, if MetricStore.IsEmpty (fst (MetricStore.Evict ms))
                              then None else Some (fst (MetricStore.Evict ms))) bkt
             else bkt))
  ∧ (∀ i bkt hash ms,
       i ∈ indexes →
       MemoryDatabase.mStoresList md !! i = Some bkt →
       bkt !! hash = Some ms →
       MetricStore.IsEmpty (fst (MetricStore.Evict ms)) = true →
       MemoryDatabase.metricID2Hash md' !! MetricStore.metricID ms = None)
  ∧ (∀ id, MemoryDatabase.metricID2Hash md' !! id = None
           ∨ MemoryDatabase.metricID2Hash md' !! id
             = MemoryDatabase.metricID2Hash md !! id).
Proof.
  intros Hnodup. revert md.
  induction Hnodup as [|i0 indexes Hfresh Hnodup IH]; intros md; simpl.
  { split_and!; [done | | by right]. intros i bkt hash ms Hin.
    by apply elem_of_nil in Hin. }
  destruct (IH (MemoryDatabase.evict md i0)) as (Hbuckets & Hid & Hids).
  destruct (evict_frame md i0) as [Hrest Hids0].
  split_and!.
  - intros i bkt Hbkt. destruct (decide (i = i0)) as [->|Hne].
    + destruct (evict_bucket md i0 bkt Hbkt) as (Hevicted & _).
      rewrite (Hbuckets i0 _ Hevicted).
      rewrite decide_False by done. by rewrite decide_True by (by left).
    + rewrite (Hbuckets i bkt) by (by rewrite Hrest).
      f_equal. destruct (decide (i ∈ indexes)) as [Hin|Hnotin].
      * by rewrite decide_True by (by right).
      * by rewrite decide_False by (by intros [?|?]%elem_of_cons).
  - intros i bkt hash ms [->|Hin]%elem_of_cons Hbkt Hms Hempty.
    + destruct (evict_bucket md i0 bkt Hbkt) as (_ & _ & Hgone & _).
      destruct (Hids (MetricStore.metricID ms)) as [Hnone|Hsame]; [done |].
      rewrite Hsame. by apply (Hgone hash).
    + assert (i ≠ i0) as Hne by (by intros ->).
      apply (Hid i bkt hash ms Hin); [|done | done]. by rewrite Hrest.
  - intros id. destruct (Hids id) as [Hnone|Hsame]; [by left |].
    rewrite Hsame. apply Hids0.
Qed.

(** X18.  One sweep of the evictor evicts every metric store of the
    database and deletes exactly those that are empty afterwards: every
    bucket then holds, under the same hashes, the evicted stores that are
    not empty; the metric ids of the deleted stores are gone from the id
    table, which gets no new entry. *)
Theorem evictAll_deletes_the_empty_stores md :
  Props.bucketsInPlace md →
  let md' := MemoryDatabase.evictAll md in
  (∀ i bkt,
     MemoryDatabase.mStoresList md !! i = Some bkt →
     MemoryDatabase.mStoresList md' !! i
     = Some (omap (λ ms, if MetricStore.IsEmpty (fst (MetricStore.Evict ms))
                         then None else Some (fst (MetricStore.Evict ms))) bkt))
  ∧ (∀ i bkt hash ms,
       MemoryDatabase.mStoresList md !! i = Some bkt →
       bkt !! hash = Some ms →
       MetricStore.IsEmpty (fst (MetricStore.Evict ms)) = true →
       MemoryDatabase.metricID2Hash md' !! MetricStore.metricID ms = None)
  ∧ (∀ id, MemoryDatabase.metricID2Hash md' !! id = None
           ∨ MemoryDatabase.metricID2Hash md' !! id
             = MemoryDatabase.metricID2Hash md !! id).
Proof.
  intros [(k & Hk & Hpow) Hlen]. cbv zeta. unfold MemoryDatabase.evictAll.
  assert (∀ i : nat, (i < Z.to_nat shardingCountOfMStores)%nat →
            Z.to_nat (Z.land (Z.of_nat i) MemoryDatabase.shardingCountMask) = i)
    as Hmask.
  { intros i Hi. unfold MemoryDatabase.shardingCountMask. rewrite Hpow in *.
    replace (2 ^ k - 1) with (Z.ones k) by (rewrite Z.ones_equiv; lia).
    rewrite Z.land_ones by done. rewrite Z.mod_small by lia. lia. }
  assert (∀ (indexes : list nat) md0,
            (∀ i, i ∈ indexes → (i < Z.to_nat shardingCountOfMStores)%nat) →
            foldl (λ md (i : nat),
                     MemoryDatabase.evict md
                       (Z.to_nat (Z.land (Z.of_nat i) MemoryDatabase.shardingCountMask)))
                  md0 indexes
            = foldl (λ md (i : nat), MemoryDatabase.evict md i) md0 indexes) as Hsame.
  { induction indexes as [|i indexes IH]; intros md0 Hin; simpl; [done |].
    rewrite Hmask by (apply Hin; by left). apply IH. intros j Hj. apply Hin. by right. }
  rewrite Hsame by (intros i Hi; apply elem_of_seq in Hi; lia).
  destruct (evict_sweep (seq 0 (Z.to_nat shardingCountOfMStores)) md (NoDup_seq 0 _))
    as (Hbuckets & Hid & Hids).
  assert (∀ i bkt, MemoryDatabase.mStoresList md !! i = Some bkt →
                   i ∈ seq 0 (Z.to_nat shardingCountOfMStores)) as Hindex.
  { intros i bkt Hbkt. apply elem_of_seq. apply lookup_lt_Some in Hbkt. lia. }
  split_and!; [| | exact Hids].
  - intros i bkt Hbkt. rewrite (Hbuckets i bkt Hbkt).
    by rewrite decide_True by (by apply (Hindex i bkt)).
  - intros i bkt hash ms Hbkt. apply (Hid i bkt hash ms); [|done].
    by apply (Hindex i bkt).
Qed.

End Eviction.

(** Witness of X18: the sweep over the sample database. *)
Lemma evictAll_deletes_the_empty_stores_witness :
  let bucketIndex := MemoryDatabase.bucketIndex (Sum64String "cpu") in
  Props.bucketsInPlace Sample.cpuDb
  ∧ ∃ bkt,
      MemoryDatabase.mStoresList Sample.cpuDb !! bucketIndex = Some bkt
      ∧ MemoryDatabase.mStoresList (MemoryDatabase.evictAll Sample.cpuDb) !! bucketIndex
        = Some (omap (λ ms, if MetricStore.IsEmpty (fst (MetricStore.Evict ms))
                            then None else Some (fst (MetricStore.Evict ms))) bkt).
Proof.
  intros bucketIndex.
  assert (Props.bucketsInPlace Sample.cpuDb) as Hwf.
  { split; [exists 2; split; [lia | reflexivity] | reflexivity]. }
  split; [exact Hwf |].
  destruct (lookup_lt_is_Some_2 (MemoryDatabase.mStoresList Sample.cpuDb) bucketIndex
              (bucketIndex_in_range Sample.cpuDb (Sum64String "cpu") Hwf))
    as [bkt Hbkt].
  exists bkt. split; [exact Hbkt |].
  exact (proj1 (evictAll_deletes_the_empty_stores Sample.cpuDb Hwf) bucketIndex bkt Hbkt).
Defined.

(** ** Flushing a family frees every immutable slot *)

Section FlushFreesStores.
Context `{!Platform}.

Implicit Types (md : MemoryDatabase.t TagIndex.t) (ms : MetricStore.t TagIndex.t).

(** X19.  After a [FlushFamilyTo] that returned no error every metric
    store of the database has the placeholder in its immutable slot, so
    [ResetMetricStore] succeeds for every metric that has a store. *)
Theorem FlushFamilyTo_frees_every_store md (flusher : Flusher) (familyTime : Z) :
  Props.bucketsInPlace md →
  snd (MemoryDatabase.FlushFamilyTo md flusher familyTime) = None →
  let md' := fst (fst (MemoryDatabase.FlushFamilyTo md flusher familyTime)) in
  (∀ bucketIndex bkt hash ms,
     MemoryDatabase.mStoresList md' !! bucketIndex = Some bkt →
     bkt !! hash = Some ms →
     MetricStore.immutable ms = MetricStore.NopTagIndex)
  ∧ (∀ metricName now,
       is_Some (MemoryDatabase.getMStore md' metricName) →
       snd (MemoryDatabase.ResetMetricStore md' metricName now) = None).
Proof.
  intros [_ Hlen] Hok. cbv zeta.
  assert (∀ bucketIndex bkt hash ms,
            MemoryDatabase.mStoresList
              (fst (fst (MemoryDatabase.FlushFamilyTo md flusher familyTime)))
              !! bucketIndex = Some bkt →
            bkt !! hash = Some ms →
            MetricStore.immutable ms = MetricStore.NopTagIndex) as Hfree.
  { revert Hok. unfold MemoryDatabase.FlushFamilyTo. simpl.
    destruct (MemoryDatabase.flushBuckets _ _ flusher _ familyTime _)
      as [[[buckets fl] size] err] eqn:Hflush.
    simpl. intros -> bucketIndex bkt' hash ms' Hbkt' Hms'.
    destruct (flushBuckets_buckets _ _ _ _ _ _ _ _ _ _ bucketIndex bkt'
                (NoDup_seq 0 _) Hflush Hbkt') as (bkt & Hbkt & _ & Hin).
    assert (bucketIndex ∈ seq 0 (Z.to_nat shardingCountOfMStores)) as Hindex.
    { apply elem_of_seq. apply lookup_lt_Some in Hbkt. simpl in Hbkt. lia. }
    destruct (Hin hash ms' Hms') as [(ms & fl0 & ctx0 & _ & _ & ->)|[_ Hnotin]];
      [|by destruct (Hnotin eq_refl)].
    unfold MetricStore.FlushMetricsDataTo.
    destruct (FlushVersionDataTo (MetricStore.mutable ms) _ ctx0)
      as [[mutable' fl2] flushedSize].
    destruct (MetricStore.atomicGetImmutable ms) as [index|]; [|done].
    by destruct (FlushVersionDataTo index fl2 ctx0) as [[index' fl3] more]. }
  split; [exact Hfree |].
  intros metricName now [ms Hms]. unfold MemoryDatabase.ResetMetricStore.
  rewrite Hms.
  assert (MetricStore.immutable ms = MetricStore.NopTagIndex) as Hnop.
  { unfold MemoryDatabase.getMStore, MemoryDatabase.getMStoreByMetricHash,
      MemoryDatabase.getBucket in Hms.
    destruct (MemoryDatabase.mStoresList _ !! _) as [bkt|] eqn:Hbkt; [|done].
    exact (Hfree _ bkt _ ms Hbkt Hms). }
  unfold MetricStore.ResetVersion, MetricStore.atomicGetImmutable. rewrite Hnop.
  done.
Qed.

End FlushFreesStores.

(** Witness of X19: the sample database, its metric given a new version,
    then flushed for the family written; [cpu] can be reset again. *)
Lemma FlushFamilyTo_frees_every_store_witness :
  let md := fst (MemoryDatabase.ResetMetricStore Sample.cpuDb "cpu" 200) in
  let md' := fst (fst (MemoryDatabase.FlushFamilyTo md Sample.noFlushErrors
                         Sample.oneHour)) in
  Props.bucketsInPlace md
  ∧ snd (MemoryDatabase.FlushFamilyTo md Sample.noFlushErrors Sample.oneHour) = None
  ∧ snd (MemoryDatabase.ResetMetricStore md "cpu" 201)
    = Some ErrResetVersionUnavailable
  ∧ snd (MemoryDatabase.ResetMetricStore md' "cpu" 201) = None.
Proof.
  intros md md'.
  assert (Props.bucketsInPlace md) as Hwf.
  { split; [exists 2; split; [lia | reflexivity] | reflexivity]. }
  assert (snd (MemoryDatabase.FlushFamilyTo md Sample.noFlushErrors Sample.oneHour)
          = None) as Hok by (vm_compute; reflexivity).
  split; [exact Hwf |]. split; [exact Hok |]. split; [vm_compute; reflexivity |].
  apply (FlushFamilyTo_frees_every_store md Sample.noFlushErrors Sample.oneHour Hwf Hok).
  vm_compute. by eexists.
Defined.

(** ** The index waiting for its flush *)

Section PendingIndex.
Context {TI : Type} `{!tagIndexINTF TI} `{!tagIndexEvictINTF TI} `{!Platform}.

Implicit Types (md : MemoryDatabase.t TI) (ms : MetricStore.t TI).

(** X20.  The immutable slot of a metric store is changed by
    [ResetVersion] and [FlushMetricsDataTo] only: [Write],
    [GetFieldIDOrGenerate], [SetMaxTagsLimit] and [Evict] leave it as it
    is, whatever they return. *)
Theorem immutable_slot_untouched ms :
  (∀ metric writeCtx,
     MetricStore.immutable (fst (fst (MetricStore.Write ms metric writeCtx)))
     = MetricStore.immutable ms)
  ∧ (∀ fieldName fieldType generator,
       MetricStore.immutable
         (fst (MetricStore.GetFieldIDOrGenerate ms fieldName fieldType generator))
       = MetricStore.immutable ms)
  ∧ (∀ limit,
       MetricStore.immutable (MetricStore.SetMaxTagsLimit ms limit)
       = MetricStore.immutable ms)
  ∧ MetricStore.immutable (fst (MetricStore.Evict ms)) = MetricStore.immutable ms.
Proof.
  split_and!.
  - intros metric writeCtx. unfold MetricStore.Write.
    destruct (MetricStore.isFull ms); [done |].
    destruct (GetTStore _ _) as [tStore|].
    + by destruct (WriteTStore _ _ _ _ _) as [[[mutable' fmList] w] err].
    + destruct (GetOrCreateTStore _ _ _) as [mutable' [[tStore createdSize]|e]];
        [|done].
      simpl. by destruct (WriteTStore _ _ _ _ _) as [[[mutable'' fmList] w] err].
  - intros fieldName fieldType generator. unfold MetricStore.GetFieldIDOrGenerate.
    by destruct (MetricStore.getFieldIDOrGenerate _ _ _ _ _) as [fmList r].
  - done.
  - unfold MetricStore.Evict. by destruct (RemoveTStores _ _) as [mutable' removed].
Qed.

(** X21.  The evictor never deletes a metric store whose immutable slot
    holds an index that waits for its flush: after a sweep the store is
    still found under its name, evicted, with that index in its slot. *)
Theorem evictAll_keeps_pending_index md (metricName : string) ms (index : TI) :
  Props.bucketsInPlace md →
  MemoryDatabase.getMStore md metricName = Some ms →
  MetricStore.atomicGetImmutable ms = Some index →
  MemoryDatabase.getMStore (MemoryDatabase.evictAll md) metricName
  = Some (fst (MetricStore.Evict ms))
  ∧ MetricStore.atomicGetImmutable (fst (MetricStore.Evict ms)) = Some index.
Proof.
  intros Hwf Hms Hindex.
  assert (MetricStore.immutable (fst (MetricStore.Evict ms)) = MetricStore.immutable ms)
    as Hslot.
  { unfold MetricStore.Evict. by destruct (RemoveTStores _ _) as [mutable' removed]. }
  assert (MetricStore.atomicGetImmutable (fst (MetricStore.Evict ms)) = Some index)
    as Hpending.
  { unfold MetricStore.atomicGetImmutable in *. by rewrite Hslot. }
  split; [|exact Hpending].
  pose proof Hwf as [(k & Hk & Hpow) Hlen].
  unfold MemoryDatabase.getMStore, MemoryDatabase.getMStoreByMetricHash,
    MemoryDatabase.getBucket in *.
  set (hash := Sum64String metricName) in *.
  destruct (lookup_lt_is_Some_2 (MemoryDatabase.mStoresList md)
              (MemoryDatabase.bucketIndex hash)
              (bucketIndex_in_range md hash Hwf)) as [bkt Hbkt].
  rewrite Hbkt in Hms. simpl in Hms.
  assert (MemoryDatabase.mStoresList (MemoryDatabase.evictAll md)
            !! MemoryDatabase.bucketIndex hash
          = Some (omap (λ ms, if MetricStore.IsEmpty (fst (MetricStore.Evict ms))
                              then None else Some (fst (MetricStore.Evict ms))) bkt))
    as ->.
  { unfold MemoryDatabase.evictAll.
    assert (∀ i : nat, (i < Z.to_nat shardingCountOfMStores)%nat →
              Z.to_nat (Z.land (Z.of_nat i) MemoryDatabase.shardingCountMask) = i)
      as Hmask.
    { intros i Hi. unfold MemoryDatabase.shardingCountMask. rewrite Hpow in *.
      replace (2 ^ k - 1) with (Z.ones k) by (rewrite Z.ones_equiv; lia).
      rewrite Z.land_ones by done. rewrite Z.mod_small by lia. lia. }
    assert (∀ (indexes : list nat) md0,
              (∀ i, i ∈ indexes → (i < Z.to_nat shardingCountOfMStores)%nat) →
              foldl (λ md (i : nat),
                       MemoryDatabase.evict md
                         (Z.to_nat (Z.land (Z.of_nat i)
                                      MemoryDatabase.shardingCountMask)))
                    md0 indexes
              = foldl (λ md (i : nat), MemoryDatabase.evict md i) md0 indexes)
      as Hsame.
    { induction indexes as [|i indexes IH]; intros md0 Hin; simpl; [done |].
      rewrite Hmask by (apply Hin; by left). apply IH. intros j Hj. apply Hin.
      by right. }
    rewrite Hsame by (intros i Hi; apply elem_of_seq in Hi; lia).
    destruct (evict_sweep (seq 0 (Z.to_nat shardingCountOfMStores)) md (NoDup_seq 0 _))
      as (Hbuckets & _).
    rewrite (Hbuckets _ bkt Hbkt). rewrite decide_True; [done |].
    apply elem_of_seq. apply lookup_lt_Some in Hbkt. lia. }
  simpl. rewrite lookup_omap, Hms. simpl.
  unfold MetricStore.IsEmpty. rewrite Hpending. by rewrite andb_false_r.
Qed.

End PendingIndex.

(** Witness of X21: the sample store that was given a new version, in
    its bucket of the sample database; the sweep keeps it. *)
Lemma evictAll_keeps_pending_index_witness :
  let md := MemoryDatabase.putMStore Sample.db0 (Sum64String "cpu") Sample.cpuStoreReset in
  Props.bucketsInPlace md
  ∧ MemoryDatabase.getMStore md "cpu" = Some Sample.cpuStoreReset
  ∧ MetricStore.atomicGetImmutable Sample.cpuStoreReset
    = Some (MetricStore.mutable Sample.cpuStore)
  ∧ MemoryDatabase.getMStore (MemoryDatabase.evictAll md) "cpu"
    = Some (fst (MetricStore.Evict Sample.cpuStoreReset)).
Proof.
  intros md.
  assert (Props.bucketsInPlace md) as Hwf
    by apply putMStore_bucketsInPlace, db0_bucketsInPlace.
  assert (MemoryDatabase.getMStore md "cpu" = Some Sample.cpuStoreReset) as Hms
    by apply getMStore_putMStore, db0_bucketsInPlace.
  assert (MetricStore.atomicGetImmutable Sample.cpuStoreReset
          = Some (MetricStore.mutable Sample.cpuStore)) as Hindex.
  { assert (MetricStore.immutable Sample.cpuStoreReset
            = MetricStore.Stored (MetricStore.mutable Sample.cpuStore)) as Hslot
      by reflexivity.
    unfold MetricStore.atomicGetImmutable. rewrite Hslot.
    rewrite bool_decide_true; [reflexivity |]. vm_compute. discriminate. }
  split; [exact Hwf |]. split; [exact Hms |]. split; [exact Hindex |].
  exact (proj1 (evictAll_keeps_pending_index md "cpu" Sample.cpuStoreReset _
                  Hwf Hms Hindex)).
Defined.
